(** * Session engine of the mini-game cog (cogs/games.py)

    A shallow embedding of the duel, food-guessing and culture-battle
    handlers of [GamesCog], together with the score ledger they write to,
    and the properties of the session-orchestration specification that
    were checked against it.

    Conventions of the embedding.
    - Python [int] is [Z]; [float] timestamps returned by [time.time()] are
      rationals [Q] and are supplied by the environment of each step.
    - Python [str] is [string], the UTF-8 encoding of the text.  The
      duel and food handlers are embedded on ASCII text, where [strip],
      [lower] and [isalnum] use the ASCII character classes.  [_norm] of
      the culture battle is embedded on all text: outside ASCII the three
      methods are read from the Unicode character database of the
      interpreter, which the repository does not contain and which is a
      parameter here ([UnicodeData]).
    - A coroutine runs atomically from one suspension point to the next
      (asyncio is cooperative).  Awaits on the chat gateway ([send],
      [reply], [_announce], [_post_or_edit_timer]) and [asyncio.sleep]
      suspend; [add_points] / [get_points] do not, because [_lb_lock] is
      only ever held across synchronous code and is therefore free
      whenever it is acquired.
    - [Task.cancel()] on a task that is not done requests cancellation;
      [CancelledError] is raised inside the task at the await it is (or
      next becomes) suspended on.  It derives from [BaseException], so the
      [except Exception] clauses of the cog do not catch it. *)

From Stdlib Require Import ZArith QArith String Ascii List Lia Bool Sorted Permutation.
From stdpp Require Import base option list gmap strings.
Import ListNotations.

(** ** Python string primitives (ASCII) *)

Module PyStr.

Local Open Scope string_scope.

Definition code (c : ascii) : nat := nat_of_ascii c.

(** [str.isspace] on the ASCII range: TAB..CR, FS..US and SPACE. *)
Definition is_space (c : ascii) : bool :=
  let n := code c in
  ((9 <=? n)%nat && (n <=? 13)%nat) || ((28 <=? n)%nat && (n <=? 32)%nat).

Definition is_upper (c : ascii) : bool :=
  let n := code c in (65 <=? n)%nat && (n <=? 90)%nat.

Definition is_lower (c : ascii) : bool :=
  let n := code c in (97 <=? n)%nat && (n <=? 122)%nat.

Definition is_digit (c : ascii) : bool :=
  let n := code c in (48 <=? n)%nat && (n <=? 57)%nat.

(** [ch.isalnum()] *)
Definition isalnum (c : ascii) : bool := is_upper c || is_lower c || is_digit c.

Definition lower_char (c : ascii) : ascii :=
  if is_upper c then ascii_of_nat (code c + 32) else c.

(** [s.lower()] *)
Fixpoint lower (s : string) : string :=
  match s with
  | EmptyString => EmptyString
  | String c r => String (lower_char c) (lower r)
  end.

Fixpoint lstrip (s : string) : string :=
  match s with
  | EmptyString => EmptyString
  | String c r => if is_space c then lstrip r else s
  end.

Fixpoint rstrip (s : string) : string :=
  match s with
  | EmptyString => EmptyString
  | String c r =>
      match rstrip r with
      | EmptyString => if is_space c then EmptyString else String c EmptyString
      | r' => String c r'
      end
  end.

(** [s.strip()] *)
Definition strip (s : string) : string := rstrip (lstrip s).

(** [s.startswith(p)] *)
Fixpoint startswith (p s : string) : bool :=
  match p, s with
  | EmptyString, _ => true
  | String a p', String b s' => Ascii.eqb a b && startswith p' s'
  | String _ _, EmptyString => false
  end.

Fixpoint last_char (s : string) : option ascii :=
  match s with
  | EmptyString => None
  | String c EmptyString => Some c
  | String _ r => last_char r
  end.

(** [s.endswith(c)] for a one-character suffix *)
Definition endswith_char (c : ascii) (s : string) : bool :=
  match last_char s with
  | Some d => Ascii.eqb c d
  | None => false
  end.

(** [s[1:]] *)
Definition tail (s : string) : string :=
  match s with
  | EmptyString => EmptyString
  | String _ r => r
  end.

(** [s[:-1]] *)
Fixpoint init (s : string) : string :=
  match s with
  | EmptyString => EmptyString
  | String _ EmptyString => EmptyString
  | String c r => String c (init r)
  end.

(** [s[:2]] and friends *)
Fixpoint take (n : nat) (s : string) : string :=
  match n, s with
  | O, _ => EmptyString
  | S _, EmptyString => EmptyString
  | S n', String c r => String c (take n' r)
  end.

(** [s.split(" ", 1)[1]] for an [s] that contains a space: what follows
    the first space.  [None] stands for the [IndexError] on a string
    without one. *)
Fixpoint after_first_space (s : string) : option string :=
  match s with
  | EmptyString => None
  | String c r => if Ascii.eqb c " "%char then Some r else after_first_space r
  end.

Fixpoint filter_chars (p : ascii -> bool) (s : string) : string :=
  match s with
  | EmptyString => EmptyString
  | String c r => if p c then String c (filter_chars p r) else filter_chars p r
  end.

(** Truth value of an [Optional[str]]: [None] and the empty string are falsy. *)
Definition truthy (o : option string) : bool :=
  match o with
  | Some s => negb (String.eqb s "")
  | None => false
  end.

(** *** Text outside ASCII *)

(** Text whose characters are all ASCII (one byte each, below 128). *)
Fixpoint is_ascii (s : string) : bool :=
  match s with
  | EmptyString => true
  | String c r => (code c <? 128)%nat && is_ascii r
  end.

(** What [str.strip], [str.lower] and the selection of the characters
    with [ch.isalnum()] return on text that is not ASCII throughout.
    These results are a matter of the Unicode character database built
    into the interpreter (which characters are white space, letters or
    digits, and the case mappings); the database is no part of the
    repository and is taken as a parameter. *)
Class UnicodeData := {
  unicode_strip : string -> string;
  unicode_lower : string -> string;
  unicode_alnum : string -> string
}.

(** [s.strip()] on any text *)
Definition str_strip {U : UnicodeData} (s : string) : string :=
  if is_ascii s then strip s else unicode_strip s.

(** [s.lower()] on any text *)
Definition str_lower {U : UnicodeData} (s : string) : string :=
  if is_ascii s then lower s else unicode_lower s.

(** ["".join(ch for ch in s if ch.isalnum())] on any text *)
Definition str_alnum {U : UnicodeData} (s : string) : string :=
  if is_ascii s then filter_chars isalnum s else unicode_alnum s.

(** A database for interpreters that never meet a character outside
    ASCII.  It serves to run the handlers on ASCII text, on which no
    database is consulted. *)
Definition ascii_text : UnicodeData :=
  {| unicode_strip := fun s => s; unicode_lower := fun s => s;
     unicode_alnum := fun s => s |}.

End PyStr.

(** ** The score ledger

    [leaderboards.json] is a dictionary of dictionaries keyed by the
    decimal renderings of guild and user ids; it is modelled as one finite
    map keyed by the pair of ids.  [add_points] and [get_points] are the
    read-modify-write and read of that file under [_lb_lock]. *)

Module Scores.

Local Open Scope Z_scope.

Definition get_points (guild_id user_id : Z) (lb : gmap (Z * Z) Z) : Z :=
  default 0 (lb !! (guild_id, user_id)).

Definition add_points (guild_id user_id pts : Z) (lb : gmap (Z * Z) Z) : gmap (Z * Z) Z :=
  <[(guild_id, user_id) := get_points guild_id user_id lb + pts]> lb.

(** the assignment [data[gk][uk] = new_pts] of [buzz] *)
Definition set_points (guild_id user_id pts : Z) (lb : gmap (Z * Z) Z) : gmap (Z * Z) Z :=
  <[(guild_id, user_id) := pts]> lb.

End Scores.

(** ** asyncio tasks *)

Module Asyncio.

Section Pool.

Context {K : Type}.

(** A task is suspended at a continuation, running, cancelled but not yet
    woken, or done. *)
Inductive tstatus : Type :=
  | TWaiting (k : K)
  | TRunning
  | TCancelling
  | TDone.

(** [t.done()] *)
Definition done (ts : list tstatus) (t : nat) : bool :=
  match ts !! t with
  | Some TDone => true
  | Some _ => false
  | None => true
  end.

(** [if t and not t.done(): t.cancel()] *)
Definition cancel (h : option nat) (ts : list tstatus) : list tstatus :=
  match h with
  | Some t => if done ts t then ts else <[t := TCancelling]> ts
  | None => ts
  end.

(** [loop.create_task(coro)]: the new task is scheduled, not yet started. *)
Definition create_task (k : K) (ts : list tstatus) : list tstatus * nat :=
  (ts ++ [TWaiting k], length ts).

(** A task that still occupies the event loop. *)
Definition alive (ts : list tstatus) (t : nat) : bool :=
  match ts !! t with
  | Some (TWaiting _) | Some TRunning => true
  | _ => false
  end.

End Pool.

Arguments tstatus : clear implicits.

End Asyncio.

(** ** Python dictionaries in insertion order *)

Module PyDict.

Section Dict.

Context {K V : Type} `{EqDecision K}.

(** [d.get(k)] *)
Fixpoint dict_get (k : K) (d : list (K * V)) : option V :=
  match d with
  | [] => None
  | (k', v) :: r => if decide (k = k') then Some v else dict_get k r
  end.

(** [d[k] = v]: an existing key keeps its position, a new one goes last. *)
Fixpoint dict_set (k : K) (v : V) (d : list (K * V)) : list (K * V) :=
  match d with
  | [] => [(k, v)]
  | (k', v') :: r => if decide (k = k') then (k, v) :: r else (k', v') :: dict_set k v r
  end.

(** [d.pop(k, None)] *)
Fixpoint dict_pop (k : K) (d : list (K * V)) : list (K * V) :=
  match d with
  | [] => []
  | (k', v') :: r => if decide (k = k') then r else (k', v') :: dict_pop k r
  end.

End Dict.

End PyDict.

(** ** What the handlers read from discord.py objects *)

Module Discord.

(** [commands.Context]: [ctx.guild] ([None] in a DM), [ctx.author.id],
    [ctx.channel.id]. *)
Record Ctx := { ctx_guild : option Z; ctx_author : Z; ctx_channel : Z }.

(** [discord.Member] *)
Record Member := { member_id : Z; member_bot : bool }.

(** [discord.Message] *)
Record Message := {
  msg_author : Z;
  msg_author_bot : bool;
  msg_guild : option Z;
  msg_content : string
}.

End Discord.

(** ** Timestamps *)

Module Clock.

Definition Qltb (a b : Q) : bool := negb (Qle_bool b a).

(** [int(x)] on a float: truncation toward zero. *)
Definition py_int (x : Q) : Z := Z.quot (Qnum x) (Zpos (Qden x)).

End Clock.

(** ** The duel (DM-only moves) *)

Module Duel.

Import PyStr PyDict Asyncio Discord Clock.

Local Open Scope Z_scope.
Local Open Scope string_scope.

Definition DUEL_MOVES : list string := ["strike"; "guard"; "feint"].

(** [move in DUEL_MOVES] *)
Definition is_move (m : string) : bool := existsb (String.eqb m) DUEL_MOVES.

(** the dictionary literal of [duel_resolve] *)
Definition beats : list (string * string) :=
  [("strike", "feint"); ("feint", "guard"); ("guard", "strike")].

(** [duel_resolve]: 0 tie, 1 the challenger's move wins, 2 the opponent's.
    [None] is the [KeyError] of [beats[a_move]]. *)
Definition duel_resolve (a_move b_move : string) : option Z :=
  if String.eqb a_move b_move then Some 0
  else match dict_get a_move beats with
       | Some x => Some (if String.eqb x b_move then 1 else 2)
       | None => None
       end.

Record DuelState := {
  challenger_id : Z;
  opponent_id : Z;
  created_at : Q;
  channel_id : Z;
  accepted : bool;
  active : bool;
  ch_hp : Z;
  op_hp : Z;
  mode : string;
  ch_wins : Z;
  op_wins : Z;
  target_wins : Z;
  ch_move : option string;
  op_move : option string;
  round_started_at : Q;
  round_task : option nat;
  timer_message_id : option Z
}.

(** Field assignments [st.f = v]. *)
Definition set_accepted (v : bool) (s : DuelState) : DuelState :=
  {| challenger_id := challenger_id s; opponent_id := opponent_id s;
     created_at := created_at s; channel_id := channel_id s;
     accepted := v; active := active s; ch_hp := ch_hp s; op_hp := op_hp s;
     mode := mode s; ch_wins := ch_wins s; op_wins := op_wins s;
     target_wins := target_wins s; ch_move := ch_move s; op_move := op_move s;
     round_started_at := round_started_at s; round_task := round_task s;
     timer_message_id := timer_message_id s |}.

Definition set_active (v : bool) (s : DuelState) : DuelState :=
  {| challenger_id := challenger_id s; opponent_id := opponent_id s;
     created_at := created_at s; channel_id := channel_id s;
     accepted := accepted s; active := v; ch_hp := ch_hp s; op_hp := op_hp s;
     mode := mode s; ch_wins := ch_wins s; op_wins := op_wins s;
     target_wins := target_wins s; ch_move := ch_move s; op_move := op_move s;
     round_started_at := round_started_at s; round_task := round_task s;
     timer_message_id := timer_message_id s |}.

Definition set_ch_hp (v : Z) (s : DuelState) : DuelState :=
  {| challenger_id := challenger_id s; opponent_id := opponent_id s;
     created_at := created_at s; channel_id := channel_id s;
     accepted := accepted s; active := active s; ch_hp := v; op_hp := op_hp s;
     mode := mode s; ch_wins := ch_wins s; op_wins := op_wins s;
     target_wins := target_wins s; ch_move := ch_move s; op_move := op_move s;
     round_started_at := round_started_at s; round_task := round_task s;
     timer_message_id := timer_message_id s |}.

Definition set_op_hp (v : Z) (s : DuelState) : DuelState :=
  {| challenger_id := challenger_id s; opponent_id := opponent_id s;
     created_at := created_at s; channel_id := channel_id s;
     accepted := accepted s; active := active s; ch_hp := ch_hp s; op_hp := v;
     mode := mode s; ch_wins := ch_wins s; op_wins := op_wins s;
     target_wins := target_wins s; ch_move := ch_move s; op_move := op_move s;
     round_started_at := round_started_at s; round_task := round_task s;
     timer_message_id := timer_message_id s |}.

Definition set_ch_wins (v : Z) (s : DuelState) : DuelState :=
  {| challenger_id := challenger_id s; opponent_id := opponent_id s;
     created_at := created_at s; channel_id := channel_id s;
     accepted := accepted s; active := active s; ch_hp := ch_hp s; op_hp := op_hp s;
     mode := mode s; ch_wins := v; op_wins := op_wins s;
     target_wins := target_wins s; ch_move := ch_move s; op_move := op_move s;
     round_started_at := round_started_at s; round_task := round_task s;
     timer_message_id := timer_message_id s |}.

Definition set_op_wins (v : Z) (s : DuelState) : DuelState :=
  {| challenger_id := challenger_id s; opponent_id := opponent_id s;
     created_at := created_at s; channel_id := channel_id s;
     accepted := accepted s; active := active s; ch_hp := ch_hp s; op_hp := op_hp s;
     mode := mode s; ch_wins := ch_wins s; op_wins := v;
     target_wins := target_wins s; ch_move := ch_move s; op_move := op_move s;
     round_started_at := round_started_at s; round_task := round_task s;
     timer_message_id := timer_message_id s |}.

Definition set_ch_move (v : option string) (s : DuelState) : DuelState :=
  {| challenger_id := challenger_id s; opponent_id := opponent_id s;
     created_at := created_at s; channel_id := channel_id s;
     accepted := accepted s; active := active s; ch_hp := ch_hp s; op_hp := op_hp s;
     mode := mode s; ch_wins := ch_wins s; op_wins := op_wins s;
     target_wins := target_wins s; ch_move := v; op_move := op_move s;
     round_started_at := round_started_at s; round_task := round_task s;
     timer_message_id := timer_message_id s |}.

Definition set_op_move (v : option string) (s : DuelState) : DuelState :=
  {| challenger_id := challenger_id s; opponent_id := opponent_id s;
     created_at := created_at s; channel_id := channel_id s;
     accepted := accepted s; active := active s; ch_hp := ch_hp s; op_hp := op_hp s;
     mode := mode s; ch_wins := ch_wins s; op_wins := op_wins s;
     target_wins := target_wins s; ch_move := ch_move s; op_move := v;
     round_started_at := round_started_at s; round_task := round_task s;
     timer_message_id := timer_message_id s |}.

Definition set_round_started_at (v : Q) (s : DuelState) : DuelState :=
  {| challenger_id := challenger_id s; opponent_id := opponent_id s;
     created_at := created_at s; channel_id := channel_id s;
     accepted := accepted s; active := active s; ch_hp := ch_hp s; op_hp := op_hp s;
     mode := mode s; ch_wins := ch_wins s; op_wins := op_wins s;
     target_wins := target_wins s; ch_move := ch_move s; op_move := op_move s;
     round_started_at := v; round_task := round_task s;
     timer_message_id := timer_message_id s |}.

Definition set_round_task (v : option nat) (s : DuelState) : DuelState :=
  {| challenger_id := challenger_id s; opponent_id := opponent_id s;
     created_at := created_at s; channel_id := channel_id s;
     accepted := accepted s; active := active s; ch_hp := ch_hp s; op_hp := op_hp s;
     mode := mode s; ch_wins := ch_wins s; op_wins := op_wins s;
     target_wins := target_wins s; ch_move := ch_move s; op_move := op_move s;
     round_started_at := round_started_at s; round_task := v;
     timer_message_id := timer_message_id s |}.

(** [st.ch_move = None; st.op_move = None] *)
Definition clear_moves (s : DuelState) : DuelState :=
  set_op_move None (set_ch_move None s).

(** Suspension points of the duel coroutines, with the locals that are
    live across them.  [st] is the reference of the [DuelState] the
    coroutine holds. *)
Inductive cont : Type :=
  | KAcceptReplied (gid : Z) (st : nat)
      (* duelaccept: after the DMs and the reply, before _start_round *)
  | KStartRoundAnnounced (gid : Z) (st : nat)
      (* _start_round: after the announcement *)
  | KMoveReceived (gid : Z) (st : nat)
      (* on_message: after the "Move received" send *)
  | KNobodyAnnounced (gid : Z) (st : nat)
      (* _resolve_round, forced, both slots empty: after the announcement *)
  | KForfeitAnnounced (gid : Z) (st : nat) (challenger_missing : bool)
      (* _resolve_round, forced, one slot empty: after the announcement *)
  | KRevealAnnounced (gid : Z) (st : nat) (outcome : Z)
      (* _resolve_round, both slots filled: after the reveal *)
  | KDuelOverAnnounced
      (* _check_duel_end: after the final announcement *)
  | KLoopTop (gid : Z) (st : nat)
      (* _round_loop: at the top of [while True] (created, or slept) *)
  | KLoopPosted (gid : Z) (st : nat) (elapsed : Q)
      (* _round_loop: after _post_or_edit_timer *).

(** The cog ([self.duels]), the objects it refers to, the event loop's
    tasks and the leaderboard file. *)
Record World := {
  duels : list (Z * nat);
  heap : list DuelState;
  tasks : list (tstatus cont);
  ledger : gmap (Z * Z) Z
}.

Definition set_duels (d : list (Z * nat)) (w : World) : World :=
  {| duels := d; heap := heap w; tasks := tasks w; ledger := ledger w |}.

Definition set_heap (h : list DuelState) (w : World) : World :=
  {| duels := duels w; heap := h; tasks := tasks w; ledger := ledger w |}.

Definition set_tasks (t : list (tstatus cont)) (w : World) : World :=
  {| duels := duels w; heap := heap w; tasks := t; ledger := ledger w |}.

Definition set_ledger (l : gmap (Z * Z) Z) (w : World) : World :=
  {| duels := duels w; heap := heap w; tasks := tasks w; ledger := l |}.

(** a mutation of the object behind a reference *)
Definition upd (st : nat) (f : DuelState -> DuelState) (w : World) : World :=
  set_heap (alter f st (heap w)) w.

Definition empty_world : World :=
  {| duels := []; heap := []; tasks := []; ledger := ∅ |}.

Definition is_none {A : Type} (o : option A) : bool :=
  match o with
  | None => true
  | Some _ => false
  end.

(** [_duel_expired]: [(time.time() - st.created_at) > 120] *)
Definition duel_expired (now : Q) (s : DuelState) : bool :=
  Qltb 120 (now - created_at s).

(** [_strip_move] *)
Definition strip_move (raw : string) : string :=
  let m := lower (strip raw) in
  if startswith "<" m && endswith_char ">" m && (3 <=? String.length m)%nat
  then lower (strip (init (tail m)))
  else m.

(** [_cancel_round_timer] *)
Definition cancel_round_timer (st : nat) (w : World) : World :=
  match heap w !! st with
  | Some s => set_tasks (cancel (round_task s) (tasks w)) (upd st (set_round_task None) w)
  | None => w
  end.

(** [_start_round] up to its announcement. *)
Definition start_round_begin (gid : Z) (st : nat) (now : Q) (w : World)
  : World * option cont :=
  (upd st (fun s => set_round_started_at now (clear_moves s)) w,
   Some (KStartRoundAnnounced gid st)).

(** [_start_round] after its announcement: the old timer is cancelled and a
    new [_round_loop] task is created. *)
Definition start_round_finish (gid : Z) (st : nat) (w : World) : World :=
  let w1 := cancel_round_timer st w in
  let '(ts, t) := create_task (KLoopTop gid st) (tasks w1) in
  upd st (set_round_task (Some t)) (set_tasks ts w1).

(** The winner and loser that [_check_duel_end] computes, if any. *)
Definition winner_loser (s : DuelState) : option (Z * Z) :=
  if String.eqb (mode s) "bo3" then
    if (target_wins s <=? ch_wins s)%Z then Some (challenger_id s, opponent_id s)
    else if (target_wins s <=? op_wins s)%Z then Some (opponent_id s, challenger_id s)
    else None
  else
    if (ch_hp s <=? 0)%Z then Some (opponent_id s, challenger_id s)
    else if (op_hp s <=? 0)%Z then Some (challenger_id s, opponent_id s)
    else None.

(** [_check_duel_end] up to its announcement; the boolean is its result. *)
Definition check_duel_end (gid : Z) (st : nat) (w : World) : World * bool :=
  match heap w !! st with
  | None => (w, false)
  | Some s =>
      match winner_loser s with
      | None => (w, false)
      | Some (winner_id, loser_id) =>
          let w1 := set_duels (dict_pop gid (duels w)) w in
          let w2 := cancel_round_timer st w1 in
          let lb := Scores.add_points gid winner_id 3 (ledger w2) in
          let lb := Scores.add_points gid loser_id 1 lb in
          (set_ledger lb w2, true)
      end
  end.

(** The tail shared by both resolving branches of [_resolve_round]:
    [if await self._check_duel_end(...): return] and then [_start_round]. *)
Definition end_or_next_round (gid : Z) (st : nat) (now : Q) (w : World)
  : World * option cont :=
  let '(w1, ended) := check_duel_end gid st w in
  if ended then (w1, Some KDuelOverAnnounced) else start_round_begin gid st now w1.

(** [_resolve_round] up to its first announcement.  Every branch that
    changes a counter announces first, so the counters are untouched
    here and the branch taken is carried in the continuation. *)
Definition resolve_round_begin (gid : Z) (st : nat) (forced : bool) (w : World)
  : World * option cont :=
  let w1 := cancel_round_timer st w in
  match heap w1 !! st with
  | None => (w1, None)
  | Some s =>
      let a := ch_move s in
      let b := op_move s in
      if forced && (is_none a || is_none b) then
        if is_none a && is_none b then (w1, Some (KNobodyAnnounced gid st))
        else if is_none a then (w1, Some (KForfeitAnnounced gid st true))
        else (w1, Some (KForfeitAnnounced gid st false))
      else
        match a, b with
        | Some am, Some bm =>
            match duel_resolve am bm with
            | Some outcome => (w1, Some (KRevealAnnounced gid st outcome))
            | None => (w1, None)
            end
        | _, _ => (w1, None)
        end
  end.

(** The counter change of the forfeit branches. *)
Definition apply_forfeit (challenger_missing : bool) (s : DuelState) : DuelState :=
  if challenger_missing then
    if String.eqb (mode s) "bo3" then set_op_wins (op_wins s + 1) s
    else set_ch_hp (ch_hp s - 1) s
  else
    if String.eqb (mode s) "bo3" then set_ch_wins (ch_wins s + 1) s
    else set_op_hp (op_hp s - 1) s.

(** The counter change after a reveal. *)
Definition apply_outcome (outcome : Z) (s : DuelState) : DuelState :=
  if (outcome =? 0)%Z then s
  else if (outcome =? 1)%Z then
    if String.eqb (mode s) "bo3" then set_ch_wins (ch_wins s + 1) s
    else set_op_hp (op_hp s - 1) s
  else
    if String.eqb (mode s) "bo3" then set_op_wins (op_wins s + 1) s
    else set_ch_hp (ch_hp s - 1) s.

(** [_resolve_round] after the forfeit announcement. *)
Definition resolve_round_forfeit (gid : Z) (st : nat) (challenger_missing : bool)
    (now : Q) (w : World) : World * option cont :=
  end_or_next_round gid st now
    (upd st (fun s => clear_moves (apply_forfeit challenger_missing s)) w).

(** [_resolve_round] after the reveal. *)
Definition resolve_round_reveal (gid : Z) (st : nat) (outcome : Z)
    (now : Q) (w : World) : World * option cont :=
  end_or_next_round gid st now
    (upd st (fun s => clear_moves (apply_outcome outcome s)) w).

(** [st.ch_move and st.op_move] *)
Definition both_moves (st : nat) (w : World) : bool :=
  match heap w !! st with
  | Some s => truthy (ch_move s) && truthy (op_move s)
  | None => false
  end.

(** One atomic run of a coroutine: from the suspension point [k] to the
    next one ([Some k']) or to its return ([None]). *)
Definition exec (k : cont) (now : Q) (w : World) : World * option cont :=
  match k with
  | KAcceptReplied gid st => start_round_begin gid st now w
  | KStartRoundAnnounced gid st => (start_round_finish gid st w, None)
  | KMoveReceived gid st =>
      if both_moves st w then resolve_round_begin gid st false w else (w, None)
  | KNobodyAnnounced gid st => start_round_begin gid st now w
  | KForfeitAnnounced gid st cm => resolve_round_forfeit gid st cm now w
  | KRevealAnnounced gid st outcome => resolve_round_reveal gid st outcome now w
  | KDuelOverAnnounced => (w, None)
  | KLoopTop gid st =>
      match heap w !! st with
      | Some s => (w, Some (KLoopPosted gid st (now - round_started_at s)))
      | None => (w, None)
      end
  | KLoopPosted gid st elapsed =>
      if both_moves st w then resolve_round_begin gid st false w
      else if Qle_bool 30 elapsed then resolve_round_begin gid st true w
      else (w, Some (KLoopTop gid st))
  end.

(** The event loop resumes task [t].  A task whose cancellation was
    requested while it was suspended receives [CancelledError] and ends
    ([_round_loop] returns from its handler; nothing else is cancelled
    by the cog).  A task that requested its own cancellation while running
    receives it at the await it reaches next, so it ends there instead of
    suspending. *)
Definition run_task (t : nat) (now : Q) (w : World) : World :=
  match tasks w !! t with
  | Some (TWaiting k) =>
      let '(w1, r) := exec k now (set_tasks (<[t := TRunning]> (tasks w)) w) in
      match r, tasks w1 !! t with
      | Some k', Some TRunning => set_tasks (<[t := TWaiting k']> (tasks w1)) w1
      | _, _ => set_tasks (<[t := TDone]> (tasks w1)) w1
      end
  | Some TCancelling => set_tasks (<[t := TDone]> (tasks w)) w
  | _ => w
  end.

(** What a handler answers with ([RIgnored]: it returns silently). *)
Inductive reply : Type :=
  | RIgnored
  | RServerOnly
  | RDuelUsage
  | RNoBots
  | RNoSelf
  | RAlreadyPending
  | RChallenge
  | RNoPending
  | RAlreadyActive
  | RExpired
  | ROnlyOpponentAccepts
  | RStarted
  | ROnlyOpponentDeclines
  | RDeclined
  | RNoPendingOrActive
  | ROnlyParticipants
  | RCanceled
  | RInvalidMove
  | RNoActiveDuel
  | RAlreadySubmitted
  | RMoveReceived.

(** The handler's own task, suspended at [k]. *)
Definition suspend_at (k : cont) (w : World) : World :=
  set_tasks (fst (create_task k (tasks w))) w.

(** The [DuelState(...)] built by the [duel] command. *)
Definition new_duel (challenger opponent channel : Z) (duel_mode : string) (now : Q)
  : DuelState :=
  {| challenger_id := challenger; opponent_id := opponent;
     created_at := now; channel_id := channel;
     accepted := false; active := false; ch_hp := 3; op_hp := 3;
     mode := duel_mode; ch_wins := 0; op_wins := 0; target_wins := 2;
     ch_move := None; op_move := None; round_started_at := 0%Q;
     round_task := None; timer_message_id := None |}.

(** [existing and (existing.active or not self._duel_expired(existing))] *)
Definition duel_in_the_way (gid : Z) (now : Q) (w : World) : bool :=
  match dict_get gid (duels w) with
  | Some st =>
      match heap w !! st with
      | Some s => active s || negb (duel_expired now s)
      | None => false
      end
  | None => false
  end.

(** the [duel] command *)
Definition duel (ctx : Ctx) (opponent : option Member) (mode_arg : option string)
    (now : Q) (w : World) : World * reply :=
  match ctx_guild ctx with
  | None => (w, RServerOnly)
  | Some gid =>
      match opponent with
      | None => (w, RDuelUsage)
      | Some opp =>
          if member_bot opp then (w, RNoBots)
          else if (member_id opp =? ctx_author ctx)%Z then (w, RNoSelf)
          else if duel_in_the_way gid now w then (w, RAlreadyPending)
          else
            let duel_mode :=
              if String.eqb (lower (strip (default "" mode_arg))) "bo3"
              then "bo3" else "hp" in
            let st := length (heap w) in
            let s := new_duel (ctx_author ctx) (member_id opp) (ctx_channel ctx)
                       duel_mode now in
            (set_duels (dict_set gid st (duels w)) (set_heap (heap w ++ [s]) w),
             RChallenge)
      end
  end.

(** the [duelaccept] command, up to its first await *)
Definition duelaccept (ctx : Ctx) (now : Q) (w : World) : World * reply :=
  match ctx_guild ctx with
  | None => (w, RServerOnly)
  | Some gid =>
      match dict_get gid (duels w) with
      | None => (w, RNoPending)
      | Some st =>
          match heap w !! st with
          | None => (w, RNoPending)
          | Some s =>
              if active s then (w, RAlreadyActive)
              else if duel_expired now s then
                (set_duels (dict_pop gid (duels w)) w, RExpired)
              else if negb (ctx_author ctx =? opponent_id s)%Z then
                (w, ROnlyOpponentAccepts)
              else
                let reset s :=
                  clear_moves
                    (set_op_wins 0 (set_ch_wins 0
                      (set_op_hp 3 (set_ch_hp 3
                        (set_active true (set_accepted true s)))))) in
                (suspend_at (KAcceptReplied gid st) (upd st reset w), RStarted)
          end
      end
  end.

(** the [dueldecline] command *)
Definition dueldecline (ctx : Ctx) (w : World) : World * reply :=
  match ctx_guild ctx with
  | None => (w, RServerOnly)
  | Some gid =>
      match dict_get gid (duels w) with
      | None => (w, RNoPending)
      | Some st =>
          match heap w !! st with
          | None => (w, RNoPending)
          | Some s =>
              if negb (ctx_author ctx =? opponent_id s)%Z then
                (w, ROnlyOpponentDeclines)
              else (set_duels (dict_pop gid (duels w)) w, RDeclined)
          end
      end
  end.

(** the [duelcancel] command *)
Definition duelcancel (ctx : Ctx) (w : World) : World * reply :=
  match ctx_guild ctx with
  | None => (w, RServerOnly)
  | Some gid =>
      match dict_get gid (duels w) with
      | None => (w, RNoPendingOrActive)
      | Some st =>
          match heap w !! st with
          | None => (w, RNoPendingOrActive)
          | Some s =>
              if negb ((ctx_author ctx =? challenger_id s)%Z
                       || (ctx_author ctx =? opponent_id s)%Z) then
                (w, ROnlyParticipants)
              else
                (cancel_round_timer st (set_duels (dict_pop gid (duels w)) w),
                 RCanceled)
          end
      end
  end.

(** The text after the command word of a DM, if it is a move command. *)
Definition raw_move (content : string) : option string :=
  let content := strip content in
  if String.eqb content "" then None
  else
    let lo := strip (lower content) in
    let lo := if startswith "!" lo then strip (tail lo) else lo in
    if startswith "move " lo then after_first_space lo
    else if startswith "duelmove " lo then after_first_space lo
    else None.

(** The scan of [self.duels.items()] in [on_message]: the first entry, in
    iteration order, whose duel is active and has [author] as one of its
    two participants. *)
Fixpoint find_duel (author : Z) (h : list DuelState) (d : list (Z * nat))
  : option (Z * nat) :=
  match d with
  | [] => None
  | (gid, st) :: r =>
      match h !! st with
      | Some s =>
          if active s && ((author =? challenger_id s)%Z || (author =? opponent_id s)%Z)
          then Some (gid, st)
          else find_duel author h r
      | None => find_duel author h r
      end
  end.

(** [on_message], up to its first await *)
Definition on_message (m : Message) (w : World) : World * reply :=
  if msg_author_bot m then (w, RIgnored)
  else if negb (is_none (msg_guild m)) then (w, RIgnored)
  else
    match raw_move (msg_content m) with
    | None => (w, RIgnored)
    | Some raw =>
        let move := strip_move raw in
        if negb (is_move move) then (w, RInvalidMove)
        else
          match find_duel (msg_author m) (heap w) (duels w) with
          | None => (w, RNoActiveDuel)
          | Some (gid, st) =>
              match heap w !! st with
              | None => (w, RNoActiveDuel)
              | Some s =>
                  if (msg_author m =? challenger_id s)%Z then
                    if negb (is_none (ch_move s)) then (w, RAlreadySubmitted)
                    else (suspend_at (KMoveReceived gid st)
                            (upd st (set_ch_move (Some move)) w), RMoveReceived)
                  else
                    if negb (is_none (op_move s)) then (w, RAlreadySubmitted)
                    else (suspend_at (KMoveReceived gid st)
                            (upd st (set_op_move (Some move)) w), RMoveReceived)
              end
          end
    end.

(** What the event loop can do next: start a handler for an incoming
    event, or resume a suspended task. *)
Inductive event : Type :=
  | EMessage (m : Message)
  | EDuel (ctx : Ctx) (opponent : option Member) (mode_arg : option string)
  | EAccept (ctx : Ctx)
  | EDecline (ctx : Ctx)
  | ECancel (ctx : Ctx)
  | EResume (t : nat).

(** One step of the event loop at time [now]. *)
Definition step (now : Q) (e : event) (w : World) : World :=
  match e with
  | EMessage m => fst (on_message m w)
  | EDuel ctx opponent mode_arg => fst (duel ctx opponent mode_arg now w)
  | EAccept ctx => fst (duelaccept ctx now w)
  | EDecline ctx => fst (dueldecline ctx w)
  | ECancel ctx => fst (duelcancel ctx w)
  | EResume t => run_task t now w
  end.

(** A schedule: the timed events in the order the loop processes them. *)
Fixpoint run (sched : list (Q * event)) (w : World) : World :=
  match sched with
  | [] => w
  | (now, e) :: r => run r (step now e w)
  end.

End Duel.

(** ** Food emoji guessing *)

Module Food.

Import PyStr Asyncio Discord Clock.

Local Open Scope Z_scope.
Local Open Scope string_scope.

Definition FOOD_BANK : list (string * string) :=
  [("🍣", "sushi"); ("🍜", "ramen"); ("🍕", "pizza"); ("🌮", "taco");
   ("🍔", "burger"); ("🍩", "donut"); ("🥞", "pancakes"); ("🍛", "curry");
   ("🍦", "icecream"); ("🍙", "onigiri")].

Definition FOOD_DEFAULT_ROUNDS : Z := 1.
Definition FOOD_DEFAULT_SECONDS : Z := 30.
Definition FOOD_GUESS_COOLDOWN : Q := (5 # 4)%Q.

Record FoodState := {
  answer : string;
  emoji : string;
  started_at : Q;
  active : bool;
  rounds_total : Z;
  round_index : Z;
  seconds : Z;
  hints_used : Z;
  timer_task : option nat;
  channel_id : Z;
  last_guess_at : gmap Z Q
}.

Definition set_active (v : bool) (s : FoodState) : FoodState :=
  {| answer := answer s; emoji := emoji s; started_at := started_at s;
     active := v; rounds_total := rounds_total s; round_index := round_index s;
     seconds := seconds s; hints_used := hints_used s; timer_task := timer_task s;
     channel_id := channel_id s; last_guess_at := last_guess_at s |}.

Definition set_hints_used (v : Z) (s : FoodState) : FoodState :=
  {| answer := answer s; emoji := emoji s; started_at := started_at s;
     active := active s; rounds_total := rounds_total s; round_index := round_index s;
     seconds := seconds s; hints_used := v; timer_task := timer_task s;
     channel_id := channel_id s; last_guess_at := last_guess_at s |}.

Definition set_timer_task (v : option nat) (s : FoodState) : FoodState :=
  {| answer := answer s; emoji := emoji s; started_at := started_at s;
     active := active s; rounds_total := rounds_total s; round_index := round_index s;
     seconds := seconds s; hints_used := hints_used s; timer_task := v;
     channel_id := channel_id s; last_guess_at := last_guess_at s |}.

Definition set_last_guess_at (v : gmap Z Q) (s : FoodState) : FoodState :=
  {| answer := answer s; emoji := emoji s; started_at := started_at s;
     active := active s; rounds_total := rounds_total s; round_index := round_index s;
     seconds := seconds s; hints_used := hints_used s; timer_task := timer_task s;
     channel_id := channel_id s; last_guess_at := v |}.

(** What [_food_hint] tells, without the surrounding text. *)
Inductive hint_text : Type :=
  | HintFirstLetter (first : option ascii) (letters : nat)
  | HintVowels (masked : string)
  | HintFirstTwo (prefix : string)
  | NoMoreHints.

Definition upper_char (c : ascii) : ascii :=
  if is_lower c then ascii_of_nat (code c - 32) else c.

Fixpoint upper (s : string) : string :=
  match s with
  | EmptyString => EmptyString
  | String c r => String (upper_char c) (upper r)
  end.

Definition is_vowel (c : ascii) : bool :=
  existsb (Ascii.eqb c) ["a"; "e"; "i"; "o"; "u"]%char.

Fixpoint mask_consonants (s : string) : string :=
  match s with
  | EmptyString => EmptyString
  | String c r =>
      if is_vowel c then String c (mask_consonants r)
      else "•" ++ mask_consonants r
  end.

(** [_food_hint] *)
Definition food_hint (ans : string) (used : Z) : hint_text :=
  let a := strip (lower ans) in
  if (used =? 0)%Z then
    HintFirstLetter
      (match a with String c _ => Some (upper_char c) | EmptyString => None end)
      (String.length a)
  else if (used =? 1)%Z then HintVowels (mask_consonants a)
  else if (used =? 2)%Z then HintFirstTwo (upper (take 2 a))
  else NoMoreHints.

Inductive cont : Type :=
  | KTimer (gid : Z) (st : nat)
      (* _food_timeout: sleeping for st.seconds *)
  | KTimeoutAnnounced (gid : Z) (st : nat)
      (* _food_timeout: after the "Time!" announcement *)
  | KNextRoundSlept (gid : Z) (st : nat)
      (* _food_timeout / guess: after asyncio.sleep(1.0) *)
  | KCorrectReplied (gid : Z) (st : nat)
      (* guess: after the "Correct!" reply *)
  | KRoundAnnounced (st : nat) (gid : Z)
      (* _start_next_food_round: after the announcement *).

Record World := {
  food : gmap Z nat;
  heap : list FoodState;
  tasks : list (tstatus cont);
  ledger : gmap (Z * Z) Z
}.

Definition set_food (f : gmap Z nat) (w : World) : World :=
  {| food := f; heap := heap w; tasks := tasks w; ledger := ledger w |}.

Definition set_heap (h : list FoodState) (w : World) : World :=
  {| food := food w; heap := h; tasks := tasks w; ledger := ledger w |}.

Definition set_tasks (t : list (tstatus cont)) (w : World) : World :=
  {| food := food w; heap := heap w; tasks := t; ledger := ledger w |}.

Definition set_ledger (l : gmap (Z * Z) Z) (w : World) : World :=
  {| food := food w; heap := heap w; tasks := tasks w; ledger := l |}.

Definition upd (st : nat) (f : FoodState -> FoodState) (w : World) : World :=
  set_heap (alter f st (heap w)) w.

Definition empty_world : World :=
  {| food := ∅; heap := []; tasks := []; ledger := ∅ |}.

Definition suspend_at (k : cont) (w : World) : World :=
  set_tasks (fst (create_task k (tasks w))) w.

(** [self.food.get(gid)] followed by the object behind the reference *)
Definition current (gid : Z) (w : World) : option (nat * FoodState) :=
  match food w !! gid with
  | Some st =>
      match heap w !! st with
      | Some s => Some (st, s)
      | None => None
      end
  | None => None
  end.

(** [_cancel_food_timer] *)
Definition cancel_food_timer (st : nat) (w : World) : World :=
  match heap w !! st with
  | Some s => set_tasks (cancel (timer_task s) (tasks w)) (upd st (set_timer_task None) w)
  | None => w
  end.

(** [_start_next_food_round] up to its announcement; [rnd] is the draw of
    [random.choice(FOOD_BANK)]. *)
Definition start_next_food_round (gid channel rounds next_round secs : Z)
    (now : Q) (rnd : nat) (w : World) : World * option cont :=
  match FOOD_BANK !! (rnd mod length FOOD_BANK)%nat with
  | None => (w, None)
  | Some (em, ans) =>
      let s := {| answer := lower ans; emoji := em; started_at := now;
                  active := true; rounds_total := rounds; round_index := next_round;
                  seconds := secs; hints_used := 0; timer_task := None;
                  channel_id := channel; last_guess_at := ∅ |} in
      let st := length (heap w) in
      (set_food (<[gid := st]> (food w)) (set_heap (heap w ++ [s]) w),
       Some (KRoundAnnounced st gid))
  end.

(** [_start_next_food_round] after its announcement *)
Definition arm_food_timer (st : nat) (gid : Z) (w : World) : World :=
  let w1 := cancel_food_timer st w in
  let '(ts, t) := create_task (KTimer gid st) (tasks w1) in
  upd st (set_timer_task (Some t)) (set_tasks ts w1).

Inductive reply : Type :=
  | RIgnored
  | RServerOnly
  | RNoGame
  | RGameStarted
  | RStopped
  | RHint (h : hint_text)
  | RGuessUsage
  | RCorrect (pts : Z)
  | RNope.

(** the [foodgame] command, up to its first await *)
Definition foodgame (ctx : Ctx) (rounds : option Z) (now : Q) (rnd : nat) (w : World)
  : World * reply :=
  match ctx_guild ctx with
  | None => (w, RServerOnly)
  | Some gid =>
      let w1 :=
        match current gid w with
        | Some (st, s) => if active s then cancel_food_timer st w else w
        | None => w
        end in
      let rt :=
        match rounds with
        | None => FOOD_DEFAULT_ROUNDS
        | Some r => Z.max 1 (Z.min r 20)
        end in
      let '(w2, k) :=
        start_next_food_round gid (ctx_channel ctx) rt 1 FOOD_DEFAULT_SECONDS now rnd w1 in
      match k with
      | Some k => (suspend_at k w2, RGameStarted)
      | None => (w2, RIgnored)
      end
  end.

(** the [foodstop] command *)
Definition foodstop (ctx : Ctx) (w : World) : World * reply :=
  match ctx_guild ctx with
  | None => (w, RServerOnly)
  | Some gid =>
      match current gid w with
      | None => (w, RNoGame)
      | Some (st, s) =>
          if negb (active s) then (w, RNoGame)
          else (cancel_food_timer st (upd st (set_active false) w), RStopped)
      end
  end.

(** the [hint] command *)
Definition hint (ctx : Ctx) (w : World) : World * reply :=
  match ctx_guild ctx with
  | None => (w, RServerOnly)
  | Some gid =>
      match current gid w with
      | None => (w, RNoGame)
      | Some (st, s) =>
          if negb (active s) then (w, RNoGame)
          else
            let used := hints_used s + 1 in
            (upd st (set_hints_used used) w, RHint (food_hint (answer s) (used - 1)))
      end
  end.

(** The points of a correct guess made at [now] in a round started at
    [started] with [hints] hints used. *)
Definition guess_points (now started : Q) (hints : Z) : Z :=
  let elapsed := Z.max 1 (py_int (now - started)) in
  let speed_bonus := if (elapsed <=? 10)%Z then 1 else 0 in
  let hint_penalty := Z.min hints 2 in
  Z.max 1 (2 + speed_bonus - hint_penalty).

(** the [guess] command, up to its first await *)
Definition guess (ctx : Ctx) (ans : option string) (now : Q) (w : World)
  : World * reply :=
  match ctx_guild ctx with
  | None => (w, RServerOnly)
  | Some gid =>
      match current gid w with
      | None => (w, RNoGame)
      | Some (st, s) =>
          if negb (active s) then (w, RNoGame)
          else if negb (truthy ans) then (w, RGuessUsage)
          else
            let last := default 0%Q (last_guess_at s !! ctx_author ctx) in
            if Qltb (now - last) FOOD_GUESS_COOLDOWN then (w, RIgnored)
            else
              let stamp s :=
                set_last_guess_at (<[ctx_author ctx := now]> (last_guess_at s)) s in
              let w1 := upd st stamp w in
              if String.eqb (lower (strip (default "" ans))) (answer s) then
                let w2 := cancel_food_timer st (upd st (set_active false) w1) in
                let pts := guess_points now (started_at s) (hints_used s) in
                let lb := Scores.add_points gid (ctx_author ctx) pts (ledger w2) in
                (suspend_at (KCorrectReplied gid st) (set_ledger lb w2), RCorrect pts)
              else (w1, RNope)
      end
  end.

(** [if st.round_index < st.rounds_total: await asyncio.sleep(1.0)] *)
Definition more_rounds (gid : Z) (st : nat) (w : World) : World * option cont :=
  match heap w !! st with
  | Some s =>
      if (round_index s <? rounds_total s)%Z then (w, Some (KNextRoundSlept gid st))
      else (w, None)
  | None => (w, None)
  end.

Definition exec (k : cont) (now : Q) (rnd : nat) (w : World) : World * option cont :=
  match k with
  | KTimer gid st =>
      match food w !! gid, heap w !! st with
      | Some cur, Some s =>
          if negb (Nat.eqb cur st) || negb (active s) then (w, None)
          else (upd st (set_active false) w, Some (KTimeoutAnnounced gid st))
      | _, _ => (w, None)
      end
  | KTimeoutAnnounced gid st => more_rounds gid st w
  | KCorrectReplied gid st => more_rounds gid st w
  | KNextRoundSlept gid st =>
      match heap w !! st with
      | Some s =>
          start_next_food_round gid (channel_id s) (rounds_total s)
            (round_index s + 1) (seconds s) now rnd w
      | None => (w, None)
      end
  | KRoundAnnounced st gid => (arm_food_timer st gid w, None)
  end.

Definition run_task (t : nat) (now : Q) (rnd : nat) (w : World) : World :=
  match tasks w !! t with
  | Some (TWaiting k) =>
      let '(w1, r) := exec k now rnd (set_tasks (<[t := TRunning]> (tasks w)) w) in
      match r, tasks w1 !! t with
      | Some k', Some TRunning => set_tasks (<[t := TWaiting k']> (tasks w1)) w1
      | _, _ => set_tasks (<[t := TDone]> (tasks w1)) w1
      end
  | Some TCancelling => set_tasks (<[t := TDone]> (tasks w)) w
  | _ => w
  end.

Inductive event : Type :=
  | EFoodGame (ctx : Ctx) (rounds : option Z)
  | EFoodStop (ctx : Ctx)
  | EHint (ctx : Ctx)
  | EGuess (ctx : Ctx) (ans : option string)
  | EResume (t : nat).

Definition step (now : Q) (rnd : nat) (e : event) (w : World) : World :=
  match e with
  | EFoodGame ctx rounds => fst (foodgame ctx rounds now rnd w)
  | EFoodStop ctx => fst (foodstop ctx w)
  | EHint ctx => fst (hint ctx w)
  | EGuess ctx ans => fst (guess ctx ans now w)
  | EResume t => run_task t now rnd w
  end.

Fixpoint run (sched : list (Q * nat * event)) (w : World) : World :=
  match sched with
  | [] => w
  | (now, rnd, e) :: r => run r (step now rnd e w)
  end.

End Food.

(** ** Culture trivia battle *)

Module Battle.

Import PyStr Asyncio Discord Clock.

Local Open Scope Z_scope.
Local Open Scope string_scope.

Definition CULTURE_Q : list (string * string) :=
  [("Japan’s capital city is?", "tokyo");
   ("Famous Japanese bullet train is called?", "shinkansen");
   ("Traditional Japanese warrior class is?", "samurai");
   ("Japanese currency is the?", "yen");
   ("Famous mountain often seen in art is Mount?", "fuji");
   ("The traditional Japanese tea ceremony centers on?", "matcha")].

Definition CULTURE_DEFAULT_Q : Z := 5.
Definition CULTURE_DEFAULT_SECONDS : Z := 20.

(** [_norm]: [(s or "").strip().lower()], of which the characters with
    [ch.isalnum()] are kept.  The callers pass a [str]. *)
Definition norm {U : UnicodeData} (s : string) : string :=
  str_alnum (str_lower (str_strip s)).

Record BattleState := {
  channel_id : Z;
  questions_left : list (string * string);
  active : bool;
  started_by : Z;
  current_q : option (string * string);
  asked_at : Q;
  seconds_per_q : Z;
  accepting : bool;
  buzz_winner_id : option Z;
  timer_task : option nat;
  timer_message_id : option Z
}.

Definition set_questions_left (v : list (string * string)) (s : BattleState) : BattleState :=
  {| channel_id := channel_id s; questions_left := v; active := active s;
     started_by := started_by s; current_q := current_q s; asked_at := asked_at s;
     seconds_per_q := seconds_per_q s; accepting := accepting s;
     buzz_winner_id := buzz_winner_id s; timer_task := timer_task s;
     timer_message_id := timer_message_id s |}.

Definition set_active (v : bool) (s : BattleState) : BattleState :=
  {| channel_id := channel_id s; questions_left := questions_left s; active := v;
     started_by := started_by s; current_q := current_q s; asked_at := asked_at s;
     seconds_per_q := seconds_per_q s; accepting := accepting s;
     buzz_winner_id := buzz_winner_id s; timer_task := timer_task s;
     timer_message_id := timer_message_id s |}.

Definition set_current_q (v : option (string * string)) (s : BattleState) : BattleState :=
  {| channel_id := channel_id s; questions_left := questions_left s; active := active s;
     started_by := started_by s; current_q := v; asked_at := asked_at s;
     seconds_per_q := seconds_per_q s; accepting := accepting s;
     buzz_winner_id := buzz_winner_id s; timer_task := timer_task s;
     timer_message_id := timer_message_id s |}.

Definition set_asked_at (v : Q) (s : BattleState) : BattleState :=
  {| channel_id := channel_id s; questions_left := questions_left s; active := active s;
     started_by := started_by s; current_q := current_q s; asked_at := v;
     seconds_per_q := seconds_per_q s; accepting := accepting s;
     buzz_winner_id := buzz_winner_id s; timer_task := timer_task s;
     timer_message_id := timer_message_id s |}.

Definition set_accepting (v : bool) (s : BattleState) : BattleState :=
  {| channel_id := channel_id s; questions_left := questions_left s; active := active s;
     started_by := started_by s; current_q := current_q s; asked_at := asked_at s;
     seconds_per_q := seconds_per_q s; accepting := v;
     buzz_winner_id := buzz_winner_id s; timer_task := timer_task s;
     timer_message_id := timer_message_id s |}.

Definition set_buzz_winner_id (v : option Z) (s : BattleState) : BattleState :=
  {| channel_id := channel_id s; questions_left := questions_left s; active := active s;
     started_by := started_by s; current_q := current_q s; asked_at := asked_at s;
     seconds_per_q := seconds_per_q s; accepting := accepting s;
     buzz_winner_id := v; timer_task := timer_task s;
     timer_message_id := timer_message_id s |}.

Definition set_timer_task (v : option nat) (s : BattleState) : BattleState :=
  {| channel_id := channel_id s; questions_left := questions_left s; active := active s;
     started_by := started_by s; current_q := current_q s; asked_at := asked_at s;
     seconds_per_q := seconds_per_q s; accepting := accepting s;
     buzz_winner_id := buzz_winner_id s; timer_task := v;
     timer_message_id := timer_message_id s |}.

Inductive cont : Type :=
  | KStartReplied (gid : Z)
      (* battle start: after the reply, before _ask_next_question *)
  | KBuzzReplied (gid : Z)
      (* buzz: after the "Correct!" / "Wrong!" reply *)
  | KTimeoutAnnounced (gid : Z)
      (* _battle_timeout: after the "Time!" announcement *)
  | KSlept (gid : Z)
      (* buzz / _battle_timeout: after asyncio.sleep(1.0) *)
  | KQuestionAnnounced (gid : Z) (st : nat)
      (* _ask_next_question: after the question is announced *)
  | KFinishedAnnounced
      (* _ask_next_question: after "Battle finished!" *)
  | KLoopTop (gid : Z) (st : nat)
      (* _battle_timer_loop: at the top of [while True] *)
  | KLoopPosted (gid : Z) (st : nat) (elapsed : Q)
      (* _battle_timer_loop: after _post_or_edit_battle_timer *).

Record World := {
  battle : gmap Z nat;
  heap : list BattleState;
  tasks : list (tstatus cont);
  ledger : gmap (Z * Z) Z
}.

Definition set_battle (b : gmap Z nat) (w : World) : World :=
  {| battle := b; heap := heap w; tasks := tasks w; ledger := ledger w |}.

Definition set_heap (h : list BattleState) (w : World) : World :=
  {| battle := battle w; heap := h; tasks := tasks w; ledger := ledger w |}.

Definition set_tasks (t : list (tstatus cont)) (w : World) : World :=
  {| battle := battle w; heap := heap w; tasks := t; ledger := ledger w |}.

Definition set_ledger (l : gmap (Z * Z) Z) (w : World) : World :=
  {| battle := battle w; heap := heap w; tasks := tasks w; ledger := l |}.

Definition upd (st : nat) (f : BattleState -> BattleState) (w : World) : World :=
  set_heap (alter f st (heap w)) w.

Definition empty_world : World :=
  {| battle := ∅; heap := []; tasks := []; ledger := ∅ |}.

Definition suspend_at (k : cont) (w : World) : World :=
  set_tasks (fst (create_task k (tasks w))) w.

(** [self.battle.get(gid)] followed by the object behind the reference *)
Definition current (gid : Z) (w : World) : option (nat * BattleState) :=
  match battle w !! gid with
  | Some st =>
      match heap w !! st with
      | Some s => Some (st, s)
      | None => None
      end
  | None => None
  end.

(** [_cancel_battle_timer] *)
Definition cancel_battle_timer (st : nat) (w : World) : World :=
  match heap w !! st with
  | Some s => set_tasks (cancel (timer_task s) (tasks w)) (upd st (set_timer_task None) w)
  | None => w
  end.

(** The four assignments that end the battle in [_ask_next_question]. *)
Definition finish (s : BattleState) : BattleState :=
  set_buzz_winner_id None (set_accepting false (set_current_q None (set_active false s))).

(** The assignments that deal question [q], leaving [rest] in the queue. *)
Definition deal (q : string * string) (rest : list (string * string)) (now : Q)
    (s : BattleState) : BattleState :=
  set_buzz_winner_id None
    (set_accepting true (set_asked_at now (set_current_q (Some q) (set_questions_left rest s)))).

(** [_ask_next_question] up to its announcement *)
Definition ask_next_question (gid : Z) (now : Q) (w : World) : World * option cont :=
  match current gid w with
  | None => (w, None)
  | Some (st, s) =>
      if negb (active s) then (w, None)
      else
        let w1 := cancel_battle_timer st w in
        match questions_left s with
        | [] => (upd st finish w1, Some KFinishedAnnounced)
        | q :: rest => (upd st (deal q rest now) w1, Some (KQuestionAnnounced gid st))
        end
  end.

(** [_ask_next_question] after the question is announced:
    [st.timer_task = create_task(self._battle_timer_loop(guild_id, st))] *)
Definition arm_battle_timer (gid : Z) (st : nat) (w : World) : World :=
  let '(ts, t) := create_task (KLoopTop gid st) (tasks w) in
  upd st (set_timer_task (Some t)) (set_tasks ts w).

(** [not st.current_q] *)
Definition is_none_q (s : BattleState) : bool :=
  match current_q s with
  | Some _ => false
  | None => true
  end.

(** [_battle_timeout] up to its announcement *)
Definition battle_timeout (gid : Z) (st : nat) (w : World) : World * option cont :=
  match heap w !! st with
  | Some s =>
      if negb (active s) || is_none_q s then (w, None)
      else (upd st (fun s => set_buzz_winner_id None (set_accepting false s)) w,
            Some (KTimeoutAnnounced gid))
  | None => (w, None)
  end.

Inductive reply : Type :=
  | RServerOnly
  | RBattleUsage
  | RNoBattleToStop
  | RBattleStopped
  | RBattleStarted (questions : nat)
  | RNoBattle
  | RWrongChannel      (* silent return *)
  | RBuzzUsage
  | RNotAccepting      (* silent return *)
  | RCorrect
  | RWrong.

(** the [battle] command, up to its first await; [shuffled] is [qpool]
    after [random.shuffle] *)
Definition battle_cmd (ctx : Ctx) (action : option string) (n seconds : option Z)
    (shuffled : list (string * string)) (w : World) : World * reply :=
  match ctx_guild ctx with
  | None => (w, RServerOnly)
  | Some gid =>
      let action := strip (lower (default "" action)) in
      if String.eqb action "stop" then
        match current gid w with
        | None => (w, RNoBattleToStop)
        | Some (st, s) =>
            if negb (active s) then (w, RNoBattleToStop)
            else (cancel_battle_timer st (upd st (set_active false) w), RBattleStopped)
        end
      else if String.eqb action "start" then
        let total_q :=
          match n with
          | None => CULTURE_DEFAULT_Q
          | Some n => Z.max 1 (Z.min n 50)
          end in
        let sec :=
          match seconds with
          | None => CULTURE_DEFAULT_SECONDS
          | Some x => Z.max 8 (Z.min x 60)
          end in
        let chosen :=
          firstn (Z.to_nat (Z.min total_q (Z.of_nat (length shuffled)))) shuffled in
        let s := {| channel_id := ctx_channel ctx; questions_left := chosen;
                    active := true; started_by := ctx_author ctx;
                    current_q := None; asked_at := 0%Q; seconds_per_q := sec;
                    accepting := false; buzz_winner_id := None;
                    timer_task := None; timer_message_id := None |} in
        let st := length (heap w) in
        (suspend_at (KStartReplied gid)
           (set_battle (<[gid := st]> (battle w)) (set_heap (heap w ++ [s]) w)),
         RBattleStarted (length chosen))
      else (w, RBattleUsage)
  end.

(** the [buzz] command, up to its first await: the guards, the claim and
    the score change *)
Definition buzz {U : UnicodeData} (ctx : Ctx) (ans : option string) (w : World) :
    World * reply :=
  match ctx_guild ctx with
  | None => (w, RServerOnly)
  | Some gid =>
      match current gid w with
      | None => (w, RNoBattle)
      | Some (st, s) =>
          match current_q s with
          | None => (w, RNoBattle)
          | Some (_, correct_raw) =>
              if negb (active s) then (w, RNoBattle)
              else if negb (ctx_channel ctx =? channel_id s)%Z then (w, RWrongChannel)
              else if negb (truthy ans) then (w, RBuzzUsage)
              else if negb (accepting s) then (w, RNotAccepting)
              else
                let claim s := set_buzz_winner_id (Some (ctx_author ctx)) (set_accepting false s) in
                let w1 := upd st claim w in
                if String.eqb (norm (default "" ans)) (norm correct_raw) then
                  let lb := Scores.add_points gid (ctx_author ctx) 2 (ledger w1) in
                  (suspend_at (KBuzzReplied gid) (set_ledger lb w1), RCorrect)
                else
                  let cur_pts := Scores.get_points gid (ctx_author ctx) (ledger w1) in
                  let new_pts := Z.max 0 (cur_pts - 1) in
                  let lb := Scores.set_points gid (ctx_author ctx) new_pts (ledger w1) in
                  (suspend_at (KBuzzReplied gid) (set_ledger lb w1), RWrong)
          end
      end
  end.

Definition exec (k : cont) (now : Q) (w : World) : World * option cont :=
  match k with
  | KStartReplied gid => ask_next_question gid now w
  | KBuzzReplied gid => (w, Some (KSlept gid))
  | KTimeoutAnnounced gid => (w, Some (KSlept gid))
  | KSlept gid => ask_next_question gid now w
  | KQuestionAnnounced gid st => (arm_battle_timer gid st w, None)
  | KFinishedAnnounced => (w, None)
  | KLoopTop gid st =>
      match heap w !! st with
      | Some s =>
          if negb (active s) || is_none_q s then (w, None)
          else (w, Some (KLoopPosted gid st (now - asked_at s)))
      | None => (w, None)
      end
  | KLoopPosted gid st elapsed =>
      match heap w !! st with
      | Some s =>
          if Qle_bool (inject_Z (seconds_per_q s)) elapsed then battle_timeout gid st w
          else (w, Some (KLoopTop gid st))
      | None => (w, None)
      end
  end.

Definition run_task (t : nat) (now : Q) (w : World) : World :=
  match tasks w !! t with
  | Some (TWaiting k) =>
      let '(w1, r) := exec k now (set_tasks (<[t := TRunning]> (tasks w)) w) in
      match r, tasks w1 !! t with
      | Some k', Some TRunning => set_tasks (<[t := TWaiting k']> (tasks w1)) w1
      | _, _ => set_tasks (<[t := TDone]> (tasks w1)) w1
      end
  | Some TCancelling => set_tasks (<[t := TDone]> (tasks w)) w
  | _ => w
  end.

Inductive event : Type :=
  | EBattle (ctx : Ctx) (action : option string) (n seconds : option Z)
      (shuffled : list (string * string))
  | EBuzz (ctx : Ctx) (ans : option string)
  | EResume (t : nat).

Definition step {U : UnicodeData} (now : Q) (e : event) (w : World) : World :=
  match e with
  | EBattle ctx action n seconds shuffled =>
      fst (battle_cmd ctx action n seconds shuffled w)
  | EBuzz ctx ans => fst (buzz ctx ans w)
  | EResume t => run_task t now w
  end.

Fixpoint run {U : UnicodeData} (sched : list (Q * event)) (w : World) : World :=
  match sched with
  | [] => w
  | (now, e) :: r => run r (step now e w)
  end.

End Battle.

(** ** Rank titles *)

Module Ranks.

Local Open Scope Z_scope.
Local Open Scope string_scope.

Definition RANKS : list (Z * string) :=
  [(0, "Ashigaru 🪶"); (10, "Ronin 🥷"); (25, "Samurai ⚔️");
   (50, "Daimyo 🏯"); (100, "Shogun 👑"); (200, "Legend 🐉")].

(** The [for threshold, name in RANKS] loop of [rank_title], entered with
    the title found so far; it leaves at the first threshold above
    [points]. *)
Fixpoint rank_scan (points : Z) (title : string) (ranks : list (Z * string)) : string :=
  match ranks with
  | [] => title
  | (threshold, name) :: rest =>
      if (threshold <=? points)%Z then rank_scan points name rest else title
  end.

(** [rank_title]; the loop starts from [RANKS[0][1]]. *)
Definition rank_title (points : Z) : string :=
  match RANKS with
  | [] => ""
  | (_, first) :: _ => rank_scan points first RANKS
  end.

End Ranks.

(** ** The leaderboard query *)

Module Leaderboard.

Local Open Scope Z_scope.

(** One step of a stable sort on the score, highest first: [x] goes in
    front of the first entry whose score is not above its own. *)
Fixpoint insert_desc (x : Z * Z) (l : list (Z * Z)) : list (Z * Z) :=
  match l with
  | [] => [x]
  | y :: r => if (snd y <=? snd x)%Z then x :: l else y :: insert_desc x r
  end.

(** [pairs.sort(key=lambda x: x[1], reverse=True)]: descending by score;
    the sort is stable, entries of equal score keep their order. *)
Fixpoint sort_desc (l : list (Z * Z)) : list (Z * Z) :=
  match l with
  | [] => []
  | x :: r => insert_desc x (sort_desc r)
  end.

(** The slice [l[:limit]]; a negative limit counts from the end. *)
Definition py_prefix {A : Type} (limit : Z) (l : list A) : list A :=
  if (0 <=? limit)%Z then firstn (Z.to_nat limit) l
  else firstn (length l - Z.to_nat (- limit)) l.

(** [top_points] on the entries of the guild's dictionary, in the order
    [g.items()] yields them (user id, score). *)
Definition top_points (items : list (Z * Z)) (limit : Z) : list (Z * Z) :=
  py_prefix limit (sort_desc items).

End Leaderboard.

(** * Terms of the statements

    The predicates the properties are stated with, and the concrete runs
    of the event loop they are tried on. *)

Module DuelTerms.

Import PyDict Discord Clock Asyncio Duel.

Local Open Scope Z_scope.
Local Open Scope string_scope.

(** The pairs (challenger's move, opponent's move) the challenger wins. *)
Definition challenger_wins (a b : string) : Prop :=
  (a = "strike" /\ b = "feint") \/
  (a = "feint" /\ b = "guard") \/
  (a = "guard" /\ b = "strike").

(** *** A duel in guild 1 between users 10 (challenger) and 20 (opponent) *)

Definition challenger_ctx : Ctx :=
  {| ctx_guild := Some 1; ctx_author := 10; ctx_channel := 100 |}.

Definition opponent_ctx : Ctx :=
  {| ctx_guild := Some 1; ctx_author := 20; ctx_channel := 100 |}.

Definition dm (author : Z) (content : string) : Message :=
  {| msg_author := author; msg_author_bot := false; msg_guild := None;
     msg_content := content |}.

(** The challenge, its acceptance, and the start of the first round: task 0
    is the [duelaccept] handler, task 1 the round timer it creates. *)
Definition opening (duel_mode : option string) : list (Q * event) :=
  [(0%Q, EDuel challenger_ctx (Some {| member_id := 20; member_bot := false |}) duel_mode);
   (1%Q, EAccept opponent_ctx);
   (2%Q, EResume 0%nat);
   ((21 # 10)%Q, EResume 0%nat);
   ((22 # 10)%Q, EResume 1%nat);
   ((23 # 10)%Q, EResume 1%nat)].

(** Both players send their move within the same moment: each handler
    stores its move and suspends on its acknowledgement (tasks 2 and 3)
    before the other is resumed. *)
Definition both_move : list (Q * event) :=
  [(5%Q, EMessage (dm 10 "move strike"));
   ((101 # 20)%Q, EMessage (dm 20 "move feint"))].

(** The two handlers are resumed in turn: each sees both slots filled and
    enters [_resolve_round], whose reveal is announced before the slots
    are cleared; then each applies the outcome it computed. *)
Definition both_resolve : list (Q * event) :=
  [((51 # 10)%Q, EResume 2%nat);
   ((103 # 20)%Q, EResume 3%nat);
   ((52 # 10)%Q, EResume 2%nat);
   ((21 # 4)%Q, EResume 3%nat)].

(** The health points and move slots of the duel object [st]. *)
Definition hp (st : nat) (w : World) : option (Z * Z) :=
  (fun s => (ch_hp s, op_hp s)) <$> heap w !! st.

Definition slots (st : nat) (w : World) : option (option string * option string) :=
  (fun s => (ch_move s, op_move s)) <$> heap w !! st.

(** A round in which one handler resolves alone: the challenger's move is
    acknowledged before the opponent's arrives (tasks [t] and [t+1]; the
    opponent's handler resolves, starts the next round and creates its
    timer, task [t+2]). *)
Definition plain_round (at_ : Q) (t : nat) : list (Q * event) :=
  [(at_, EMessage (dm 10 "move strike"));
   ((at_ + 1)%Q, EResume t);
   ((at_ + 2)%Q, EMessage (dm 20 "move feint"));
   ((at_ + 3)%Q, EResume (S t));
   ((at_ + 4)%Q, EResume (S t));
   ((at_ + 5)%Q, EResume (S t))].

(** Two plain rounds bring the opponent to 1 health point; the third round
    is the racing one. *)
Definition last_round_raced : list (Q * event) :=
  opening None ++ plain_round 5 2 ++ plain_round 15 5 ++
  [(25%Q, EMessage (dm 10 "move strike"));
   ((501 # 20)%Q, EMessage (dm 20 "move feint"));
   ((251 # 10)%Q, EResume 8%nat);
   ((503 # 20)%Q, EResume 9%nat);
   ((252 # 10)%Q, EResume 8%nat);
   ((101 # 4)%Q, EResume 9%nat)].

(** The counters of a duel: health points and round wins of both sides. *)
Definition counters (s : DuelState) : Z * Z * Z * Z :=
  (ch_hp s, op_hp s, ch_wins s, op_wins s).

(** Only the challenger moves; the timer task (task 1) ticks every five
    seconds until it finds the 30 seconds elapsed. *)
Definition opponent_silent : list (Q * event) :=
  opening None ++
  [(5%Q, EMessage (dm 10 "move strike")); ((51 # 10)%Q, EResume 2%nat);
   ((73 # 10)%Q, EResume 1%nat); ((74 # 10)%Q, EResume 1%nat);
   ((124 # 10)%Q, EResume 1%nat); ((125 # 10)%Q, EResume 1%nat);
   ((175 # 10)%Q, EResume 1%nat); ((176 # 10)%Q, EResume 1%nat);
   ((226 # 10)%Q, EResume 1%nat); ((227 # 10)%Q, EResume 1%nat);
   ((277 # 10)%Q, EResume 1%nat); ((278 # 10)%Q, EResume 1%nat);
   ((328 # 10)%Q, EResume 1%nat)].

(** *** Ownership of the round timers *)

(** The duel object a suspended coroutine holds. *)
Definition ref_of (k : cont) : option nat :=
  match k with
  | KAcceptReplied _ st | KStartRoundAnnounced _ st | KMoveReceived _ st
  | KNobodyAnnounced _ st | KForfeitAnnounced _ st _ | KRevealAnnounced _ st _
  | KLoopTop _ st | KLoopPosted _ st _ => Some st
  | KDuelOverAnnounced => None
  end.

(** The suspension points of [_round_loop]. *)
Definition is_loop (k : cont) : bool :=
  match k with
  | KLoopTop _ _ | KLoopPosted _ _ _ => true
  | _ => false
  end.

(** What holds of a task [t] suspended at [k]: the object it holds exists,
    and if [t] is a round timer it is that object's [round_task]. *)
Definition task_ok (h : list DuelState) (t : nat) (k : cont) : Prop :=
  forall st, ref_of k = Some st ->
    exists s, h !! st = Some s /\ (is_loop k = true -> round_task s = Some t).

Definition timers_owned (h : list DuelState) (ts : list (tstatus cont)) : Prop :=
  forall t k, ts !! t = Some (TWaiting k) -> task_ok h t k.

(** No round timer of the object [st] is waiting. *)
Definition no_loop (st : nat) (ts : list (tstatus cont)) : Prop :=
  forall t k, ts !! t = Some (TWaiting k) -> is_loop k = true -> ref_of k <> Some st.

(** The invariant of the event loop: every waiting round timer is the
    [round_task] of the duel object it holds. *)
Definition inv (w : World) : Prop := timers_owned (heap w) (tasks w).

(** *** Routing of a move sent by direct message *)

(** [st.active and author in (st.challenger_id, st.opponent_id)] *)
Definition participates (author : Z) (s : DuelState) : bool :=
  active s && ((author =? challenger_id s)%Z || (author =? opponent_id s)%Z).

(** the same test on a registry entry *)
Definition joins (author : Z) (h : list DuelState) (e : Z * nat) : bool :=
  match h !! snd e with
  | Some s => participates author s
  | None => false
  end.

(** The slot [on_message] takes for [author]: the challenger's if the
    author is the challenger, the opponent's otherwise. *)
Definition slot_of (author : Z) (s : DuelState) : option string :=
  if (author =? challenger_id s)%Z then ch_move s else op_move s.

Definition set_slot (author : Z) (v : option string) (s : DuelState) : DuelState :=
  if (author =? challenger_id s)%Z then set_ch_move v s else set_op_move v s.

(** User 10 challenges user 20 in guild 1 and user 30 in guild 2; both
    duels are accepted and their first rounds started; user 10 then sends
    a first move, which the duel of guild 1 takes. *)
Definition two_duels : list (Q * event) :=
  [(0%Q, EDuel challenger_ctx (Some {| member_id := 20; member_bot := false |}) None);
   (1%Q, EAccept opponent_ctx);
   (2%Q, EResume 0%nat);
   ((21 # 10)%Q, EResume 0%nat);
   (3%Q, EDuel {| ctx_guild := Some 2; ctx_author := 10; ctx_channel := 200 |}
           (Some {| member_id := 30; member_bot := false |}) None);
   (4%Q, EAccept {| ctx_guild := Some 2; ctx_author := 30; ctx_channel := 200 |});
   (5%Q, EResume 2%nat);
   ((51 # 10)%Q, EResume 2%nat);
   (6%Q, EMessage (dm 10 "move strike"))].

(** The duel behind a registry entry stored a move for [who]. *)
Definition takes_move (who : Z) (w w' : World) (e : Z * nat) : Prop :=
  exists s s',
    heap w !! snd e = Some s /\ heap w' !! snd e = Some s' /\
    slot_of who s <> slot_of who s'.

(** A step leaves the registry alone, or removes one key from it, or
    assigns one key. *)
Inductive registry_change (d : list (Z * nat)) : list (Z * nat) -> Prop :=
  | registry_same : registry_change d d
  | registry_pop (k : Z) : registry_change d (dict_pop k d)
  | registry_set (k : Z) (v : nat) : registry_change d (dict_set k v d).

End DuelTerms.

Module FoodTerms.

Import Discord Clock Food.

Local Open Scope Z_scope.

(** [n] hint requests in a row *)
Fixpoint hints (n : nat) (ctx : Ctx) (w : World) : World :=
  match n with
  | O => w
  | S n' => hints n' ctx (fst (hint ctx w))
  end.

Definition ctx1 : Ctx := {| ctx_guild := Some 1; ctx_author := 10; ctx_channel := 100 |}.

(** A round is started and four hints are requested. *)
Definition four_hints : list (Q * nat * event) :=
  [(0%Q, 0%nat, EFoodGame ctx1 None);
   (1%Q, 0%nat, EHint ctx1); (2%Q, 0%nat, EHint ctx1);
   (3%Q, 0%nat, EHint ctx1); (4%Q, 0%nat, EHint ctx1)].

(** The points of a correct guess as the specification words them: the
    speed bonus goes to a round solved within 10 seconds of its start. *)
Definition spec_points (now started : Q) (hints : Z) : Z :=
  let speed_bonus := if Qle_bool (now - started) 10 then 1 else 0 in
  let hint_penalty := Z.min hints 2 in
  Z.max 1 (2 + speed_bonus - hint_penalty).

(** A round on sushi started at time 0; it is solved, without hints, ten
    and a half seconds later. *)
Definition late_guess_world : World := fst (foodgame ctx1 None 0%Q 0%nat empty_world).

End FoodTerms.

Module BattleTerms.

Import Discord Clock Asyncio Battle.

Local Open Scope Z_scope.

(** A buzz that was taken as the claim of the current question. *)
Definition accepted (r : reply) : bool :=
  match r with
  | RCorrect | RWrong => true
  | _ => false
  end.

(** [buzz] commands handled one after the other, nothing else in between. *)
Fixpoint buzz_all {U : PyStr.UnicodeData} (bs : list (Ctx * option string)) (w : World) :
    World * list reply :=
  match bs with
  | [] => (w, [])
  | (ctx, ans) :: r =>
      let w1 := fst (buzz ctx ans w) in
      (fst (buzz_all r w1), snd (buzz ctx ans w) :: snd (buzz_all r w1))
  end.

(** the two assignments of an accepted buzz *)
Definition claim (who : Z) (s : BattleState) : BattleState :=
  set_buzz_winner_id (Some who) (set_accepting false s).

Definition ctx_of (author : Z) : Ctx :=
  {| ctx_guild := Some 1; ctx_author := author; ctx_channel := 100 |}.

(** A battle is started in guild 1 and its first question (Tokyo) is
    dealt and announced. *)
Definition opening : list (Q * event) :=
  [(0%Q, EBattle (ctx_of 10) (Some "start"%string) None None CULTURE_Q);
   (1%Q, EResume 0%nat); (2%Q, EResume 0%nat)].

Definition first_question : World := run (U := PyStr.ascii_text) opening empty_world.

(** The [accepting] flag of the battle registered for a guild. *)
Definition accepting_of (gid : Z) (w : World) : bool :=
  match current gid w with
  | Some (_, s) => accepting s
  | None => false
  end.

(** A step that raises no [accepting] flag. *)
Definition no_raise (w w' : World) : Prop :=
  forall gid, accepting_of gid w' = true -> accepting_of gid w = true.

(** The suspension points from which [_ask_next_question] is run. *)
Definition deals (k : cont) : bool :=
  match k with
  | KStartReplied _ | KSlept _ => true
  | _ => false
  end.

(** Task [t] is the timer of no battle, registered or replaced. *)
Definition not_a_timer (t : nat) (w : World) : Prop :=
  forall st s, heap w !! st = Some s -> timer_task s <> Some t.

(** Every timer handle refers to a task of the pool. *)
Definition handles_in_pool (w : World) : Prop :=
  forall st s t, heap w !! st = Some s -> timer_task s = Some t ->
                 (t < length (tasks w))%nat.

(** What the code between two suspension points leaves alone when it
    runs in task [r] (or in a command handler that has no task yet, for
    [None]): the pool only grows, a task that is no battle's timer does
    not become one, and such a task is neither cancelled nor resumed. *)
Definition frame (r : option nat) (w w' : World) : Prop :=
  (length (tasks w) <= length (tasks w'))%nat /\
  (forall t, not_a_timer t w ->
             (t < length (tasks w) \/ length (tasks w') <= t)%nat ->
             not_a_timer t w') /\
  (forall t, not_a_timer t w -> (t < length (tasks w))%nat -> r <> Some t ->
             tasks w' !! t = tasks w !! t).

(** The task an event resumes. *)
Definition resumed (e : event) : option nat :=
  match e with
  | EResume t => Some t
  | _ => None
  end.

(** A stretch of the schedule in which task [t] is not resumed. *)
Definition leaves (t : nat) (sched : list (Q * event)) : Prop :=
  Forall (fun x => resumed (snd x) <> Some t) sched.

(** Question [nq] has been dealt at time [now], [rest] waiting in the
    queue: it is open to the first buzz and its timer is not armed yet. *)
Definition dealt (nq : string * string) (rest : list (string * string)) (now : Q)
    (s : BattleState) : Prop :=
  active s = true /\ current_q s = Some nq /\ questions_left s = rest /\
  asked_at s = now /\ accepting s = true /\ buzz_winner_id s = None /\
  timer_task s = None.

(** The battle is over. *)
Definition finished (s : BattleState) : Prop :=
  active s = false /\ current_q s = None /\ accepting s = false /\
  buzz_winner_id s = None /\ timer_task s = None.

(** The battle after [_ask_next_question] has run on state [s] at [now]. *)
Definition advanced (now : Q) (s s' : BattleState) : Prop :=
  match questions_left s with
  | nq :: rest => dealt nq rest now s'
  | [] => finished s'
  end.

End BattleTerms.

Module RegistryTerms.

Import PyDict Discord Asyncio.

Local Open Scope Z_scope.

Definition guild1 : Ctx := {| ctx_guild := Some 1; ctx_author := 10; ctx_channel := 100 |}.

(** A food round is running in guild 1 (task 0 is the [foodgame] handler,
    task 1 the round's timer). *)
Definition food_running : Food.World :=
  Food.run [(0%Q, 0%nat, Food.EFoodGame guild1 None); (1%Q, 0%nat, Food.EResume 0%nat)]
    Food.empty_world.

(** A battle is running in guild 1, its first question dealt. *)
Definition battle_running : Battle.World := BattleTerms.first_question.

End RegistryTerms.

Module RankTerms.

Import Ranks.

(** The position of a title in a rank table (its length if absent). *)
Fixpoint tier_in (ranks : list (Z * string)) (title : string) : nat :=
  match ranks with
  | [] => 0
  | (_, name) :: rest => if String.eqb title name then 0 else S (tier_in rest title)
  end.

(** The tier of a title: its position in [RANKS]. *)
Definition tier (title : string) : nat := tier_in RANKS title.

End RankTerms.

Module LeaderboardTerms.

(** Highest score first. *)
Definition score_ge (a b : Z * Z) : Prop := (snd b <= snd a)%Z.

(** The entries that carry a given score, in order. *)
Definition with_score (k : Z) (l : list (Z * Z)) : list (Z * Z) :=
  List.filter (fun e => (snd e =? k)%Z) l.

End LeaderboardTerms.

Module StringTerms.

(** Every character of a string passes the test. *)
Fixpoint str_forall (p : ascii -> bool) (s : string) : bool :=
  match s with
  | EmptyString => true
  | String c r => p c && str_forall p r
  end.

(** A lowercase letter or a digit. *)
Definition lower_or_digit (c : ascii) : bool := PyStr.is_lower c || PyStr.is_digit c.

End StringTerms.

Module LifecycleTerms.

Import PyDict Discord Clock Asyncio Duel.

Local Open Scope Z_scope.
Local Open Scope string_scope.

(** The assignments of a successful [duelaccept]. *)
Definition accept_reset (s : DuelState) : DuelState :=
  clear_moves
    (set_op_wins 0 (set_ch_wins 0
      (set_op_hp 3 (set_ch_hp 3 (set_active true (set_accepted true s)))))).

(** [h'] holds the objects of [h], each one changed in a way [R] allows. *)
Definition alters (R : DuelState -> DuelState -> Prop) (h h' : list DuelState) : Prop :=
  length h' = length h /\
  forall st s, h !! st = Some s -> exists s', h' !! st = Some s' /\ R s s'.

(** The fields of a duel that say who duels whom, where, how and since
    when. *)
Definition same_identity (s s' : DuelState) : Prop :=
  challenger_id s' = challenger_id s /\ opponent_id s' = opponent_id s /\
  created_at s' = created_at s /\ channel_id s' = channel_id s /\
  mode s' = mode s /\ target_wins s' = target_wins s.

(** A slot is empty or holds one of the three moves. *)
Definition slot_valid (o : option string) : Prop :=
  forall m, o = Some m -> is_move m = true.

(** What holds of every duel object the cog ever builds. *)
Definition well_formed (s : DuelState) : Prop :=
  challenger_id s <> opponent_id s /\
  (mode s = "hp" \/ mode s = "bo3") /\
  target_wins s = 2 /\
  slot_valid (ch_move s) /\ slot_valid (op_move s) /\
  ch_hp s <= 3 /\ op_hp s <= 3 /\ 0 <= ch_wins s /\ 0 <= op_wins s.

(** What a step of the event loop does to the duel objects: it changes
    them in place, or the [duel] command builds a new one, or a
    [duelaccept] by the opponent, in time, resets one. *)
Inductive heap_step (R : DuelState -> DuelState -> Prop) (now : Q) (e : event)
    (w w' : World) : Prop :=
  | heap_altered : alters R (heap w) (heap w') -> heap_step R now e w w'
  | heap_challenged (ctx : Ctx) (opp : Member) (md : option string) (gid : Z)
      (duel_mode : string) :
      e = EDuel ctx (Some opp) md ->
      ctx_guild ctx = Some gid ->
      member_id opp <> ctx_author ctx ->
      duel_in_the_way gid now w = false ->
      duel_mode = "hp" \/ duel_mode = "bo3" ->
      heap w' = (heap w ++ [new_duel (ctx_author ctx) (member_id opp) (ctx_channel ctx)
                              duel_mode now])%list ->
      heap_step R now e w w'
  | heap_accepted (ctx : Ctx) (gid : Z) (st : nat) (s : DuelState) :
      e = EAccept ctx ->
      ctx_guild ctx = Some gid ->
      dict_get gid (duels w) = Some st ->
      heap w !! st = Some s ->
      active s = false ->
      duel_expired now s = false ->
      ctx_author ctx = opponent_id s ->
      heap w' = alter accept_reset st (heap w) ->
      heap_step R now e w w'.

End LifecycleTerms.

Module CommandTerms.

Import Duel.

Local Open Scope Z_scope.

(** A challenge as the [duel] command leaves it: neither accepted nor
    active, full health and no round wins on both sides, empty slots, no
    round timer. *)
Definition pending_challenge (challenger opponent channel : Z) (duel_mode : string)
    (now : Q) (s : DuelState) : Prop :=
  challenger_id s = challenger /\ opponent_id s = opponent /\
  created_at s = now /\ channel_id s = channel /\
  accepted s = false /\ active s = false /\ ch_hp s = 3 /\ op_hp s = 3 /\
  mode s = duel_mode /\ ch_wins s = 0 /\ op_wins s = 0 /\ target_wins s = 2 /\
  ch_move s = None /\ op_move s = None /\ round_task s = None.

End CommandTerms.

(** * Properties *)

(** ** Move resolution *)

Module DuelRules.

Import Duel DuelTerms.

Local Open Scope Z_scope.
Local Open Scope string_scope.

Lemma is_move_In (m : string) : is_move m = true <-> In m DUEL_MOVES.
Proof.
  unfold is_move. rewrite existsb_exists. split.
  - intros (x & Hx & Heq). apply String.eqb_eq in Heq. now subst.
  - intros H. exists m. split; [assumption | apply String.eqb_refl].
Qed.

(** C9. On valid moves [duel_resolve] always returns; it returns the tie
    code 0 exactly when the two moves are equal, the code 1 (challenger's
    move wins) exactly on strike/feint, feint/guard and guard/strike, and
    the code 2 (opponent's move wins) on every other unequal pair. *)
Theorem duel_resolve_cycle (a b : string) :
  In a DUEL_MOVES -> In b DUEL_MOVES ->
  exists r, duel_resolve a b = Some r /\
    (r = 0 <-> a = b) /\
    (r = 1 <-> challenger_wins a b) /\
    (r = 2 <-> a <> b /\ ~ challenger_wins a b).
Proof.
  unfold DUEL_MOVES, challenger_wins. simpl.
  intros [<- | [<- | [<- | []]]] [<- | [<- | [<- | []]]];
    eexists; (split; [vm_compute; reflexivity |]);
    repeat split; intros; try discriminate; try congruence; intuition congruence.
Qed.

Lemma duel_resolve_cycle_witness :
  In "strike" DUEL_MOVES /\ In "feint" DUEL_MOVES /\
  exists r, duel_resolve "strike" "feint" = Some r /\
    (r = 0 <-> "strike" = "feint") /\
    (r = 1 <-> challenger_wins "strike" "feint") /\
    (r = 2 <-> "strike" <> "feint" /\ ~ challenger_wins "strike" "feint").
Proof.
  split; [simpl; auto |]. split; [simpl; auto |].
  apply (duel_resolve_cycle "strike" "feint"); simpl; auto.
Defined.

End DuelRules.

(** ** The ledger *)

Module ScoresFacts.

Local Open Scope Z_scope.

Lemma get_points_add (g u p : Z) (lb : gmap (Z * Z) Z) :
  Scores.get_points g u (Scores.add_points g u p lb) = Scores.get_points g u lb + p.
Proof. unfold Scores.get_points, Scores.add_points. now rewrite lookup_insert_eq. Qed.

Lemma get_points_set (g u p : Z) (lb : gmap (Z * Z) Z) :
  Scores.get_points g u (Scores.set_points g u p lb) = p.
Proof. unfold Scores.get_points, Scores.set_points. now rewrite lookup_insert_eq. Qed.

End ScoresFacts.

(** ** Food guessing: hints and points *)

Module FoodFacts.

Import Discord Clock Food FoodTerms ScoresFacts.

Local Open Scope Z_scope.

Lemma set_hints_used_same (s : FoodState) : set_hints_used (hints_used s) s = s.
Proof. now destruct s. Qed.

Lemma food_current_upd (gid : Z) (st : nat) (s : FoodState) (f : FoodState -> FoodState)
    (w : World) :
  current gid w = Some (st, s) -> current gid (upd st f w) = Some (st, f s).
Proof.
  unfold current, upd. simpl.
  destruct (food w !! gid) as [st'|] eqn:Hf; [| discriminate].
  destruct (heap w !! st') as [s'|] eqn:Hh; [| discriminate].
  intros [= -> ->]. now rewrite list_lookup_alter_eq, Hh.
Qed.

Lemma hint_active (ctx : Ctx) (gid : Z) (st : nat) (s : FoodState) (w : World) :
  ctx_guild ctx = Some gid -> current gid w = Some (st, s) -> active s = true ->
  hint ctx w = (upd st (set_hints_used (hints_used s + 1)) w,
                RHint (food_hint (answer s) (hints_used s))).
Proof.
  intros Hg Hc Ha. unfold hint. rewrite Hg, Hc, Ha. simpl.
  do 3 f_equal. lia.
Qed.

Lemma food_hint_exhausted (ans : string) (used : Z) :
  3 <= used -> food_hint ans used = NoMoreHints.
Proof.
  intros H. unfold food_hint.
  destruct (Z.eqb_spec used 0); [lia |].
  destruct (Z.eqb_spec used 1); [lia |].
  destruct (Z.eqb_spec used 2); [lia | reflexivity].
Qed.

Lemma py_int_le_10 (x : Q) : (Z.max 1 (py_int x) <=? 10) = Qltb x 11.
Proof.
  unfold Qltb, Qle_bool, py_int. destruct x as [n d]. simpl.
  assert (Hd : 0 < Z.pos d) by lia.
  destruct (Z.leb_spec (11 * Z.pos d) (n * 1)) as [H | H]; simpl.
  - apply Z.leb_gt.
    assert (11 <= n ÷ Z.pos d) by (apply Z.quot_le_lower_bound; lia). lia.
  - apply Z.leb_le.
    destruct (Z.le_gt_cases 0 n) as [Hn | Hn].
    + rewrite Z.quot_div_nonneg by lia.
      assert (n / Z.pos d < 11) by (apply Z.div_lt_upper_bound; lia). lia.
    + assert (0 <= (- n) ÷ Z.pos d) by (apply Z.quot_pos; lia).
      rewrite Z.quot_opp_l in * by lia. lia.
Qed.

Lemma guess_points_eq (now started : Q) (hints : Z) :
  guess_points now started hints
  = Z.max 1 (2 + (if Qltb (now - started) 11 then 1 else 0) - Z.min hints 2).
Proof. unfold guess_points. cbv zeta. now rewrite py_int_le_10. Qed.

Lemma ledger_cancel_food_timer (st : nat) (w : World) :
  ledger (cancel_food_timer st w) = ledger w.
Proof. unfold cancel_food_timer. now destruct (heap w !! st). Qed.

(** A guess that passes the guards of [guess] and matches the answer:
    the reply and the score it adds. *)
Lemma guess_correct_pays (ctx : Ctx) (ans : option string) (now : Q) (gid : Z)
    (st : nat) (s : FoodState) (w : World) :
  ctx_guild ctx = Some gid -> current gid w = Some (st, s) -> active s = true ->
  PyStr.truthy ans = true ->
  Qltb (now - default 0%Q (last_guess_at s !! ctx_author ctx)) FOOD_GUESS_COOLDOWN = false ->
  PyStr.lower (PyStr.strip (default EmptyString ans)) = answer s ->
  let pts := Z.max 1 (2 + (if Qltb (now - started_at s) 11 then 1 else 0)
                        - Z.min (hints_used s) 2) in
  snd (guess ctx ans now w) = RCorrect pts /\
  ledger (fst (guess ctx ans now w))
  = Scores.add_points gid (ctx_author ctx) pts (ledger w).
Proof.
  intros Hg Hc Ha Ht Hcool Hans. cbv zeta.
  unfold guess. rewrite Hg, Hc, Ha, Ht, Hcool, Hans, String.eqb_refl.
  cbn [negb fst snd]. rewrite guess_points_eq. split; [reflexivity |].
  unfold suspend_at. cbn [ledger set_tasks set_ledger].
  now rewrite ledger_cancel_food_timer.
Qed.

(** Hint requests on an active round touch the counter of that round
    and nothing else. *)
Lemma hints_active (ctx : Ctx) (gid : Z) (st : nat) (n : nat) (s : FoodState) (w : World) :
  ctx_guild ctx = Some gid -> current gid w = Some (st, s) -> active s = true ->
  current gid (hints n ctx w)
    = Some (st, set_hints_used (hints_used s + Z.of_nat n) s)
  /\ ledger (hints n ctx w) = ledger w.
Proof.
  intros Hg. revert w s. induction n as [| n IH]; intros w s Hc Ha.
  - simpl. now rewrite Z.add_0_r, set_hints_used_same.
  - cbn [hints]. rewrite (hint_active ctx gid st s w Hg Hc Ha). cbn [fst].
    destruct (IH (upd st (set_hints_used (hints_used s + 1)) w)
                 (set_hints_used (hints_used s + 1) s)) as [IHc IHl].
    + now apply food_current_upd.
    + now destruct s.
    + rewrite IHc, IHl. split; [| reflexivity].
      do 2 f_equal. destruct s; unfold set_hints_used; simpl. f_equal. lia.
Qed.

(** C5 as stated fails: after four hint requests on the active round the
    counter is 4. *)
Lemma hints_used_exceeds_three :
  ~ (forall sched gid st s,
       current gid (run sched empty_world) = Some (st, s) -> hints_used s <= 3).
Proof.
  intros H.
  specialize (H four_hints 1 0%nat).
  assert (Hc : exists s, current 1 (run four_hints empty_world) = Some (0%nat, s)
                         /\ hints_used s = 4).
  { eexists. split; vm_compute; reflexivity. }
  destruct Hc as (s & Hc & Hu). specialize (H s Hc). lia.
Qed.

(** C5, amended.  Every hint request on an active round adds one to
    [hints_used], without any cap: after [n] requests the counter is [n]
    higher and the round is otherwise unchanged.  What saturates is the
    hint itself: a request made when three or more hints were already
    used gets the no-more-hints answer.  The scoring penalty saturates
    too: a correct guess made after the [n] requests is paid
    max(1, 2 + speed_bonus - min(hints_used, 2)) points, [hints_used]
    being the counter after the requests, in the reply as in the ledger. *)
Theorem hint_counts_every_request (ctx : Ctx) (gid : Z) (st : nat) (s : FoodState)
    (w : World) (n : nat) :
  ctx_guild ctx = Some gid -> current gid w = Some (st, s) -> active s = true ->
  current gid (hints n ctx w)
    = Some (st, set_hints_used (hints_used s + Z.of_nat n) s)
  /\ (3 <= hints_used s -> snd (hint ctx w) = RHint NoMoreHints)
  /\ (forall (guesser : Ctx) (ans : option string) (now : Q),
        ctx_guild guesser = Some gid -> PyStr.truthy ans = true ->
        Qltb (now - default 0%Q (last_guess_at s !! ctx_author guesser))
          FOOD_GUESS_COOLDOWN = false ->
        PyStr.lower (PyStr.strip (default EmptyString ans)) = answer s ->
        let speed_bonus := if Qltb (now - started_at s) 11 then 1 else 0 in
        let hint_penalty := Z.min (hints_used s + Z.of_nat n) 2 in
        let pts := Z.max 1 (2 + speed_bonus - hint_penalty) in
        let g := guess guesser ans now (hints n ctx w) in
        snd g = RCorrect pts /\
        Scores.get_points gid (ctx_author guesser) (ledger (fst g))
        = Scores.get_points gid (ctx_author guesser) (ledger w) + pts).
Proof.
  intros Hg Hc Ha. destruct (hints_active ctx gid st n s w Hg Hc Ha) as [Hcn Hln].
  split; [exact Hcn |]. split.
  - intros H3. rewrite (hint_active ctx gid st s w Hg Hc Ha). simpl.
    now rewrite food_hint_exhausted.
  - intros guesser ans now Hgg Ht Hcool Hans speed_bonus hint_penalty pts g.
    destruct (guess_correct_pays guesser ans now gid st
                (set_hints_used (hints_used s + Z.of_nat n) s) (hints n ctx w))
      as [Hr Hl]; try assumption; try (now destruct s).
    subst g. split.
    + rewrite Hr. now destruct s.
    + rewrite Hl, Hln, get_points_add. now destruct s.
Qed.

Lemma hint_counts_every_request_witness :
  let w := fst (foodgame ctx1 None 0%Q 0%nat empty_world) in
  let s := {| answer := "sushi"; emoji := "🍣"; started_at := 0%Q; active := true;
              rounds_total := 1; round_index := 1; seconds := 30; hints_used := 0;
              timer_task := None; channel_id := 100; last_guess_at := ∅ |} in
  ctx_guild ctx1 = Some 1 /\ current 1 w = Some (0%nat, s) /\ active s = true /\
  current 1 (hints 5 ctx1 w) = Some (0%nat, set_hints_used (hints_used s + 5) s) /\
  snd (guess ctx1 (Some "sushi"%string) 3%Q (hints 5 ctx1 w)) = RCorrect 1.
Proof.
  intros w s.
  assert (Hc : current 1 w = Some (0%nat, s)) by (vm_compute; reflexivity).
  destruct (hint_counts_every_request ctx1 1 0%nat s w 5 eq_refl Hc eq_refl)
    as (Hn & _ & Hpay).
  destruct (Hpay ctx1 (Some "sushi"%string) 3%Q eq_refl eq_refl) as [Hr _];
    [vm_compute; reflexivity | vm_compute; reflexivity |].
  split; [reflexivity |]. split; [exact Hc |]. split; [reflexivity |].
  split; [exact Hn | exact Hr].
Defined.

(** C7 as stated fails: a round solved after 10.5 seconds is not solved
    within 10 seconds, yet the guess earns the speed bonus (3 points where
    the stated rule gives 2). *)
Lemma speed_bonus_past_ten_seconds :
  ~ (forall ctx ans now w gid st s pts,
       ctx_guild ctx = Some gid -> current gid w = Some (st, s) ->
       snd (guess ctx ans now w) = RCorrect pts ->
       pts = spec_points now (started_at s) (hints_used s)).
Proof.
  intros H.
  assert (Hc : exists s, current 1 late_guess_world = Some (0%nat, s)
                         /\ spec_points (21 # 2) (started_at s) (hints_used s) = 2).
  { eexists. split; vm_compute; reflexivity. }
  destruct Hc as (s & Hc & Hs).
  specialize (H ctx1 (Some "Sushi "%string) (21 # 2)%Q late_guess_world 1 0%nat s 3
                eq_refl Hc).
  rewrite Hs in H. discriminate H. vm_compute. reflexivity.
Qed.

(** C7, amended.  A guess that passes the guards of [guess] (active round,
    non-empty answer, cooldown over) and matches the answer is answered
    with, and adds to the guesser's score, max(1, 2 + speed_bonus -
    hint_penalty) points, where hint_penalty is min(hints_used, 2) and
    speed_bonus is 1 when the elapsed time, truncated to whole seconds, is
    at most 10, that is when fewer than 11 seconds have passed since the
    round started, and 0 otherwise. *)
Theorem correct_guess_points (ctx : Ctx) (ans : option string) (now : Q) (gid : Z)
    (st : nat) (s : FoodState) (w : World) :
  ctx_guild ctx = Some gid -> current gid w = Some (st, s) -> active s = true ->
  PyStr.truthy ans = true ->
  Qltb (now - default 0%Q (last_guess_at s !! ctx_author ctx)) FOOD_GUESS_COOLDOWN = false ->
  PyStr.lower (PyStr.strip (default EmptyString ans)) = answer s ->
  let speed_bonus := if Qltb (now - started_at s) 11 then 1 else 0 in
  let hint_penalty := Z.min (hints_used s) 2 in
  let pts := Z.max 1 (2 + speed_bonus - hint_penalty) in
  snd (guess ctx ans now w) = RCorrect pts /\
  Scores.get_points gid (ctx_author ctx) (ledger (fst (guess ctx ans now w)))
  = Scores.get_points gid (ctx_author ctx) (ledger w) + pts.
Proof.
  intros Hg Hc Ha Ht Hcool Hans. cbv zeta.
  unfold guess. rewrite Hg, Hc, Ha, Ht, Hcool, Hans, String.eqb_refl.
  cbn [negb fst snd]. rewrite guess_points_eq. split; [reflexivity |].
  unfold suspend_at. cbn [ledger set_tasks set_ledger].
  now rewrite get_points_add, ledger_cancel_food_timer.
Qed.

Lemma correct_guess_points_witness :
  let s := {| answer := "sushi"; emoji := "🍣"; started_at := 0%Q; active := true;
              rounds_total := 1; round_index := 1; seconds := 30; hints_used := 0;
              timer_task := None; channel_id := 100; last_guess_at := ∅ |} in
  let g := guess ctx1 (Some "Sushi "%string) (21 # 2) late_guess_world in
  ctx_guild ctx1 = Some 1 /\ current 1 late_guess_world = Some (0%nat, s) /\
  snd g = RCorrect 3 /\
  Scores.get_points 1 10 (ledger (fst g))
  = Scores.get_points 1 10 (ledger late_guess_world) + 3.
Proof.
  intros s g. split; [reflexivity |]. split; [vm_compute; reflexivity |].
  apply (correct_guess_points ctx1 (Some "Sushi "%string) (21 # 2) 1 0%nat s
           late_guess_world);
    vm_compute; reflexivity.
Defined.

End FoodFacts.

(** ** Culture battle: claims and scoring *)

Module BattleFacts.

Import Discord Clock Asyncio Battle BattleTerms ScoresFacts.

Local Open Scope Z_scope.

Lemma current_set_tasks (gid : Z) (ts : list (tstatus cont)) (w : World) :
  current gid (set_tasks ts w) = current gid w.
Proof. reflexivity. Qed.

Lemma current_set_ledger (gid : Z) (lb : gmap (Z * Z) Z) (w : World) :
  current gid (set_ledger lb w) = current gid w.
Proof. reflexivity. Qed.

Lemma battle_current_upd (gid : Z) (st : nat) (s : BattleState)
    (f : BattleState -> BattleState) (w : World) :
  current gid w = Some (st, s) -> current gid (upd st f w) = Some (st, f s).
Proof.
  unfold current, upd. simpl.
  destruct (battle w !! gid) as [st'|] eqn:Hf; [| discriminate].
  destruct (heap w !! st') as [s'|] eqn:Hh; [| discriminate].
  intros [= -> ->]. now rewrite list_lookup_alter_eq, Hh.
Qed.

Lemma current_cancel_battle_timer (gid : Z) (st : nat) (s : BattleState) (w : World) :
  current gid w = Some (st, s) ->
  current gid (cancel_battle_timer st w) = Some (st, set_timer_task None s).
Proof.
  intros Hc. unfold cancel_battle_timer.
  assert (Hh : heap w !! st = Some s).
  { unfold current in Hc. destruct (battle w !! gid); [| discriminate].
    destruct (heap w !! n) eqn:E; [| discriminate]. now injection Hc as -> ->. }
  rewrite Hh, current_set_tasks. now apply battle_current_upd.
Qed.

Section Claims.

Context {U : PyStr.UnicodeData}.

(** What an accepted buzz found and what it left. *)
Lemma buzz_accepted (ctx : Ctx) (ans : option string) (w : World) :
  accepted (snd (buzz ctx ans w)) = true ->
  exists gid st s,
    ctx_guild ctx = Some gid /\ current gid w = Some (st, s) /\
    accepting s = true /\
    current gid (fst (buzz ctx ans w)) = Some (st, claim (ctx_author ctx) s).
Proof.
  unfold buzz.
  destruct (ctx_guild ctx) as [gid|]; [| discriminate].
  destruct (current gid w) as [[st s]|] eqn:Hc; [| discriminate].
  destruct (current_q s) as [[q c]|]; [| discriminate].
  destruct (active s); [| discriminate]. cbn [negb].
  destruct (negb (ctx_channel ctx =? channel_id s)); [discriminate |].
  destruct (negb (PyStr.truthy ans)); [discriminate |].
  destruct (accepting s) eqn:Hacc; [| discriminate]. cbn [negb].
  intros _. exists gid, st, s.
  split; [reflexivity |]. split; [exact Hc |]. split; [exact Hacc |].
  destruct (String.eqb (norm (default EmptyString ans)) (norm c)); cbn [fst];
    unfold suspend_at; rewrite current_set_tasks, current_set_ledger;
    now apply battle_current_upd.
Qed.

(** A buzz that is not accepted changes nothing. *)
Lemma buzz_rejected (ctx : Ctx) (ans : option string) (w : World) :
  accepted (snd (buzz ctx ans w)) = false -> fst (buzz ctx ans w) = w.
Proof.
  unfold buzz.
  destruct (ctx_guild ctx) as [gid|]; [| reflexivity].
  destruct (current gid w) as [[st s]|]; [| reflexivity].
  destruct (current_q s) as [[q c]|]; [| reflexivity].
  destruct (negb (active s)); [reflexivity |].
  destruct (negb (ctx_channel ctx =? channel_id s)); [reflexivity |].
  destruct (negb (PyStr.truthy ans)); [reflexivity |].
  destruct (negb (accepting s)); [reflexivity |].
  destruct (String.eqb (norm (default EmptyString ans)) (norm c)); discriminate.
Qed.

(** While the flag is down, no buzz in that guild is accepted. *)
Lemma buzz_not_accepting (ctx : Ctx) (ans : option string) (gid : Z) (st : nat)
    (s : BattleState) (w : World) :
  ctx_guild ctx = Some gid -> current gid w = Some (st, s) -> accepting s = false ->
  accepted (snd (buzz ctx ans w)) = false.
Proof.
  intros Hg Hc Hacc.
  destruct (accepted (snd (buzz ctx ans w))) eqn:E; [| reflexivity].
  destruct (buzz_accepted ctx ans w E) as (g & st' & s' & Hg' & Hc' & Hacc' & _).
  congruence.
Qed.

Lemma buzz_all_not_accepting (bs : list (Ctx * option string)) (gid : Z) (st : nat)
    (s : BattleState) (w : World) :
  Forall (fun b => ctx_guild (fst b) = Some gid) bs ->
  current gid w = Some (st, s) -> accepting s = false ->
  fst (buzz_all bs w) = w /\
  Forall (fun r => accepted r = false) (snd (buzz_all bs w)).
Proof.
  intros Hbs Hc Hacc. induction Hbs as [| [ctx ans] bs Hg _ IH].
  - split; [reflexivity | constructor].
  - cbn [buzz_all fst snd] in *.
    pose proof (buzz_not_accepting ctx ans gid st s w Hg Hc Hacc) as Hr.
    rewrite (buzz_rejected ctx ans w Hr).
    destruct IH as [IH1 IH2]. split; [assumption | now constructor].
Qed.

Lemma filter_all_rejected (rs : list reply) :
  Forall (fun r => accepted r = false) rs -> List.filter accepted rs = [].
Proof.
  induction 1 as [| r rs Hr _ IH]; [reflexivity |].
  simpl. now rewrite Hr.
Qed.

Lemma buzz_all_one_claim (gid : Z) (bs : list (Ctx * option string)) (w : World) :
  Forall (fun b => ctx_guild (fst b) = Some gid) bs ->
  (length (List.filter accepted (snd (buzz_all bs w))) <= 1)%nat.
Proof.
  intros Hbs. revert w. induction Hbs as [| [ctx ans] bs Hg Hbs IH]; intros w.
  - simpl. lia.
  - cbn [buzz_all fst snd List.filter] in *.
    destruct (accepted (snd (buzz ctx ans w))) eqn:E.
    + destruct (buzz_accepted ctx ans w E) as (g & st & s & Hg' & _ & _ & Hc1).
      assert (g = gid) by congruence. subst g.
      destruct (buzz_all_not_accepting bs gid st _ _ Hbs Hc1) as [_ Hrej];
        [reflexivity |].
      rewrite (filter_all_rejected _ Hrej). simpl. lia.
    + rewrite (buzz_rejected ctx ans w E). apply IH.
Qed.

(** C3.  A buzz is accepted only if the battle of its guild has
    [accepting] raised; the accepted buzz lowers the flag and records its
    author as [buzz_winner_id]; whatever buzzes follow in that guild before
    another question is dealt are all rejected and leave the whole state as
    the accepted buzz left it; a rejected buzz changes nothing.  Hence of
    any run of buzzes on one question at most one is accepted. *)
Theorem first_buzz_claims_question (gid : Z) (ctx : Ctx) (ans : option string)
    (bs : list (Ctx * option string)) (w : World) :
  ctx_guild ctx = Some gid ->
  Forall (fun b => ctx_guild (fst b) = Some gid) bs ->
  let w1 := fst (buzz ctx ans w) in
  let r := snd (buzz ctx ans w) in
  (accepted r = true ->
     exists st s,
       current gid w = Some (st, s) /\ accepting s = true /\
       current gid w1 = Some (st, claim (ctx_author ctx) s) /\
       fst (buzz_all bs w1) = w1 /\
       Forall (fun x => accepted x = false) (snd (buzz_all bs w1)))
  /\ (accepted r = false -> w1 = w)
  /\ (length (List.filter accepted (snd (buzz_all ((ctx, ans) :: bs) w))) <= 1)%nat.
Proof.
  intros Hg Hbs w1 r. split; [| split].
  - intros E. destruct (buzz_accepted ctx ans w E) as (g & st & s & Hg' & Hc & Hacc & Hc1).
    assert (g = gid) by congruence. subst g.
    exists st, s. split; [assumption |]. split; [assumption |]. split; [assumption |].
    apply (buzz_all_not_accepting bs gid st _ _ Hbs Hc1). reflexivity.
  - apply buzz_rejected.
  - apply (buzz_all_one_claim gid). now constructor.
Qed.

End Claims.

Lemma first_buzz_claims_question_witness :
  let U := PyStr.ascii_text in
  let bs := [(ctx_of 20, Some "tokyo"%string); (ctx_of 30, Some "kyoto"%string)] in
  let w1 := fst (buzz (ctx_of 10) (Some "Tokyo!"%string) first_question) in
  accepted (snd (buzz (ctx_of 10) (Some "Tokyo!"%string) first_question)) = true /\
  fst (buzz_all bs w1) = w1 /\
  (length (List.filter accepted
     (snd (buzz_all ((ctx_of 10, Some "Tokyo!"%string) :: bs) first_question))) <= 1)%nat.
Proof.
  intros U bs w1.
  assert (Hbs : Forall (fun b => ctx_guild (fst b) = Some 1) bs)
    by (repeat constructor).
  pose proof (first_buzz_claims_question 1 (ctx_of 10) (Some "Tokyo!"%string) bs
                first_question eq_refl Hbs) as (Hacc & _ & Hone).
  assert (E : accepted (snd (buzz (ctx_of 10) (Some "Tokyo!"%string) first_question)) = true)
    by (vm_compute; reflexivity).
  split; [exact E |]. split; [| exact Hone].
  destruct (Hacc E) as (st & s & _ & _ & _ & Hsame & _). exact Hsame.
Defined.

Lemma ledger_cancel_battle_timer (st : nat) (w : World) :
  ledger (cancel_battle_timer st w) = ledger w.
Proof. unfold cancel_battle_timer. now destruct (heap w !! st). Qed.

Lemma current_ext (gid : Z) (w w' : World) :
  battle w = battle w' -> heap w = heap w' -> current gid w = current gid w'.
Proof. unfold current. now intros -> ->. Qed.

(** *** What a step leaves alone *)

Lemma frame_refl (r : option nat) (w : World) : frame r w w.
Proof. repeat split; auto. Qed.

Lemma frame_trans (r : option nat) (w1 w2 w3 : World) :
  frame r w1 w2 -> frame r w2 w3 -> frame r w1 w3.
Proof.
  intros (L1 & N1 & T1) (L2 & N2 & T2). split; [lia |]. split.
  - intros t Hn [Hlt | Hge].
    + apply N2; [apply N1; auto | lia].
    + apply N2; [apply N1; [exact Hn | lia] | lia].
  - intros t Hn Hlt Hr. rewrite T2; [now apply T1 | apply N1; auto | lia | exact Hr].
Qed.

(** A change of the cog, the ledger or the fields of a state other than
    its handle. *)
Lemma frame_same_tasks (r : option nat) (w w' : World) :
  tasks w' = tasks w ->
  (forall t, not_a_timer t w -> not_a_timer t w') ->
  frame r w w'.
Proof.
  intros Ht Hn. unfold frame. rewrite Ht. repeat split; auto.
Qed.

Lemma frame_upd (r : option nat) (st : nat) (f : BattleState -> BattleState) (w : World) :
  (forall s, timer_task (f s) = timer_task s \/ timer_task (f s) = None) ->
  frame r w (upd st f w).
Proof.
  intros Hf. apply frame_same_tasks; [reflexivity |].
  intros t Hn st' s'. unfold upd. cbn [heap set_heap].
  destruct (decide (st = st')) as [<- | Hne].
  - rewrite list_lookup_alter_eq. destruct (heap w !! st) as [s|] eqn:E; [| discriminate].
    intros [= <-]. destruct (Hf s) as [-> | ->]; [now apply (Hn st) | discriminate].
  - rewrite list_lookup_alter_ne by exact Hne. apply Hn.
Qed.

Lemma frame_set_ledger (r : option nat) (lb : gmap (Z * Z) Z) (w : World) :
  frame r w (set_ledger lb w).
Proof. now apply frame_same_tasks. Qed.

Lemma frame_suspend_at (r : option nat) (k : cont) (w : World) :
  frame r w (suspend_at k w).
Proof.
  unfold frame, suspend_at, create_task. cbn [fst tasks set_tasks].
  rewrite length_app. cbn [length]. split; [lia |]. split.
  - intros t Hn _. exact Hn.
  - intros t _ Hlt _. now apply lookup_app_l.
Qed.

Lemma frame_register (r : option nat) (gid : Z) (s : BattleState) (w : World) :
  timer_task s = None ->
  frame r w (set_battle (<[gid := length (heap w)]> (battle w)) (set_heap (heap w ++ [s]) w)).
Proof.
  intros Hs. apply frame_same_tasks; [reflexivity |].
  intros t Hn st' s'. cbn [heap set_heap set_battle].
  intros Hl. apply lookup_app_Some in Hl as [Hl | [_ Hl]].
  - now apply (Hn st').
  - apply list_lookup_singleton_Some in Hl as [_ <-]. congruence.
Qed.

Lemma cancel_length (h : option nat) (ts : list (tstatus cont)) :
  length (cancel h ts) = length ts.
Proof.
  unfold cancel. destruct h as [x|]; [| reflexivity].
  destruct (done ts x); [reflexivity | apply length_insert].
Qed.

Lemma cancel_lookup_ne (h : option nat) (t : nat) (ts : list (tstatus cont)) :
  h <> Some t -> cancel h ts !! t = ts !! t.
Proof.
  intros Hne. unfold cancel. destruct h as [x|]; [| reflexivity].
  destruct (done ts x); [reflexivity |].
  apply list_lookup_insert_ne. congruence.
Qed.

Lemma cancelled_not_alive (x : nat) (ts : list (tstatus cont)) :
  alive (cancel (Some x) ts) x = false.
Proof.
  unfold cancel, alive, done.
  destruct (ts !! x) as [[]|] eqn:E; rewrite ?E; try reflexivity.
  - rewrite list_lookup_insert_eq by (now apply lookup_lt_Some in E). reflexivity.
  - rewrite list_lookup_insert_eq by (now apply lookup_lt_Some in E). reflexivity.
  - rewrite list_lookup_insert_eq by (now apply lookup_lt_Some in E). reflexivity.
Qed.

Lemma frame_cancel_battle_timer (r : option nat) (st : nat) (w : World) :
  frame r w (cancel_battle_timer st w).
Proof.
  unfold cancel_battle_timer. destruct (heap w !! st) as [s|] eqn:E; [| apply frame_refl].
  unfold frame. cbn [tasks set_tasks upd set_heap heap]. rewrite cancel_length.
  split; [reflexivity |]. split.
  - intros t Hn _.
    destruct (frame_upd r st (set_timer_task None) w) as (_ & N & _); [now right |].
    intros st' s'. apply (N t Hn). unfold upd. cbn. lia.
  - intros t Hn _ _. apply cancel_lookup_ne. now apply (Hn st).
Qed.

Lemma frame_arm_battle_timer (r : option nat) (gid : Z) (st : nat) (w : World) :
  frame r w (arm_battle_timer gid st w).
Proof.
  unfold frame, arm_battle_timer, create_task, upd.
  cbn [tasks set_tasks set_heap heap]. rewrite length_app. cbn [length].
  split; [lia |]. split.
  - intros t Hn Hor st' s'. cbn [heap set_heap set_tasks].
    destruct (decide (st = st')) as [<- | Hne].
    + rewrite list_lookup_alter_eq. destruct (heap w !! st); [| discriminate].
      intros [= <-]. cbn. intros [= E]. lia.
    + rewrite list_lookup_alter_ne by exact Hne. apply Hn.
  - intros t _ Hlt _. now apply lookup_app_l.
Qed.

Lemma frame_ask_next_question (r : option nat) (gid : Z) (now : Q) (w : World) :
  frame r w (fst (ask_next_question gid now w)).
Proof.
  unfold ask_next_question.
  destruct (current gid w) as [[st s]|]; [| apply frame_refl].
  destruct (negb (active s)); [apply frame_refl |].
  destruct (questions_left s) as [| q rest]; cbn [fst];
    (eapply frame_trans; [apply frame_cancel_battle_timer |]);
    apply frame_upd; intros []; now left.
Qed.

Lemma frame_battle_timeout (r : option nat) (gid : Z) (st : nat) (w : World) :
  frame r w (fst (battle_timeout gid st w)).
Proof.
  unfold battle_timeout. destruct (heap w !! st) as [s|]; [| apply frame_refl].
  destruct (negb (active s) || is_none_q s); [apply frame_refl |]. cbn [fst].
  apply frame_upd. intros []; now left.
Qed.

Lemma frame_exec (r : option nat) (k : cont) (now : Q) (w : World) :
  frame r w (fst (exec k now w)).
Proof.
  destruct k as [gid | gid | gid | gid | gid st | | gid st | gid st e];
    cbn [exec fst]; try apply frame_refl.
  - apply frame_ask_next_question.
  - apply frame_ask_next_question.
  - apply frame_arm_battle_timer.
  - destruct (heap w !! st) as [s|]; [| apply frame_refl].
    destruct (negb (active s) || is_none_q s); apply frame_refl.
  - destruct (heap w !! st) as [s|]; [| apply frame_refl].
    destruct (Qle_bool _ _); [apply frame_battle_timeout | apply frame_refl].
Qed.

(** Setting the status of the task that runs. *)
Lemma frame_set_status (t : nat) (x : tstatus cont) (w : World) :
  frame (Some t) w (set_tasks (<[t := x]> (tasks w)) w).
Proof.
  unfold frame. cbn [tasks set_tasks heap]. rewrite length_insert.
  split; [lia |]. split; [auto |].
  intros t' _ _ Hne. apply list_lookup_insert_ne. congruence.
Qed.

Lemma frame_run_task (t : nat) (now : Q) (w : World) :
  frame (Some t) w (run_task t now w).
Proof.
  unfold run_task.
  destruct (tasks w !! t) as [[k | | |]|]; try apply frame_refl.
  - pose proof (frame_exec (Some t) k now (set_tasks (<[t := TRunning]> (tasks w)) w)) as He.
    destruct (exec k now _) as [w1 r]. cbn [fst] in He.
    assert (Hw1 : frame (Some t) w w1).
    { eapply frame_trans; [apply frame_set_status | exact He]. }
    destruct r as [k'|]; [destruct (tasks w1 !! t) as [[]|] |];
      (eapply frame_trans; [exact Hw1 | apply frame_set_status]).
  - apply frame_set_status.
Qed.

Lemma frame_battle_cmd (ctx : Ctx) (action : option string) (n seconds : option Z)
    (shuffled : list (string * string)) (w : World) :
  frame None w (fst (battle_cmd ctx action n seconds shuffled w)).
Proof.
  unfold battle_cmd. destruct (ctx_guild ctx) as [gid|]; [| apply frame_refl].
  destruct (String.eqb _ "stop").
  - destruct (current gid w) as [[st s]|]; [| apply frame_refl].
    destruct (negb (active s)); [apply frame_refl |]. cbn [fst].
    eapply frame_trans; [| apply frame_cancel_battle_timer].
    apply frame_upd. intros []; now left.
  - destruct (String.eqb _ "start"); [| apply frame_refl]. cbn [fst].
    eapply frame_trans; [| apply frame_suspend_at].
    now apply frame_register.
Qed.

Section Advance.

Context {U : PyStr.UnicodeData}.

(** The world an accepted buzz leaves: the claim, the new ledger and the
    handler's task, suspended on its reply. *)
Lemma buzz_accepted_shape (ctx : Ctx) (answer : string) (gid : Z) (st : nat)
    (s : BattleState) (q correct_raw : string) (w : World) :
  ctx_guild ctx = Some gid -> battle w !! gid = Some st -> heap w !! st = Some s ->
  active s = true -> current_q s = Some (q, correct_raw) ->
  ctx_channel ctx = channel_id s -> answer <> EmptyString -> accepting s = true ->
  let who := ctx_author ctx in
  let prev := default 0 (ledger w !! (gid, who)) in
  exists pts,
    fst (buzz ctx (Some answer) w)
    = suspend_at (KBuzzReplied gid)
        (set_ledger (<[(gid, who) := pts]> (ledger w)) (upd st (claim who) w))
    /\ (norm answer = norm correct_raw ->
          snd (buzz ctx (Some answer) w) = RCorrect /\ pts = prev + 2)
    /\ (norm answer <> norm correct_raw ->
          snd (buzz ctx (Some answer) w) = RWrong /\ pts = Z.max 0 (prev - 1)).
Proof.
  intros Hg Hb Hh Ha Hq Hch Hne Hacc who prev.
  assert (Hc : current gid w = Some (st, s)) by (unfold current; now rewrite Hb, Hh).
  assert (Ht : PyStr.truthy (Some answer) = true).
  { unfold PyStr.truthy. apply negb_true_iff, String.eqb_neq. exact Hne. }
  unfold buzz. rewrite Hg, Hc, Hq, Ha, Hch, Z.eqb_refl, Ht, Hacc. cbn [negb].
  change (default EmptyString (Some answer)) with answer.
  destruct (String.eqb_spec (norm answer) (norm correct_raw)) as [E | E]; cbn [fst snd].
  - exists (prev + 2). split; [reflexivity |]. split; [auto | contradiction].
  - exists (Z.max 0 (prev - 1)). split; [reflexivity |]. split; [contradiction | auto].
Qed.

Lemma frame_buzz (ctx : Ctx) (ans : option string) (w : World) :
  frame None w (fst (buzz ctx ans w)).
Proof.
  unfold buzz. destruct (ctx_guild ctx) as [gid|]; [| apply frame_refl].
  destruct (current gid w) as [[st s]|]; [| apply frame_refl].
  destruct (current_q s) as [[q c]|]; [| apply frame_refl].
  destruct (negb (active s)); [apply frame_refl |].
  destruct (negb (ctx_channel ctx =? channel_id s)); [apply frame_refl |].
  destruct (negb (PyStr.truthy ans)); [apply frame_refl |].
  destruct (negb (accepting s)); [apply frame_refl |].
  destruct (String.eqb _ _); cbn [fst];
    (eapply frame_trans; [| apply frame_suspend_at]);
    (eapply frame_trans; [| apply frame_set_ledger]);
    apply frame_upd; intros []; now left.
Qed.

Lemma frame_step (now : Q) (e : event) (w : World) :
  frame (resumed e) w (step now e w).
Proof.
  destruct e as [ctx action n seconds shuffled | ctx ans | t]; cbn [step resumed].
  - apply frame_battle_cmd.
  - apply frame_buzz.
  - apply frame_run_task.
Qed.

(** The timer handles of a world reached from the empty cog refer to
    tasks of its pool. *)
Lemma handles_in_pool_step (now : Q) (e : event) (w : World) :
  handles_in_pool w -> handles_in_pool (step now e w).
Proof.
  intros H st s t Hs Ht.
  destruct (frame_step now e w) as (L & N & _).
  destruct (le_lt_dec (length (tasks (step now e w))) t) as [Hge | Hlt]; [| exact Hlt].
  exfalso. refine (N t _ (or_intror Hge) st s Hs Ht).
  intros st0 s0 Hs0 Ht0. specialize (H st0 s0 t Hs0 Ht0). lia.
Qed.

Lemma handles_in_pool_run (sched : list (Q * event)) (w : World) :
  handles_in_pool w -> handles_in_pool (run sched w).
Proof.
  revert w. induction sched as [| [now e] sched IH]; intros w H; [exact H |].
  cbn [run]. now apply IH, handles_in_pool_step.
Qed.

(** While a task that is no battle's timer is not resumed, it stays as
    it is, whatever else runs. *)
Lemma run_leaves (t : nat) (sched : list (Q * event)) (w : World) :
  leaves t sched -> not_a_timer t w -> (t < length (tasks w))%nat ->
  not_a_timer t (run sched w) /\ (t < length (tasks (run sched w)))%nat /\
  tasks (run sched w) !! t = tasks w !! t.
Proof.
  intros Hl. revert w. induction Hl as [| [now e] sched He _ IH]; intros w Hn Hlt.
  - auto.
  - cbn [run]. cbn [snd] in He.
    destruct (frame_step now e w) as (L & N & T).
    destruct (IH (step now e w)) as (Hn' & Hlt' & Ht'); [apply N; auto | lia |].
    split; [exact Hn' |]. split; [exact Hlt' |].
    rewrite Ht'. now apply T.
Qed.

(** The handler of an accepted buzz, resumed when its reply is delivered,
    goes to sleep for a second. *)
Lemma resume_replied (t : nat) (gid : Z) (now : Q) (w : World) :
  tasks w !! t = Some (TWaiting (KBuzzReplied gid)) ->
  run_task t now w = set_tasks (<[t := TWaiting (KSlept gid)]> (tasks w)) w.
Proof.
  intros Ht. unfold run_task. rewrite Ht. cbn [exec tasks set_tasks].
  rewrite list_lookup_insert_eq by (now apply lookup_lt_Some in Ht).
  unfold set_tasks. cbn. now rewrite list_insert_insert_eq.
Qed.

(** Resumed from its sleep while the battle of its guild is active, it
    cancels the battle's timer and deals the head of the queue, or ends
    the battle when the queue is empty. *)
Lemma resume_slept (t : nat) (gid : Z) (now : Q) (st : nat) (s : BattleState) (w : World) :
  tasks w !! t = Some (TWaiting (KSlept gid)) -> not_a_timer t w ->
  battle w !! gid = Some st -> heap w !! st = Some s -> active s = true ->
  let w' := run_task t now w in
  battle w' = battle w /\ ledger w' = ledger w /\
  (forall h, timer_task s = Some h -> alive (tasks w') h = false) /\
  exists s', heap w' !! st = Some s' /\ advanced now s s'.
Proof.
  intros Ht Hn Hb Hh Ha w'. subst w'.
  assert (Hlt : (t < length (tasks w))%nat) by (now apply lookup_lt_Some in Ht).
  assert (Hnt : timer_task s <> Some t) by (now apply (Hn st)).
  unfold run_task. rewrite Ht. cbn [exec]. unfold ask_next_question, current.
  cbn [battle heap set_tasks]. rewrite Hb, Hh, Ha. cbn [negb].
  unfold cancel_battle_timer. cbn [heap set_tasks upd set_heap tasks]. rewrite Hh.
  set (ts := cancel (timer_task s) (<[t := TRunning]> (tasks w))).
  assert (Hts : ts !! t = Some TRunning).
  { subst ts. rewrite cancel_lookup_ne by exact Hnt. now apply list_lookup_insert_eq. }
  assert (Hal : forall x h, x <> TCancelling -> timer_task s = Some h ->
                            alive (<[t := x]> ts) h = false).
  { intros x h Hx Hs. assert (h <> t) by congruence.
    unfold alive. rewrite list_lookup_insert_ne by congruence.
    subst ts. rewrite Hs. apply cancelled_not_alive. }
  unfold advanced.
  destruct (questions_left s) as [| nq rest] eqn:Hq;
    cbn [fst snd tasks set_tasks upd set_heap heap]; rewrite Hts;
    cbn [tasks set_tasks upd set_heap heap battle ledger].
  - split; [reflexivity |]. split; [reflexivity |].
    split; [intros h; now apply Hal |].
    eexists. split.
    + rewrite !list_lookup_alter_eq, Hh. reflexivity.
    + destruct s; repeat split.
  - split; [reflexivity |]. split; [reflexivity |].
    split; [intros h; now apply Hal |].
    eexists. split.
    + rewrite !list_lookup_alter_eq, Hh. reflexivity.
    + destruct s; cbn in *. repeat split. exact Ha.
Qed.

(** C6.  Take any state the cog reaches and a buzz that passes the
    guards of [buzz] on it: a battle is registered for the guild and is
    active, a question is current and open, the buzz comes from the
    battle's channel with a non-empty answer.  If the normalized answer
    equals the normalized expected answer, the reply is "Correct" and the
    claimant's score is its previous value plus 2; otherwise the reply is
    "Wrong" and the score becomes max(0, previous - 1), never below 0; no
    other score changes.  In both cases the handler goes on in a task of
    its own: once its reply is delivered and its one-second pause is
    over, whatever other commands and tasks ran in the meantime, it takes
    the battle then registered for the guild and, if that battle is
    active, cancels its timer and makes the head of its queue the current
    question, open to the first buzz, with no claimant and asked at that
    moment; with an empty queue it ends the battle instead.  When nothing
    ran in the meantime, the question dealt is the one that followed the
    answered one in the queue. *)
Theorem buzz_scores_and_advances (sched : list (Q * event)) (ctx : Ctx) (answer : string)
    (gid : Z) (st : nat) (s : BattleState) (q correct_raw : string) :
  let w := run sched empty_world in
  ctx_guild ctx = Some gid -> battle w !! gid = Some st -> heap w !! st = Some s ->
  active s = true -> current_q s = Some (q, correct_raw) ->
  ctx_channel ctx = channel_id s -> answer <> EmptyString -> accepting s = true ->
  let who := ctx_author ctx in
  let prev := default 0 (ledger w !! (gid, who)) in
  let r := snd (buzz ctx (Some answer) w) in
  let w1 := fst (buzz ctx (Some answer) w) in
  let t := length (tasks w) in
  (norm answer = norm correct_raw ->
     r = RCorrect /\ ledger w1 = <[(gid, who) := prev + 2]> (ledger w))
  /\ (norm answer <> norm correct_raw ->
        r = RWrong /\ ledger w1 = <[(gid, who) := Z.max 0 (prev - 1)]> (ledger w) /\
        0 <= Scores.get_points gid who (ledger w1))
  /\ (forall mid1 mid2 n1 n2 st2 s2,
        leaves t mid1 -> leaves t mid2 ->
        let w2 := run mid2 (step n1 (EResume t) (run mid1 w1)) in
        let w3 := step n2 (EResume t) w2 in
        battle w2 !! gid = Some st2 -> heap w2 !! st2 = Some s2 -> active s2 = true ->
        battle w3 = battle w2 /\ ledger w3 = ledger w2 /\
        (forall h, timer_task s2 = Some h -> alive (tasks w3) h = false) /\
        exists s3, heap w3 !! st2 = Some s3 /\ advanced n2 s2 s3)
  /\ (forall n1 n2,
        let w3 := run [(n1, EResume t); (n2, EResume t)] w1 in
        battle w3 !! gid = Some st /\ ledger w3 = ledger w1 /\
        exists s3, heap w3 !! st = Some s3 /\ advanced n2 s s3).
Proof.
  intros w Hg Hb Hh Ha Hq Hch Hne Hacc who prev r w1 t.
  destruct (buzz_accepted_shape ctx answer gid st s q correct_raw w
              Hg Hb Hh Ha Hq Hch Hne Hacc) as (pts & Hw1 & Hok & Hko).
  fold who prev w1 in Hw1, Hok, Hko. fold r in Hok, Hko.
  assert (Hl1 : ledger w1 = <[(gid, who) := pts]> (ledger w)) by (now rewrite Hw1).
  assert (Hpool : handles_in_pool w).
  { apply handles_in_pool_run. intros st0 s0 t0 H0. discriminate H0. }
  assert (Ht1 : tasks w1 !! t = Some (TWaiting (KBuzzReplied gid))).
  { rewrite Hw1. unfold suspend_at, create_task. cbn [fst tasks set_tasks set_ledger upd].
    now apply list_lookup_middle. }
  assert (Hlt1 : (t < length (tasks w1))%nat) by (now apply lookup_lt_Some in Ht1).
  assert (Hn1 : not_a_timer t w1).
  { rewrite Hw1. intros st0 s0. unfold suspend_at, upd.
    cbn [heap set_tasks set_ledger set_heap].
    intros Hs0 Hts0.
    assert (Hin : exists s', heap w !! st0 = Some s' /\ timer_task s' = Some t).
    { destruct (decide (st = st0)) as [<- | Hne'].
      - rewrite list_lookup_alter_eq, Hh in Hs0. injection Hs0 as <-.
        exists s. split; [exact Hh | exact Hts0].
      - rewrite list_lookup_alter_ne in Hs0 by exact Hne'. eauto. }
    destruct Hin as (s' & Hs' & Hts').
    specialize (Hpool st0 s' t Hs' Hts'). subst t. lia. }
  assert (Hgen : forall mid1 mid2 n1 n2 st2 s2,
             leaves t mid1 -> leaves t mid2 ->
             let w2 := run mid2 (step n1 (EResume t) (run mid1 w1)) in
             let w3 := step n2 (EResume t) w2 in
             battle w2 !! gid = Some st2 -> heap w2 !! st2 = Some s2 -> active s2 = true ->
             battle w3 = battle w2 /\ ledger w3 = ledger w2 /\
             (forall h, timer_task s2 = Some h -> alive (tasks w3) h = false) /\
             exists s3, heap w3 !! st2 = Some s3 /\ advanced n2 s2 s3).
  { intros mid1 mid2 n1 n2 st2 s2 Hm1 Hm2 w2 w3 Hb2 Hh2 Ha2.
    destruct (run_leaves t mid1 w1 Hm1 Hn1 Hlt1) as (Hna & Hlta & Hta).
    rewrite Ht1 in Hta.
    set (wa := run mid1 w1) in *.
    assert (Hwb : step n1 (EResume t) wa
                  = set_tasks (<[t := TWaiting (KSlept gid)]> (tasks wa)) wa)
      by (now apply resume_replied).
    set (wb := step n1 (EResume t) wa) in *.
    assert (Hnb : not_a_timer t wb) by (rewrite Hwb; exact Hna).
    assert (Hltb : (t < length (tasks wb))%nat).
    { rewrite Hwb. cbn [tasks set_tasks]. now rewrite length_insert. }
    assert (Htb : tasks wb !! t = Some (TWaiting (KSlept gid))).
    { rewrite Hwb. cbn [tasks set_tasks]. now apply list_lookup_insert_eq. }
    destruct (run_leaves t mid2 wb Hm2 Hnb Hltb) as (Hn2 & _ & Ht2).
    rewrite Htb in Ht2. fold w2 in Hn2, Ht2.
    exact (resume_slept t gid n2 st2 s2 w2 Ht2 Hn2 Hb2 Hh2 Ha2). }
  split; [| split; [| split]].
  - intros E. destruct (Hok E) as [Hr ->]. split; [exact Hr | exact Hl1].
  - intros E. destruct (Hko E) as [Hr ->]. split; [exact Hr |]. split; [exact Hl1 |].
    rewrite Hl1. unfold Scores.get_points. rewrite lookup_insert_eq. cbn. lia.
  - exact Hgen.
  - intros n1 n2 w3.
    assert (Hw2 : step n1 (EResume t) w1
                  = set_tasks (<[t := TWaiting (KSlept gid)]> (tasks w1)) w1)
      by (now apply resume_replied).
    assert (Hb2 : battle (step n1 (EResume t) w1) !! gid = Some st)
      by (rewrite Hw2, Hw1; exact Hb).
    assert (Hh2 : heap (step n1 (EResume t) w1) !! st = Some (claim who s)).
    { rewrite Hw2, Hw1. unfold suspend_at, upd. cbn [heap set_tasks set_ledger set_heap].
      now rewrite list_lookup_alter_eq, Hh. }
    assert (Ha2 : active (claim who s) = true) by (destruct s; exact Ha).
    assert (Hnil : leaves t []) by constructor.
    destruct (Hgen [] [] n1 n2 st (claim who s) Hnil Hnil Hb2 Hh2 Ha2)
      as (Hb3 & Hl3 & _ & s3 & Hs3 & Hadv).
    cbn [run] in Hb3, Hl3, Hs3. subst w3. cbn [run].
    split; [now rewrite Hb3 |].
    split; [rewrite Hl3, Hw2; reflexivity |].
    exists s3. split; [exact Hs3 |].
    unfold advanced in *. now destruct s.
Qed.

End Advance.

Lemma buzz_scores_and_advances_witness :
  let U := PyStr.ascii_text in
  let right := buzz (ctx_of 10) (Some "To-Kyo! "%string) first_question in
  let wrong := buzz (ctx_of 10) (Some "kyoto"%string) first_question in
  let pause := [((5 # 2)%Q, EBuzz (ctx_of 20) (Some "tokyo"%string))] in
  let w3 := run (pause ++ [(3%Q, EResume 2%nat); (4%Q, EResume 2%nat)]) (fst right) in
  (snd right = RCorrect /\ Scores.get_points 1 10 (ledger (fst right)) = 2) /\
  (snd wrong = RWrong /\ Scores.get_points 1 10 (ledger (fst wrong)) = 0) /\
  exists s3,
    heap w3 !! 0%nat = Some s3 /\
    current_q s3 = Some ("Famous Japanese bullet train is called?"%string,
                         "shinkansen"%string) /\
    accepting s3 = true /\ buzz_winner_id s3 = None.
Proof.
  intros U right wrong pause w3. subst U.
  assert (Hs : exists s, heap first_question !! 0%nat = Some s /\ active s = true /\
                         current_q s = Some ("Japan’s capital city is?"%string,
                                             "tokyo"%string) /\
                         channel_id s = 100 /\ accepting s = true).
  { eexists. split; [vm_compute; reflexivity |]. repeat split. }
  destruct Hs as (s & Hh & Ha & Hq & Hch & Hacc).
  assert (Hb : battle first_question !! 1 = Some 0%nat) by (vm_compute; reflexivity).
  assert (Ht : length (tasks first_question) = 2%nat) by (vm_compute; reflexivity).
  pose proof (buzz_scores_and_advances (U := PyStr.ascii_text) opening (ctx_of 10)
                "To-Kyo! "%string 1 0%nat s
                _ _ eq_refl Hb Hh Ha Hq (eq_sym Hch) ltac:(discriminate) Hacc)
    as (Hok & _ & Hadv & _).
  pose proof (buzz_scores_and_advances (U := PyStr.ascii_text) opening (ctx_of 10)
                "kyoto"%string 1 0%nat s
                _ _ eq_refl Hb Hh Ha Hq (eq_sym Hch) ltac:(discriminate) Hacc)
    as (_ & Hko & _ & _).
  fold first_question in Hok, Hko, Hadv. rewrite Ht in Hadv.
  split; [| split].
  - destruct Hok as [Hr Hl]; [vm_compute; reflexivity |]. split; [exact Hr |].
    subst right. rewrite Hl. vm_compute. reflexivity.
  - destruct Hko as [Hr [Hl _]]; [vm_compute; discriminate |]. split; [exact Hr |].
    subst wrong. rewrite Hl. vm_compute. reflexivity.
  - assert (Hs2 : exists s2,
               heap (run (U := PyStr.ascii_text) []
                       (step (U := PyStr.ascii_text) 3 (EResume 2%nat)
                          (run (U := PyStr.ascii_text) pause (fst right)))) !! 0%nat
               = Some s2 /\ active s2 = true /\
               questions_left s2
               = [("Famous Japanese bullet train is called?"%string, "shinkansen"%string);
                  ("Traditional Japanese warrior class is?"%string, "samurai"%string);
                  ("Japanese currency is the?"%string, "yen"%string);
                  ("Famous mountain often seen in art is Mount?"%string, "fuji"%string)]).
    { eexists. split; [vm_compute; reflexivity |]. split; reflexivity. }
    destruct Hs2 as (s2 & Hh2 & Ha2 & Hq2).
    destruct (Hadv pause [] 3%Q 4%Q 0%nat s2) as (_ & _ & _ & s3 & Hs3 & Hd).
    + repeat constructor. discriminate.
    + constructor.
    + vm_compute. reflexivity.
    + exact Hh2.
    + exact Ha2.
    + unfold advanced in Hd. rewrite Hq2 in Hd.
      destruct Hd as (_ & Hcur & _ & _ & Hac & Hbw & _).
      exists s3. split; [exact Hs3 |]. split; [exact Hcur |]. split; [exact Hac | exact Hbw].
Defined.

(** *** Only a deal raises the flag *)

Lemma no_raise_refl (w : World) : no_raise w w.
Proof. now intros gid. Qed.

Lemma no_raise_trans (w1 w2 w3 : World) :
  no_raise w1 w2 -> no_raise w2 w3 -> no_raise w1 w3.
Proof. intros H1 H2 gid H. now apply H1, H2. Qed.

Lemma no_raise_same (w w' : World) :
  battle w' = battle w -> heap w' = heap w -> no_raise w w'.
Proof.
  intros Hb Hh gid. unfold accepting_of. now rewrite (current_ext gid w' w Hb Hh).
Qed.

Lemma no_raise_upd (st : nat) (f : BattleState -> BattleState) (w : World) :
  (forall s, accepting (f s) = true -> accepting s = true) ->
  no_raise w (upd st f w).
Proof.
  intros Hf gid. unfold accepting_of, current, upd. cbn.
  destruct (battle w !! gid) as [st'|]; [| easy].
  destruct (decide (st = st')) as [-> | Hne].
  - rewrite list_lookup_alter_eq. destruct (heap w !! st') as [s|]; [| easy].
    cbn. apply Hf.
  - now rewrite list_lookup_alter_ne.
Qed.

Lemma no_raise_cancel_battle_timer (st : nat) (w : World) :
  no_raise w (cancel_battle_timer st w).
Proof.
  unfold cancel_battle_timer. destruct (heap w !! st); [| apply no_raise_refl].
  eapply no_raise_trans; [apply (no_raise_upd st (set_timer_task None)); now intros [] |].
  now apply no_raise_same.
Qed.

Lemma no_raise_register (gid : Z) (s : BattleState) (w : World) :
  accepting s = false ->
  no_raise w (set_battle (<[gid := length (heap w)]> (battle w)) (set_heap (heap w ++ [s]) w)).
Proof.
  intros Hs g. unfold accepting_of, current. cbn.
  destruct (decide (gid = g)) as [-> | Hne].
  - rewrite lookup_insert_eq, list_lookup_middle by reflexivity. congruence.
  - rewrite lookup_insert_ne by exact Hne.
    destruct (battle w !! g) as [st|]; [| easy].
    destruct (heap w !! st) as [s'|] eqn:E.
    + now rewrite (lookup_app_l_Some _ _ _ _ E).
    + apply lookup_ge_None in E.
      destruct (decide (st = length (heap w))) as [-> | Hne'].
      * rewrite list_lookup_middle by reflexivity. congruence.
      * rewrite lookup_ge_None_2; [easy |]. rewrite length_app. cbn. lia.
Qed.

Lemma no_raise_suspend_at (k : cont) (w0 w : World) :
  no_raise w0 w -> no_raise w0 (suspend_at k w).
Proof. intros H. eapply no_raise_trans; [exact H | now apply no_raise_same]. Qed.

Lemma battle_cmd_no_raise (ctx : Ctx) (action : option string) (n seconds : option Z)
    (shuffled : list (string * string)) (w : World) :
  no_raise w (fst (battle_cmd ctx action n seconds shuffled w)).
Proof.
  unfold battle_cmd. destruct (ctx_guild ctx) as [gid|]; [| apply no_raise_refl].
  destruct (String.eqb _ "stop").
  - destruct (current gid w) as [[st s]|]; [| apply no_raise_refl].
    destruct (negb (active s)); [apply no_raise_refl |]. cbn [fst].
    eapply no_raise_trans; [| apply no_raise_cancel_battle_timer].
    apply no_raise_upd. now intros [].
  - destruct (String.eqb _ "start"); [| apply no_raise_refl]. cbn [fst].
    apply no_raise_suspend_at, no_raise_register. reflexivity.
Qed.

Section Raise.

Context {U : PyStr.UnicodeData}.

Lemma buzz_no_raise (ctx : Ctx) (ans : option string) (w : World) :
  no_raise w (fst (buzz ctx ans w)).
Proof.
  destruct (accepted (snd (buzz ctx ans w))) eqn:E.
  - unfold buzz in *. destruct (ctx_guild ctx) as [gid|]; [| discriminate].
    destruct (current gid w) as [[st s]|]; [| discriminate].
    destruct (current_q s) as [[q c]|]; [| discriminate].
    destruct (negb (active s)); [discriminate |].
    destruct (negb (ctx_channel ctx =? channel_id s)); [discriminate |].
    destruct (negb (PyStr.truthy ans)); [discriminate |].
    destruct (negb (accepting s)); [discriminate |].
    destruct (String.eqb (norm (default EmptyString ans)) (norm c)); cbn [fst];
      apply no_raise_suspend_at;
      (eapply no_raise_trans; [| now apply no_raise_same]);
      apply (no_raise_upd st (fun s => set_buzz_winner_id (Some (ctx_author ctx))
                                         (set_accepting false s)));
      intros []; cbn; congruence.
  - rewrite (buzz_rejected ctx ans w E). apply no_raise_refl.
Qed.

End Raise.

Lemma exec_no_raise (k : cont) (now : Q) (w : World) :
  deals k = false -> no_raise w (fst (exec k now w)).
Proof.
  intros Hk.
  destruct k as [gid | gid | gid | gid | gid st | | gid st | gid st e];
    try discriminate; cbn [exec fst]; try apply no_raise_refl.
  - unfold arm_battle_timer, create_task.
    eapply no_raise_trans; [| apply no_raise_upd; now intros []].
    now apply no_raise_same.
  - destruct (heap w !! st) as [s|]; [| apply no_raise_refl].
    destruct (negb (active s) || is_none_q s); apply no_raise_refl.
  - destruct (heap w !! st) as [s|]; [| apply no_raise_refl].
    destruct (Qle_bool _ _); [| apply no_raise_refl].
    unfold battle_timeout. destruct (heap w !! st) as [s'|]; [| apply no_raise_refl].
    destruct (negb (active s') || is_none_q s'); [apply no_raise_refl |]. cbn [fst].
    apply no_raise_upd. intros []; cbn; congruence.
Qed.

(** Between two questions the flag stays down: a step of the event loop
    that raises the [accepting] flag of some guild resumes a task at one
    of the two points from which [_ask_next_question] is run. *)
Lemma accepting_raised_only_by_deal {U : PyStr.UnicodeData} (now : Q) (e : event)
    (w : World) (gid : Z) :
  accepting_of gid w = false -> accepting_of gid (step now e w) = true ->
  exists t k, e = EResume t /\ tasks w !! t = Some (TWaiting k) /\ deals k = true.
Proof.
  intros H0 H1.
  destruct e as [ctx action n seconds shuffled | ctx ans | t]; cbn [step] in H1.
  - apply battle_cmd_no_raise in H1. congruence.
  - apply buzz_no_raise in H1. congruence.
  - unfold run_task in H1.
    destruct (tasks w !! t) as [[k | | |]|] eqn:Ht; try congruence.
    + destruct (deals k) eqn:Hk; [eauto |].
      pose proof (exec_no_raise k now (set_tasks (<[t := TRunning]> (tasks w)) w) Hk) as Hn.
      destruct (exec k now _) as [w1 r]. cbn [fst] in Hn.
      assert (Hw1 : accepting_of gid w1 = true).
      { destruct r as [k'|]; [destruct (tasks w1 !! t) as [[]|] |]; exact H1. }
      apply Hn in Hw1. unfold accepting_of in Hw1. rewrite current_set_tasks in Hw1.
      unfold accepting_of in H0. congruence.
    + unfold accepting_of in *. rewrite current_set_tasks in H1. congruence.
Qed.

End BattleFacts.

(** ** The duel: rounds, timers and the registry *)

Module DuelFacts.

Import PyDict Discord Clock Asyncio Duel DuelTerms.

Local Open Scope Z_scope.
Local Open Scope string_scope.

(** C1 fails on the code (a defect of the code).  One round, one move per
    player: when the two direct messages are handled within the same
    moment, both handlers run [_resolve_round] for the same pair of moves,
    because the slots are cleared only after the awaited reveal.  The
    opponent loses two health points in that single round (3 to 1); and
    when the raced round is the deciding one, the end of the duel is
    processed twice and the winner is credited 6 points, the loser 2. *)
Theorem one_round_resolved_twice :
  let submitted := run (opening None ++ both_move) empty_world in
  let resolved := run (opening None ++ both_move ++ both_resolve) empty_world in
  hp 0 submitted = Some (3, 3) /\
  slots 0 submitted = Some (Some "strike", Some "feint") /\
  hp 0 resolved = Some (3, 1) /\
  let ended := run last_round_raced empty_world in
  duels ended = [] /\
  Scores.get_points 1 10 (ledger ended) = 6 /\
  Scores.get_points 1 20 (ledger ended) = 2.
Proof. vm_compute. repeat split; reflexivity. Qed.

(** *** The timer path *)

Lemma heap_cancel_round_timer (st : nat) (s : DuelState) (w : World) :
  heap w !! st = Some s ->
  cancel_round_timer st w
  = set_tasks (cancel (round_task s) (tasks w)) (upd st (set_round_task None) w).
Proof. intros H. unfold cancel_round_timer. now rewrite H. Qed.

Lemma both_moves_empty_slot (st : nat) (s : DuelState) (w : World) :
  heap w !! st = Some s ->
  is_none (ch_move s) || is_none (op_move s) = true ->
  both_moves st w = false.
Proof.
  intros Hh He. unfold both_moves. rewrite Hh.
  destruct (ch_move s), (op_move s); simpl in *; try discriminate;
    rewrite ?andb_false_r; reflexivity.
Qed.

(** The timer task [t] of a duel resumes from its display update with the
    30 seconds elapsed and a move slot empty.  [_resolve_round] first calls
    [_cancel_round_timer], and [st.round_task] is the very task that is
    running: it cancels itself, so [CancelledError] ends it at the
    announcement that precedes the forfeit.  All that is left is
    [round_task = None]. *)
Lemma timer_path_cancels_itself (t : nat) (gid : Z) (st : nat) (s : DuelState)
    (elapsed now : Q) (w : World) :
  tasks w !! t = Some (TWaiting (KLoopPosted gid st elapsed)) ->
  heap w !! st = Some s ->
  round_task s = Some t ->
  Qle_bool 30 elapsed = true ->
  is_none (ch_move s) || is_none (op_move s) = true ->
  let w' := run_task t now w in
  heap w' = <[st := set_round_task None s]> (heap w) /\
  tasks w' = <[t := TDone]> (tasks w) /\
  duels w' = duels w /\
  ledger w' = ledger w.
Proof.
  intros Ht Hh Hrt Hel Hempty w'. subst w'.
  unfold run_task. rewrite Ht.
  set (wr := set_tasks (<[t := TRunning]> (tasks w)) w).
  assert (Hhr : heap wr !! st = Some s) by exact Hh.
  assert (Hlt : (t < length (tasks w))%nat) by (apply lookup_lt_Some in Ht; exact Ht).
  cbn [exec]. rewrite (both_moves_empty_slot st s wr Hhr Hempty), Hel.
  unfold resolve_round_begin. rewrite (heap_cancel_round_timer st s wr Hhr), Hrt.
  assert (Hcancel : cancel (Some t) (tasks wr) = <[t := TCancelling]> (tasks wr)).
  { unfold cancel, done. subst wr. cbn [tasks set_tasks].
    now rewrite list_lookup_insert_eq by exact Hlt. }
  rewrite Hcancel. cbn [heap set_tasks upd set_heap].
  rewrite list_lookup_alter_eq. subst wr. cbn [heap set_tasks]. rewrite Hh.
  cbn [fmap option_fmap option_map ch_move op_move set_round_task].
  rewrite Hempty. cbn [andb].
  assert (Hst : (st < length (heap w))%nat) by (apply lookup_lt_Some in Hh; exact Hh).
  assert (Hheap : alter (set_round_task None) st (heap w)
                  = <[st := set_round_task None s]> (heap w)).
  { apply list_eq. intros i. destruct (decide (i = st)) as [-> | Hne].
    - rewrite list_lookup_alter_eq, Hh, list_lookup_insert_eq by exact Hst. reflexivity.
    - rewrite list_lookup_alter_ne, list_lookup_insert_ne by congruence. reflexivity. }
  assert (Htasks : forall x : tstatus cont,
             <[t := x]> (<[t := TCancelling]> (<[t := TRunning]> (tasks w)))
             = <[t := x]> (tasks w)).
  { intros x. now rewrite !list_insert_insert_eq. }
  destruct (is_none (ch_move s) && is_none (op_move s));
    [| destruct (is_none (ch_move s))];
    cbn [tasks set_tasks heap duels ledger set_heap];
    rewrite list_lookup_insert_eq by (rewrite length_insert; exact Hlt);
    unfold upd; cbn [tasks set_tasks heap duels ledger set_heap];
    rewrite Htasks, Hheap; auto.
Qed.

(** *** Every waiting round timer is owned by its duel *)

Lemma task_ok_alter (h : list DuelState) (t : nat) (k : cont) (st : nat)
    (f : DuelState -> DuelState) :
  (forall s, round_task (f s) = round_task s) ->
  task_ok h t k -> task_ok (alter f st h) t k.
Proof.
  intros Hf Hok st0 Href. destruct (Hok st0 Href) as (s & Hs & Hl).
  destruct (decide (st = st0)) as [-> | Hne].
  - exists (f s). rewrite list_lookup_alter_eq, Hs. split; [reflexivity |].
    intros Hk. rewrite Hf. now apply Hl.
  - exists s. now rewrite list_lookup_alter_ne.
Qed.

Lemma timers_owned_alter (h : list DuelState) (ts : list (tstatus cont)) (st : nat)
    (f : DuelState -> DuelState) :
  (forall s, round_task (f s) = round_task s) ->
  timers_owned h ts -> timers_owned (alter f st h) ts.
Proof. intros Hf H t k Ht. apply task_ok_alter; [exact Hf | now apply H]. Qed.

Lemma cancel_lookup_waiting (o : option nat) (ts : list (tstatus cont)) (t : nat) (k : cont) :
  cancel o ts !! t = Some (TWaiting k) -> ts !! t = Some (TWaiting k) /\ o <> Some t.
Proof.
  unfold cancel, done. destruct o as [t0|]; [| now split].
  destruct (ts !! t0) as [x|] eqn:E.
  - destruct x.
    + intros H. apply list_lookup_insert_Some in H as [(-> & Hx & _) | (Hne & H)];
        [discriminate | split; [exact H | congruence]].
    + intros H. apply list_lookup_insert_Some in H as [(-> & Hx & _) | (Hne & H)];
        [discriminate | split; [exact H | congruence]].
    + intros H. apply list_lookup_insert_Some in H as [(-> & Hx & _) | (Hne & H)];
        [discriminate | split; [exact H | congruence]].
    + intros H. split; [exact H | intros [= ->]; congruence].
  - intros H. split; [exact H | intros [= ->]; congruence].
Qed.

Lemma timers_owned_cancel (h : list DuelState) (ts : list (tstatus cont)) (st : nat)
    (s : DuelState) :
  h !! st = Some s -> timers_owned h ts ->
  timers_owned (alter (set_round_task None) st h) (cancel (round_task s) ts) /\
  no_loop st (cancel (round_task s) ts).
Proof.
  intros Hs Hinv.
  assert (Hno : no_loop st (cancel (round_task s) ts)).
  { intros t k Ht Hk Href. apply cancel_lookup_waiting in Ht as [Ht Hne].
    destruct (Hinv t k Ht st Href) as (s' & Hs' & Hl).
    rewrite Hs in Hs'. injection Hs' as <-. now apply Hne, Hl. }
  split; [| exact Hno].
  intros t k Ht st0 Href. pose proof (Hno t k Ht) as Hn.
  apply cancel_lookup_waiting in Ht as [Ht _].
  destruct (Hinv t k Ht st0 Href) as (s' & Hs' & Hl).
  destruct (decide (st = st0)) as [-> | Hne].
  - exists (set_round_task None s'). rewrite list_lookup_alter_eq, Hs'.
    split; [reflexivity |]. intros Hk. now destruct (Hn Hk).
  - exists s'. now rewrite list_lookup_alter_ne.
Qed.

Lemma timers_owned_arm (h : list DuelState) (ts : list (tstatus cont)) (gid : Z)
    (st : nat) (s : DuelState) :
  h !! st = Some s -> timers_owned h ts -> no_loop st ts ->
  timers_owned (alter (set_round_task (Some (length ts))) st h)
    (ts ++ [TWaiting (KLoopTop gid st)]).
Proof.
  intros Hs Hinv Hno t k Ht st0 Href.
  apply lookup_app_Some in Ht as [Ht | [Hge Ht]].
  - destruct (Hinv t k Ht st0 Href) as (s' & Hs' & Hl).
    destruct (decide (st = st0)) as [-> | Hne].
    + exists (set_round_task (Some (length ts)) s'). rewrite list_lookup_alter_eq, Hs'.
      split; [reflexivity |]. intros Hk. now destruct (Hno t k Ht Hk).
    + exists s'. now rewrite list_lookup_alter_ne.
  - apply list_lookup_singleton_Some in Ht as [Ht [= <-]]. cbn in Href. injection Href as <-.
    exists (set_round_task (Some (length ts)) s). rewrite list_lookup_alter_eq, Hs.
    split; [reflexivity |]. intros _. cbn. f_equal. lia.
Qed.

Lemma timers_owned_suspend (h : list DuelState) (ts : list (tstatus cont)) (k : cont) :
  timers_owned h ts -> task_ok h (length ts) k -> timers_owned h (ts ++ [TWaiting k]).
Proof.
  intros Hinv Hok t k' Ht.
  apply lookup_app_Some in Ht as [Ht | [Hge Ht]]; [now apply Hinv |].
  apply list_lookup_singleton_Some in Ht as [Ht [= <-]].
  replace t with (length ts) by lia. exact Hok.
Qed.

Lemma timers_owned_alloc (h : list DuelState) (ts : list (tstatus cont)) (s : DuelState) :
  timers_owned h ts -> timers_owned (h ++ [s]) ts.
Proof.
  intros Hinv t k Ht st Href. destruct (Hinv t k Ht st Href) as (s' & Hs' & Hl).
  exists s'. split; [now apply lookup_app_l_Some | exact Hl].
Qed.

Lemma timers_owned_insert (h : list DuelState) (ts : list (tstatus cont)) (t : nat)
    (x : tstatus cont) :
  timers_owned h ts ->
  (forall k, x = TWaiting k -> task_ok h t k) ->
  timers_owned h (<[t := x]> ts).
Proof.
  intros Hinv Hx t' k Ht.
  apply list_lookup_insert_Some in Ht as [(-> & -> & _) | (Hne & Ht)].
  - now apply Hx.
  - now apply Hinv.
Qed.

Lemma task_ok_plain (h : list DuelState) (t : nat) (k : cont) :
  is_loop k = false ->
  (forall st, ref_of k = Some st -> is_Some (h !! st)) ->
  task_ok h t k.
Proof.
  intros Hk Hv st Href. destruct (Hv st Href) as [s Hs].
  exists s. split; [exact Hs | congruence].
Qed.

Lemma task_ok_valid (h : list DuelState) (t : nat) (k : cont) (st : nat) :
  task_ok h t k -> ref_of k = Some st -> is_Some (h !! st).
Proof. intros Hok Href. destruct (Hok st Href) as (s & Hs & _). eauto. Qed.

Lemma inv_upd (st : nat) (f : DuelState -> DuelState) (w : World) :
  (forall s, round_task (f s) = round_task s) -> inv w -> inv (upd st f w).
Proof. intros Hf H. unfold inv, upd. cbn. now apply timers_owned_alter. Qed.

Lemma inv_cancel_round_timer (st : nat) (w : World) :
  inv w ->
  inv (cancel_round_timer st w) /\
  (is_Some (heap w !! st) -> no_loop st (tasks (cancel_round_timer st w))).
Proof.
  intros H. unfold cancel_round_timer. destruct (heap w !! st) as [s|] eqn:Hs.
  - destruct (timers_owned_cancel _ _ st s Hs H) as [H1 H2].
    split; [exact H1 | intros _; exact H2].
  - split; [exact H | intros [? ?]; discriminate].
Qed.

Lemma heap_length_cancel_round_timer (st : nat) (w : World) :
  length (heap (cancel_round_timer st w)) = length (heap w).
Proof.
  unfold cancel_round_timer. destruct (heap w !! st); [| reflexivity].
  cbn. apply length_alter.
Qed.

Lemma valid_alter (h : list DuelState) (st st' : nat) (f : DuelState -> DuelState) :
  is_Some (h !! st) -> is_Some (alter f st' h !! st).
Proof.
  intros H. apply lookup_lt_is_Some. rewrite length_alter. now apply lookup_lt_is_Some.
Qed.

Lemma valid_cancel_round_timer (st st' : nat) (w : World) :
  is_Some (heap w !! st) -> is_Some (heap (cancel_round_timer st' w) !! st).
Proof.
  intros H. apply lookup_lt_is_Some. rewrite heap_length_cancel_round_timer.
  now apply lookup_lt_is_Some.
Qed.

Lemma inv_start_round_finish (gid : Z) (st : nat) (w : World) :
  inv w -> is_Some (heap w !! st) -> inv (start_round_finish gid st w).
Proof.
  intros H Hv. unfold start_round_finish.
  destruct (inv_cancel_round_timer st w H) as [H1 H2]. specialize (H2 Hv).
  destruct (valid_cancel_round_timer st st w Hv) as [s Hs].
  unfold create_task, inv, upd. cbn.
  exact (timers_owned_arm _ _ gid st s Hs H1 H2).
Qed.

Lemma round_task_clear_moves (s : DuelState) : round_task (clear_moves s) = round_task s.
Proof. reflexivity. Qed.

Lemma round_task_apply_forfeit (cm : bool) (s : DuelState) :
  round_task (apply_forfeit cm s) = round_task s.
Proof. unfold apply_forfeit. destruct cm, (String.eqb (mode s) "bo3"); reflexivity. Qed.

Lemma round_task_apply_outcome (o : Z) (s : DuelState) :
  round_task (apply_outcome o s) = round_task s.
Proof.
  unfold apply_outcome.
  destruct (o =? 0)%Z, (o =? 1)%Z, (String.eqb (mode s) "bo3"); reflexivity.
Qed.

(** [_check_duel_end] and the start of [_start_round] keep the invariant
    and the objects. *)
Lemma inv_check_duel_end (gid : Z) (st : nat) (w : World) :
  inv w ->
  inv (fst (check_duel_end gid st w)) /\
  length (heap (fst (check_duel_end gid st w))) = length (heap w).
Proof.
  intros H. unfold check_duel_end. destruct (heap w !! st) as [s|]; [| now split].
  destruct (winner_loser s) as [[wi lo]|]; [| now split].
  cbn [fst].
  destruct (inv_cancel_round_timer st (set_duels (dict_pop gid (duels w)) w) H) as [H1 _].
  split; [exact H1 |].
  exact (heap_length_cancel_round_timer st (set_duels (dict_pop gid (duels w)) w)).
Qed.

Lemma inv_end_or_next_round (t : nat) (gid : Z) (st : nat) (now : Q) (w : World) :
  inv w -> is_Some (heap w !! st) ->
  inv (fst (end_or_next_round gid st now w)) /\
  forall k', snd (end_or_next_round gid st now w) = Some k' ->
             task_ok (heap (fst (end_or_next_round gid st now w))) t k'.
Proof.
  intros H Hv. unfold end_or_next_round.
  destruct (inv_check_duel_end gid st w H) as [H1 Hlen].
  destruct (check_duel_end gid st w) as [w1 ended]. cbn [fst] in H1, Hlen.
  destruct ended; cbn [fst snd start_round_begin].
  - split; [exact H1 |]. intros k' [= <-]. intros st' Href. discriminate Href.
  - split; [apply inv_upd; [reflexivity | exact H1] |].
    intros k' [= <-]. apply task_ok_plain; [reflexivity |].
    intros st' [= <-]. apply valid_alter. apply lookup_lt_is_Some. rewrite Hlen.
    now apply lookup_lt_is_Some.
Qed.

Lemma resolve_round_begin_shape (gid : Z) (st : nat) (forced : bool) (w : World) :
  fst (resolve_round_begin gid st forced w) = cancel_round_timer st w /\
  forall k', snd (resolve_round_begin gid st forced w) = Some k' ->
             is_loop k' = false /\ ref_of k' = Some st.
Proof.
  unfold resolve_round_begin.
  destruct (heap (cancel_round_timer st w) !! st) as [s|]; [| split; [reflexivity | discriminate]].
  destruct (forced && (is_none (ch_move s) || is_none (op_move s))).
  - destruct (is_none (ch_move s) && is_none (op_move s));
      [| destruct (is_none (ch_move s))];
      (split; [reflexivity | intros k' [= <-]; now split]).
  - destruct (ch_move s) as [a|], (op_move s) as [b|];
      try (split; [reflexivity | discriminate]).
    destruct (duel_resolve a b); (split; [reflexivity |]);
      [intros k' [= <-]; now split | discriminate].
Qed.

Lemma inv_resolve_round_begin (t : nat) (gid : Z) (st : nat) (forced : bool) (w : World) :
  inv w -> is_Some (heap w !! st) ->
  inv (fst (resolve_round_begin gid st forced w)) /\
  forall k', snd (resolve_round_begin gid st forced w) = Some k' ->
             task_ok (heap (fst (resolve_round_begin gid st forced w))) t k'.
Proof.
  intros H Hv. destruct (resolve_round_begin_shape gid st forced w) as [Hw Hk].
  rewrite Hw. split; [apply (inv_cancel_round_timer st w H) |].
  intros k' Hk'. destruct (Hk k' Hk') as [Hl Href].
  apply task_ok_plain; [exact Hl |]. intros st' Href'.
  assert (st' = st) by congruence. subst st'. now apply valid_cancel_round_timer.
Qed.

(** One atomic run of a coroutine keeps the invariant, and the
    continuation it suspends at satisfies it for the running task. *)
Lemma exec_inv (t : nat) (k : cont) (now : Q) (w : World) :
  inv w -> task_ok (heap w) t k ->
  inv (fst (exec k now w)) /\
  forall k', snd (exec k now w) = Some k' -> task_ok (heap (fst (exec k now w))) t k'.
Proof.
  intros H Hok.
  destruct k as [gid st | gid st | gid st | gid st | gid st cm | gid st o | | gid st | gid st e];
    cbn [exec];
    try (pose proof (task_ok_valid _ _ _ st Hok eq_refl) as Hv).
  - cbn [start_round_begin fst snd]. split; [now apply inv_upd |].
    intros k' [= <-]. apply task_ok_plain; [reflexivity |].
    intros st' [= <-]. now apply valid_alter.
  - cbn [fst snd]. split; [now apply inv_start_round_finish | discriminate].
  - destruct (both_moves st w); [now apply inv_resolve_round_begin |].
    split; [exact H | discriminate].
  - cbn [start_round_begin fst snd]. split; [now apply inv_upd |].
    intros k' [= <-]. apply task_ok_plain; [reflexivity |].
    intros st' [= <-]. now apply valid_alter.
  - apply inv_end_or_next_round.
    + apply inv_upd; [| exact H]. intros s.
      now rewrite round_task_clear_moves, round_task_apply_forfeit.
    + now apply valid_alter.
  - apply inv_end_or_next_round.
    + apply inv_upd; [| exact H]. intros s.
      now rewrite round_task_clear_moves, round_task_apply_outcome.
    + now apply valid_alter.
  - split; [exact H | discriminate].
  - destruct (heap w !! st) as [s|] eqn:Hs; cbn [fst snd]; (split; [exact H |]);
      [| discriminate].
    intros k' [= <-]. intros st' Href. exact (Hok st' Href).
  - destruct (both_moves st w); [now apply inv_resolve_round_begin |].
    destruct (Qle_bool 30 e); [now apply inv_resolve_round_begin |].
    cbn [fst snd]. split; [exact H |].
    intros k' [= <-]. intros st' Href. exact (Hok st' Href).
Qed.

Lemma run_task_inv (t : nat) (now : Q) (w : World) : inv w -> inv (run_task t now w).
Proof.
  intros H. unfold run_task.
  destruct (tasks w !! t) as [[k | | |]|] eqn:Ht; try exact H.
  - pose proof (H t k Ht) as Hok.
    assert (Hr : inv (set_tasks (<[t := TRunning]> (tasks w)) w)).
    { unfold inv. cbn. apply timers_owned_insert; [exact H | discriminate]. }
    destruct (exec_inv t k now _ Hr Hok) as [H1 Hk].
    destruct (exec k now _) as [w1 r]. cbn [fst snd] in H1, Hk.
    destruct r as [k'|].
    + destruct (tasks w1 !! t) as [[]|]; unfold inv; cbn;
        (apply timers_owned_insert; [exact H1 |]);
        try discriminate.
      intros k0 [= <-]. now apply Hk.
    + unfold inv. cbn. apply timers_owned_insert; [exact H1 | discriminate].
  - unfold inv. cbn. apply timers_owned_insert; [exact H | discriminate].
Qed.

Lemma inv_suspend_at (k : cont) (w : World) :
  inv w -> is_loop k = false ->
  (forall st, ref_of k = Some st -> is_Some (heap w !! st)) ->
  inv (suspend_at k w).
Proof.
  intros H Hl Hv. unfold inv, suspend_at, create_task. cbn.
  apply timers_owned_suspend; [exact H | now apply task_ok_plain].
Qed.

Lemma step_inv (now : Q) (e : event) (w : World) : inv w -> inv (step now e w).
Proof.
  intros H. destruct e as [m | ctx opp md | ctx | ctx | ctx | t]; cbn [step].
  - unfold on_message.
    destruct (msg_author_bot m); [exact H |].
    destruct (negb (is_none (msg_guild m))); [exact H |].
    destruct (raw_move (msg_content m)) as [raw|]; [| exact H].
    destruct (negb (is_move (strip_move raw))); [exact H |].
    destruct (find_duel _ _ _) as [[gid st]|]; [| exact H].
    destruct (heap w !! st) as [s|] eqn:Hs; [| exact H].
    destruct (msg_author m =? challenger_id s)%Z;
      [destruct (negb (is_none (ch_move s))) | destruct (negb (is_none (op_move s)))];
      try exact H; cbn [fst];
      (apply inv_suspend_at;
       [apply inv_upd; [reflexivity | exact H] | reflexivity
       | intros st' [= <-]; apply valid_alter; eauto]).
  - unfold duel.
    destruct (ctx_guild ctx) as [gid|]; [| exact H].
    destruct opp as [opp|]; [| exact H].
    destruct (member_bot opp); [exact H |].
    destruct (member_id opp =? ctx_author ctx)%Z; [exact H |].
    destruct (duel_in_the_way gid now w); [exact H |].
    cbn [fst]. unfold inv. cbn. now apply timers_owned_alloc.
  - unfold duelaccept.
    destruct (ctx_guild ctx) as [gid|]; [| exact H].
    destruct (dict_get gid (duels w)) as [st|]; [| exact H].
    destruct (heap w !! st) as [s|] eqn:Hs; [| exact H].
    destruct (active s); [exact H |].
    destruct (duel_expired now s); [exact H |].
    destruct (negb (ctx_author ctx =? opponent_id s)%Z); [exact H |].
    cbn [fst]. apply inv_suspend_at;
      [apply inv_upd; [reflexivity | exact H] | reflexivity
      | intros st' [= <-]; apply valid_alter; eauto].
  - unfold dueldecline.
    destruct (ctx_guild ctx) as [gid|]; [| exact H].
    destruct (dict_get gid (duels w)) as [st|]; [| exact H].
    destruct (heap w !! st) as [s|]; [| exact H].
    destruct (negb (ctx_author ctx =? opponent_id s)%Z); exact H.
  - unfold duelcancel.
    destruct (ctx_guild ctx) as [gid|]; [| exact H].
    destruct (dict_get gid (duels w)) as [st|]; [| exact H].
    destruct (heap w !! st) as [s|]; [| exact H].
    destruct (negb _); [exact H |].
    cbn [fst]. apply (inv_cancel_round_timer st (set_duels (dict_pop gid (duels w)) w) H).
  - now apply run_task_inv.
Qed.

Lemma run_inv (sched : list (Q * event)) (w : World) : inv w -> inv (run sched w).
Proof.
  revert w. induction sched as [| [now e] sched IH]; intros w H; [exact H |].
  cbn [run]. apply IH. now apply step_inv.
Qed.

Lemma inv_empty_world : inv empty_world.
Proof. intros t k Ht. discriminate Ht. Qed.

(** C4 fails on the code (a defect of the code).  In every state the event
    loop can reach from the empty cog: when the timer task of a duel
    resumes from its display update with the 30 seconds elapsed and a move
    slot empty, it is the duel's own [round_task], so the
    [_cancel_round_timer] at the head of [_resolve_round] cancels the task
    that is running and [CancelledError] ends it at the announcement that
    precedes the forfeit.  No counter changes, the slots are not cleared,
    and no next round is started (the task is done, none is created);
    only [round_task] is reset. *)
Theorem timer_forfeit_never_applied (sched : list (Q * event)) (t : nat) (gid : Z)
    (st : nat) (s : DuelState) (elapsed now : Q) :
  let w := run sched empty_world in
  tasks w !! t = Some (TWaiting (KLoopPosted gid st elapsed)) ->
  heap w !! st = Some s ->
  Qle_bool 30 elapsed = true ->
  is_none (ch_move s) || is_none (op_move s) = true ->
  let w' := run_task t now w in
  heap w' = <[st := set_round_task None s]> (heap w) /\
  (counters <$> heap w' !! st) = Some (counters s) /\
  slots st w' = Some (ch_move s, op_move s) /\
  tasks w' = <[t := TDone]> (tasks w) /\
  duels w' = duels w /\
  ledger w' = ledger w.
Proof.
  intros w Ht Hh Hel Hempty w'.
  assert (Hinv : inv w) by (apply run_inv, inv_empty_world).
  destruct (Hinv t _ Ht st eq_refl) as (s' & Hs' & Hown).
  assert (s' = s) by congruence. subst s'. specialize (Hown eq_refl).
  destruct (timer_path_cancels_itself t gid st s elapsed now w Ht Hh Hown Hel Hempty)
    as (H1 & H2 & H3 & H4).
  fold w' in H1, H2, H3, H4.
  assert (Hst : heap w' !! st = Some (set_round_task None s)).
  { rewrite H1. apply list_lookup_insert_eq. now apply lookup_lt_Some in Hh. }
  repeat split; try assumption.
  - now rewrite Hst.
  - unfold slots. now rewrite Hst.
Qed.

Lemma timer_forfeit_never_applied_witness :
  let w := run opponent_silent empty_world in
  let w' := run_task 1 (329 # 10) w in
  exists s e,
    tasks w !! 1%nat = Some (TWaiting (KLoopPosted 1 0%nat e)) /\
    heap w !! 0%nat = Some s /\
    Qle_bool 30 e = true /\
    ch_move s = Some "strike" /\ op_move s = None /\
    (counters <$> heap w' !! 0%nat) = Some (counters s) /\
    slots 0 w' = Some (Some "strike", None) /\
    tasks w' = <[1%nat := TDone]> (tasks w).
Proof.
  intros w w'. do 2 eexists.
  split; [vm_compute; reflexivity |]. split; [vm_compute; reflexivity |].
  split; [reflexivity |]. split; [reflexivity |]. split; [reflexivity |].
  refine (let H := timer_forfeit_never_applied opponent_silent 1 1 0 _ _ (329 # 10)
                     _ _ _ _ in
          conj (proj1 (proj2 H))
            (conj (proj1 (proj2 (proj2 H))) (proj1 (proj2 (proj2 (proj2 H))))));
    vm_compute; reflexivity.
Defined.

(** The state the silent opponent leaves behind: the duel is still
    registered and active with full health on both sides, the challenger's
    move still sits in its slot, and no task is left to end the round. *)
Lemma silent_round_left_hanging :
  let w := run (opponent_silent ++ [((329 # 10)%Q, EResume 1%nat)]) empty_world in
  duels w = [(1, 0%nat)] /\
  hp 0 w = Some (3, 3) /\
  slots 0 w = Some (Some "strike", None) /\
  tasks w = [TDone; TDone; TDone].
Proof. vm_compute. repeat split; reflexivity. Qed.

(** What the forfeit branch of [_resolve_round] does when the task running
    it is not cancelled: the loss is applied, the slots are cleared and,
    the duel not being over, the next round is started. *)
Lemma forfeit_branch_when_reached (gid : Z) (st : nat) (s : DuelState)
    (challenger_missing : bool) (now : Q) (w : World) :
  heap w !! st = Some s ->
  winner_loser (clear_moves (apply_forfeit challenger_missing s)) = None ->
  exec (KForfeitAnnounced gid st challenger_missing) now w
  = (upd st (fun s => set_round_started_at now (clear_moves s))
       (upd st (fun s => clear_moves (apply_forfeit challenger_missing s)) w),
     Some (KStartRoundAnnounced gid st)).
Proof.
  intros Hh Hw. cbn [exec]. unfold resolve_round_forfeit, end_or_next_round, check_duel_end.
  unfold upd at 1. cbn [heap set_heap]. rewrite list_lookup_alter_eq, Hh.
  cbn [fmap option_fmap option_map]. rewrite Hw. reflexivity.
Qed.

(** The loss a forfeit stands for: in hp mode the side that did not move
    loses a health point, in bo3 mode the other side gains a round win. *)
Lemma apply_forfeit_counters (challenger_missing : bool) (s : DuelState) :
  counters (apply_forfeit challenger_missing s)
  = match challenger_missing, String.eqb (mode s) "bo3" with
    | true, true => (ch_hp s, op_hp s, ch_wins s, op_wins s + 1)
    | true, false => (ch_hp s - 1, op_hp s, ch_wins s, op_wins s)
    | false, true => (ch_hp s, op_hp s, ch_wins s + 1, op_wins s)
    | false, false => (ch_hp s, op_hp s - 1, ch_wins s, op_wins s)
    end.
Proof.
  unfold apply_forfeit, counters.
  destruct challenger_missing, (String.eqb (mode s) "bo3"); reflexivity.
Qed.

(** *** Ending a duel *)

(** C8 fails on the code (a defect of the code).  [dueldecline] does not
    look at [st.active] and never calls [_cancel_round_timer]: when the
    opponent declines a duel that is already running, the session leaves
    the registry while its round timer stays alive on the event loop, and
    the orphaned object still holds the handle. *)
Theorem decline_leaves_round_timer (ctx : Ctx) (gid : Z) (st : nat) (s : DuelState)
    (t : nat) (w : World) :
  ctx_guild ctx = Some gid ->
  dict_get gid (duels w) = Some st ->
  heap w !! st = Some s ->
  ctx_author ctx = opponent_id s ->
  round_task s = Some t ->
  alive (tasks w) t = true ->
  let w' := fst (dueldecline ctx w) in
  snd (dueldecline ctx w) = RDeclined /\
  duels w' = dict_pop gid (duels w) /\
  heap w' !! st = Some s /\
  alive (tasks w') t = true.
Proof.
  intros Hg Hd Hh Ha Hrt Hal w'. subst w'.
  unfold dueldecline. rewrite Hg, Hd, Hh, Ha, Z.eqb_refl. cbn [negb fst snd].
  repeat split; assumption.
Qed.

(** The duel of the opening, declined by the opponent in its first round. *)
Lemma decline_leaves_round_timer_witness :
  let w := run (opening None) empty_world in
  let w' := fst (dueldecline opponent_ctx w) in
  exists s,
    heap w !! 0%nat = Some s /\ active s = true /\ round_task s = Some 1%nat /\
    alive (tasks w) 1 = true /\
    dict_get 1 (duels w') = None /\
    alive (tasks w') 1 = true.
Proof.
  intros w w'. eexists.
  split; [vm_compute; reflexivity |]. split; [reflexivity |]. split; [reflexivity |].
  split; [reflexivity |]. split; [vm_compute; reflexivity |].
  refine (proj2 (proj2 (proj2
            (decline_leaves_round_timer opponent_ctx 1 0%nat _ 1%nat w _ _ _ _ _ _))));
    vm_compute; reflexivity.
Defined.

(** The sibling command does cancel: after [duelcancel] by a participant
    the round timer is no longer alive. *)
Lemma cancel_stops_round_timer (ctx : Ctx) (gid : Z) (st : nat) (s : DuelState)
    (t : nat) (w : World) :
  ctx_guild ctx = Some gid ->
  dict_get gid (duels w) = Some st ->
  heap w !! st = Some s ->
  (ctx_author ctx =? challenger_id s)%Z || (ctx_author ctx =? opponent_id s)%Z = true ->
  round_task s = Some t ->
  let w' := fst (duelcancel ctx w) in
  snd (duelcancel ctx w) = RCanceled /\
  duels w' = dict_pop gid (duels w) /\
  alive (tasks w') t = false.
Proof.
  intros Hg Hd Hh Ha Hrt w'. subst w'.
  unfold duelcancel. rewrite Hg, Hd, Hh, Ha. cbn [negb fst snd].
  unfold cancel_round_timer. cbn [heap set_duels]. rewrite Hh, Hrt.
  split; [reflexivity |]. split; [reflexivity |].
  unfold alive, cancel, done. cbn [tasks set_tasks upd set_heap set_duels].
  destruct (tasks w !! t) as [[]|] eqn:E; cbn; rewrite ?E; try reflexivity;
    rewrite list_lookup_insert_eq by (apply lookup_lt_Some in E; exact E);
    reflexivity.
Qed.

Lemma alter_as_insert {A : Type} (f : A -> A) (i : nat) (x : A) (l : list A) :
  l !! i = Some x -> alter f i l = <[i := f x]> l.
Proof.
  intros H. apply list_eq. intros j.
  pose proof (lookup_lt_Some _ _ _ H) as Hlt.
  destruct (decide (j = i)) as [-> | Hne].
  - now rewrite list_lookup_alter_eq, H, list_lookup_insert_eq.
  - now rewrite list_lookup_alter_ne, list_lookup_insert_ne by congruence.
Qed.

Lemma find_duel_none (author : Z) (h : list DuelState) (d : list (Z * nat)) :
  find_duel author h d = None -> Forall (fun e => joins author h e = false) d.
Proof.
  induction d as [| [gid st] d IH]; intros H; [constructor |].
  cbn [find_duel] in H. unfold joins at 1.
  destruct (h !! st) as [s|] eqn:Hs.
  - fold (participates author s) in H.
    destruct (participates author s) eqn:Hp; [discriminate |].
    constructor; [unfold joins; cbn [snd]; now rewrite Hs | now apply IH].
  - constructor; [unfold joins; cbn [snd]; now rewrite Hs | now apply IH].
Qed.

Lemma find_duel_first (author : Z) (h : list DuelState) (d : list (Z * nat))
    (gid : Z) (st : nat) :
  find_duel author h d = Some (gid, st) ->
  (exists pre post,
      d = (pre ++ (gid, st) :: post)%list /\
      Forall (fun e => joins author h e = false) pre) /\
  exists s, h !! st = Some s /\ participates author s = true.
Proof.
  induction d as [| [g x] d IH]; intros H; [discriminate |].
  cbn [find_duel] in H.
  destruct (h !! x) as [s|] eqn:Hs.
  - fold (participates author s) in H.
    destruct (participates author s) eqn:Hp.
    + injection H as -> ->. split; [exists [], d; split; [reflexivity | constructor] |].
      exists s. now split.
    + destruct (IH H) as [(pre & post & -> & Hpre) Hex]. split; [| exact Hex].
      exists ((g, x) :: pre), post. split; [reflexivity |].
      constructor; [unfold joins; cbn [snd]; now rewrite Hs | exact Hpre].
  - destruct (IH H) as [(pre & post & -> & Hpre) Hex]. split; [| exact Hex].
    exists ((g, x) :: pre), post. split; [reflexivity |].
    constructor; [unfold joins; cbn [snd]; now rewrite Hs | exact Hpre].
Qed.

(** C10, amended.  A valid move sent by direct message is routed to the
    first entry of [self.duels], in iteration order over all guilds, whose
    duel is active and has the sender as challenger or opponent.  No other
    duel is ever tried: if the sender's slot in that duel is empty the move
    is stored there and nothing else changes; if it is already filled the
    message is refused and nothing changes at all, even when the sender
    has another active duel with an empty slot; if there is no such entry
    the message is refused. *)
Theorem dm_move_goes_to_first_duel (m : Message) (raw : string) (w : World) :
  msg_author_bot m = false ->
  msg_guild m = None ->
  raw_move (msg_content m) = Some raw ->
  is_move (strip_move raw) = true ->
  let who := msg_author m in
  let w' := fst (on_message m w) in
  let r := snd (on_message m w) in
  match find_duel who (heap w) (duels w) with
  | None =>
      Forall (fun e => joins who (heap w) e = false) (duels w) /\
      w' = w /\ r = RNoActiveDuel
  | Some (gid, st) =>
      (exists pre post,
          duels w = (pre ++ (gid, st) :: post)%list /\
          Forall (fun e => joins who (heap w) e = false) pre) /\
      exists s,
        heap w !! st = Some s /\ participates who s = true /\
        match slot_of who s with
        | Some _ => w' = w /\ r = RAlreadySubmitted
        | None =>
            r = RMoveReceived /\
            duels w' = duels w /\
            ledger w' = ledger w /\
            heap w' = <[st := set_slot who (Some (strip_move raw)) s]> (heap w)
        end
  end.
Proof.
  intros Hbot Hdm Hraw Hmove who w' r. subst who w' r.
  unfold on_message. rewrite Hbot, Hdm, Hraw, Hmove. cbn [is_none negb].
  destruct (find_duel (msg_author m) (heap w) (duels w)) as [[gid st]|] eqn:Hf.
  - destruct (find_duel_first _ _ _ _ _ Hf) as [Hfirst (s & Hs & Hp)].
    split; [exact Hfirst |]. exists s. split; [exact Hs |]. split; [exact Hp |].
    rewrite Hs. unfold slot_of, set_slot.
    destruct (msg_author m =? challenger_id s)%Z.
    + destruct (ch_move s); cbn [is_none negb fst snd]; [now split |].
      repeat split. unfold suspend_at, upd. cbn [heap set_tasks set_heap].
      now apply alter_as_insert.
    + destruct (op_move s); cbn [is_none negb fst snd]; [now split |].
      repeat split. unfold suspend_at, upd. cbn [heap set_tasks set_heap].
      now apply alter_as_insert.
  - split; [now apply find_duel_none | now split].
Qed.

(** C10 as stated fails: user 10 takes part in the active duels of two
    guilds and has already moved in the first; a further move is refused
    there and is stored in neither duel, although the slot in the second
    duel is empty. *)
Lemma second_move_recorded_nowhere :
  ~ (forall m raw w,
       msg_author_bot m = false -> msg_guild m = None ->
       raw_move (msg_content m) = Some raw -> is_move (strip_move raw) = true ->
       (exists e1 e2,
           In e1 (duels w) /\ In e2 (duels w) /\ fst e1 <> fst e2 /\
           joins (msg_author m) (heap w) e1 = true /\
           joins (msg_author m) (heap w) e2 = true) ->
       exists e,
         In e (duels w) /\
         takes_move (msg_author m) w (fst (on_message m w)) e /\
         forall e', In e' (duels w) ->
           takes_move (msg_author m) w (fst (on_message m w)) e' -> e' = e).
Proof.
  intros H.
  specialize (H (dm 10 "move guard") "guard" (run two_duels empty_world)
                eq_refl eq_refl eq_refl eq_refl).
  destruct H as (e & _ & (s & s' & Hs & Hs' & Hne) & _).
  - exists (1, 0%nat), (2, 1%nat).
    split; [vm_compute; auto |]. split; [vm_compute; auto |].
    split; [discriminate |]. split; reflexivity.
  - assert (Hsame : fst (on_message (dm 10 "move guard") (run two_duels empty_world))
                    = run two_duels empty_world) by (vm_compute; reflexivity).
    rewrite Hsame in Hs'. congruence.
Qed.

Lemma dm_move_goes_to_first_duel_witness :
  let w := run two_duels empty_world in
  let m := dm 10 "move guard" in
  raw_move (msg_content m) = Some "guard" /\
  is_move (strip_move "guard") = true /\
  find_duel 10 (heap w) (duels w) = Some (1, 0%nat) /\
  slots 1 w = Some (None, None) /\
  fst (on_message m w) = w /\
  snd (on_message m w) = RAlreadySubmitted.
Proof.
  intros w m. split; [reflexivity |]. split; [reflexivity |].
  split; [vm_compute; reflexivity |]. split; [vm_compute; reflexivity |].
  pose proof (dm_move_goes_to_first_duel m "guard" w eq_refl eq_refl eq_refl eq_refl) as H.
  cbv zeta in H.
  change (find_duel (msg_author m) (heap w) (duels w))
    with (find_duel 10 (heap w) (duels w)) in H.
  replace (find_duel 10 (heap w) (duels w)) with (Some (1, 0%nat)) in H
    by (vm_compute; reflexivity).
  destruct H as [_ (s & Hs & _ & H)].
  change (slot_of (msg_author m) s) with (slot_of 10 s) in H.
  assert (Hslot : slot_of 10 s = Some "strike").
  { assert (E : (slot_of 10 <$> heap w !! 0%nat) = Some (Some "strike"))
      by (vm_compute; reflexivity).
    rewrite Hs in E. now injection E. }
  rewrite Hslot in H. exact H.
Defined.

(** *** The registry keeps one duel per guild *)

Lemma dict_pop_keys {V : Type} (k x : Z) (d : list (Z * V)) :
  x ∈ (dict_pop k d).*1 -> x ∈ d.*1.
Proof.
  induction d as [| [k' v] d IH]; cbn [dict_pop]; [easy |].
  destruct (decide (k = k')); cbn [fmap list_fmap fst];
    rewrite ?elem_of_cons; intuition.
Qed.

Lemma dict_pop_NoDup {V : Type} (k : Z) (d : list (Z * V)) :
  NoDup d.*1 -> NoDup (dict_pop k d).*1.
Proof.
  induction d as [| [k' v] d IH]; cbn [dict_pop]; [easy |].
  cbn [fmap list_fmap fst]. rewrite NoDup_cons. intros [Hnotin Hnd].
  destruct (decide (k = k')); [exact Hnd |].
  cbn [fmap list_fmap fst]. rewrite NoDup_cons. split; [| now apply IH].
  intros Hin. apply Hnotin. now apply dict_pop_keys in Hin.
Qed.

Lemma dict_set_keys {V : Type} (k x : Z) (v : V) (d : list (Z * V)) :
  x ∈ (dict_set k v d).*1 -> x = k \/ x ∈ d.*1.
Proof.
  induction d as [| [k' v'] d IH]; cbn [dict_set].
  - cbn [fmap list_fmap fst]. rewrite elem_of_cons. intuition.
  - destruct (decide (k = k')) as [-> | Hne]; cbn [fmap list_fmap fst];
      rewrite !elem_of_cons; intuition.
Qed.

Lemma dict_set_NoDup {V : Type} (k : Z) (v : V) (d : list (Z * V)) :
  NoDup d.*1 -> NoDup (dict_set k v d).*1.
Proof.
  induction d as [| [k' v'] d IH]; cbn [dict_set].
  - intros _. cbn [fmap list_fmap fst]. apply NoDup_singleton.
  - cbn [fmap list_fmap fst]. rewrite NoDup_cons. intros [Hnotin Hnd].
    destruct (decide (k = k')) as [-> | Hne]; cbn [fmap list_fmap fst];
      rewrite NoDup_cons.
    + now split.
    + split; [| now apply IH].
      intros Hin. apply dict_set_keys in Hin as [-> | Hin]; [congruence | easy].
Qed.

Lemma duels_cancel_round_timer (st : nat) (w : World) :
  duels (cancel_round_timer st w) = duels w.
Proof. unfold cancel_round_timer. now destruct (heap w !! st). Qed.

Lemma registry_change_NoDup (d d' : list (Z * nat)) :
  registry_change d d' -> NoDup d.*1 -> NoDup d'.*1.
Proof.
  intros [| k | k v] H; [exact H | now apply dict_pop_NoDup | now apply dict_set_NoDup].
Qed.

Lemma check_duel_end_registry (gid : Z) (st : nat) (w : World) :
  registry_change (duels w) (duels (fst (check_duel_end gid st w))).
Proof.
  unfold check_duel_end. destruct (heap w !! st) as [s|]; [| constructor].
  destruct (winner_loser s) as [[wi lo]|]; [| constructor].
  cbn [fst duels set_ledger]. rewrite duels_cancel_round_timer. constructor.
Qed.

Lemma end_or_next_round_registry (gid : Z) (st : nat) (now : Q) (w : World) :
  registry_change (duels w) (duels (fst (end_or_next_round gid st now w))).
Proof.
  unfold end_or_next_round.
  pose proof (check_duel_end_registry gid st w) as H.
  destruct (check_duel_end gid st w) as [w1 [|]]; exact H.
Qed.

Lemma resolve_round_begin_registry (gid : Z) (st : nat) (forced : bool) (w : World) :
  duels (fst (resolve_round_begin gid st forced w)) = duels w.
Proof.
  unfold resolve_round_begin.
  destruct (heap (cancel_round_timer st w) !! st) as [s|];
    [| apply duels_cancel_round_timer].
  destruct (forced && (is_none (ch_move s) || is_none (op_move s))).
  - destruct (is_none (ch_move s) && is_none (op_move s));
      [| destruct (is_none (ch_move s))]; apply duels_cancel_round_timer.
  - destruct (ch_move s) as [a|], (op_move s) as [b|];
      try apply duels_cancel_round_timer.
    destruct (duel_resolve a b); apply duels_cancel_round_timer.
Qed.

Lemma exec_registry (k : cont) (now : Q) (w : World) :
  registry_change (duels w) (duels (fst (exec k now w))).
Proof.
  destruct k as [gid st | gid st | gid st | gid st | gid st cm | gid st o | | gid st | gid st e];
    cbn [exec].
  - constructor.
  - unfold start_round_finish.
    destruct (create_task _ _) as [ts t] eqn:E. cbn [fst duels upd set_heap set_tasks].
    rewrite duels_cancel_round_timer. constructor.
  - destruct (both_moves st w); [| constructor].
    rewrite resolve_round_begin_registry. constructor.
  - constructor.
  - apply (end_or_next_round_registry gid st now
             (upd st (fun s => clear_moves (apply_forfeit cm s)) w)).
  - apply (end_or_next_round_registry gid st now
             (upd st (fun s => clear_moves (apply_outcome o s)) w)).
  - constructor.
  - destruct (heap w !! st); constructor.
  - destruct (both_moves st w); [rewrite resolve_round_begin_registry; constructor |].
    destruct (Qle_bool 30 e); [rewrite resolve_round_begin_registry |]; constructor.
Qed.

Lemma step_registry (now : Q) (e : event) (w : World) :
  registry_change (duels w) (duels (step now e w)).
Proof.
  destruct e as [m | ctx opp md | ctx | ctx | ctx | t]; cbn [step].
  - unfold on_message.
    destruct (msg_author_bot m); [constructor |].
    destruct (negb (is_none (msg_guild m))); [constructor |].
    destruct (raw_move (msg_content m)) as [raw|]; [| constructor].
    destruct (negb (is_move (strip_move raw))); [constructor |].
    destruct (find_duel _ _ _) as [[gid st]|]; [| constructor].
    destruct (heap w !! st) as [s|]; [| constructor].
    destruct (msg_author m =? challenger_id s)%Z;
      [destruct (negb (is_none (ch_move s))) | destruct (negb (is_none (op_move s)))];
      constructor.
  - unfold duel.
    destruct (ctx_guild ctx) as [gid|]; [| constructor].
    destruct opp as [opp|]; [| constructor].
    destruct (member_bot opp); [constructor |].
    destruct (member_id opp =? ctx_author ctx)%Z; [constructor |].
    destruct (duel_in_the_way gid now w); constructor.
  - unfold duelaccept.
    destruct (ctx_guild ctx) as [gid|]; [| constructor].
    destruct (dict_get gid (duels w)) as [st|]; [| constructor].
    destruct (heap w !! st) as [s|]; [| constructor].
    destruct (active s); [constructor |].
    destruct (duel_expired now s); [constructor |].
    destruct (negb (ctx_author ctx =? opponent_id s)%Z); constructor.
  - unfold dueldecline.
    destruct (ctx_guild ctx) as [gid|]; [| constructor].
    destruct (dict_get gid (duels w)) as [st|]; [| constructor].
    destruct (heap w !! st) as [s|]; [| constructor].
    destruct (negb (ctx_author ctx =? opponent_id s)%Z); constructor.
  - unfold duelcancel.
    destruct (ctx_guild ctx) as [gid|]; [| constructor].
    destruct (dict_get gid (duels w)) as [st|]; [| constructor].
    destruct (heap w !! st) as [s|]; [| constructor].
    destruct (negb _); [constructor |].
    cbn [fst]. rewrite duels_cancel_round_timer. constructor.
  - unfold run_task.
    destruct (tasks w !! t) as [[k | | |]|]; try constructor.
    pose proof (exec_registry k now (set_tasks (<[t := TRunning]> (tasks w)) w)) as H.
    destruct (exec k now _) as [w1 r]. cbn [fst] in H.
    destruct r as [k'|]; [destruct (tasks w1 !! t) as [[]|] |]; exact H.
Qed.

(** In every state the event loop can reach, [self.duels] has at most one
    entry per guild. *)
Lemma run_one_duel_per_guild (sched : list (Q * event)) (w : World) :
  NoDup (duels w).*1 -> NoDup (duels (run sched w)).*1.
Proof.
  revert w. induction sched as [| [now e] sched IH]; intros w H; [exact H |].
  cbn [run]. apply IH. exact (registry_change_NoDup _ _ (step_registry now e w) H).
Qed.

End DuelFacts.

(** ** Starting a session while one is live *)

Module RegistryFacts.

Import PyDict Discord Asyncio RegistryTerms.

Local Open Scope Z_scope.

(** C2 as stated fails for two of the three kinds: a second [foodgame]
    and a second [battle start] in a guild whose session is live are not
    rejected; the registry entry is replaced by a new session. *)
Lemma second_start_replaces_session :
  ~ (forall ctx rounds now rnd w gid st s,
       ctx_guild ctx = Some gid -> Food.current gid w = Some (st, s) ->
       Food.active s = true ->
       Food.current gid (fst (Food.foodgame ctx rounds now rnd w)) = Some (st, s))
  /\
  ~ (forall ctx n seconds shuffled w gid st s,
       ctx_guild ctx = Some gid -> Battle.current gid w = Some (st, s) ->
       Battle.active s = true ->
       Battle.current gid
         (fst (Battle.battle_cmd ctx (Some "start"%string) n seconds shuffled w))
       = Some (st, s)).
Proof.
  split; intros H.
  - assert (Hc : exists s, Food.current 1 food_running = Some (0%nat, s)
                           /\ Food.active s = true).
    { eexists. split; vm_compute; reflexivity. }
    destruct Hc as (s & Hc & Ha).
    specialize (H guild1 None 5%Q 1%nat food_running 1 0%nat s eq_refl Hc Ha).
    assert (Hn : fst <$> Food.current 1 (fst (Food.foodgame guild1 None 5%Q 1%nat food_running))
                 = Some 1%nat) by (vm_compute; reflexivity).
    rewrite H in Hn. discriminate Hn.
  - assert (Hc : exists s, Battle.current 1 battle_running = Some (0%nat, s)
                           /\ Battle.active s = true).
    { eexists. split; vm_compute; reflexivity. }
    destruct Hc as (s & Hc & Ha).
    specialize (H guild1 None None Battle.CULTURE_Q battle_running 1 0%nat s eq_refl Hc Ha).
    assert (Hn : fst <$> Battle.current 1
                   (fst (Battle.battle_cmd guild1 (Some "start"%string) None None
                           Battle.CULTURE_Q battle_running))
                 = Some 1%nat) by (vm_compute; reflexivity).
    rewrite H in Hn. discriminate Hn.
Qed.

Lemma heap_cancel_food_timer_length (st : nat) (w : Food.World) :
  length (Food.heap (Food.cancel_food_timer st w)) = length (Food.heap w).
Proof.
  unfold Food.cancel_food_timer. destruct (Food.heap w !! st); [| reflexivity].
  cbn. apply length_alter.
Qed.

Lemma food_bank_draw (rnd : nat) :
  exists em ans, Food.FOOD_BANK !! (rnd mod length Food.FOOD_BANK)%nat = Some (em, ans).
Proof.
  assert (H : (rnd mod length Food.FOOD_BANK < length Food.FOOD_BANK)%nat)
    by (apply Nat.mod_upper_bound; discriminate).
  apply lookup_lt_is_Some in H. destruct H as [[em ans] H]. eauto.
Qed.

(** A task whose cancellation was requested is no longer alive, nor is it
    revived by tasks created afterwards. *)
Lemma cancel_not_alive {K : Type} (t : nat) (ts : list (tstatus K)) (k : K) :
  alive ts t = true -> alive (cancel (Some t) ts ++ [TWaiting k]) t = false.
Proof.
  unfold alive, cancel, done. intros H.
  destruct (ts !! t) as [x|] eqn:E; [| discriminate].
  pose proof (lookup_lt_Some _ _ _ E) as Hlt.
  destruct x; try discriminate;
    rewrite lookup_app_l by (rewrite length_insert; exact Hlt);
    now rewrite list_lookup_insert_eq.
Qed.

Lemma foodgame_replaces (ctx : Ctx) (gid : Z) (rounds : option Z) (now : Q)
    (rnd : nat) (w : Food.World) :
  ctx_guild ctx = Some gid ->
  let w' := fst (Food.foodgame ctx rounds now rnd w) in
  (exists s',
      Food.current gid w' = Some (length (Food.heap w), s') /\
      Food.active s' = true /\ Food.round_index s' = 1 /\
      Food.hints_used s' = 0 /\ Food.started_at s' = now) /\
  (forall st s t,
      Food.current gid w = Some (st, s) -> Food.active s = true ->
      Food.timer_task s = Some t -> alive (Food.tasks w) t = true ->
      alive (Food.tasks w') t = false).
Proof.
  intros Hg w'. subst w'. unfold Food.foodgame. rewrite Hg.
  destruct (food_bank_draw rnd) as (em & ans & Hdraw).
  unfold Food.start_next_food_round. rewrite Hdraw. cbn [fst].
  split.
  - set (w1 := match Food.current gid w with
               | Some (st, s) => if Food.active s then Food.cancel_food_timer st w else w
               | None => w
               end).
    assert (Hlen : length (Food.heap w1) = length (Food.heap w)).
    { subst w1. destruct (Food.current gid w) as [[st s]|]; [| reflexivity].
      destruct (Food.active s); [apply heap_cancel_food_timer_length | reflexivity]. }
    eexists. split.
    + unfold Food.current, Food.suspend_at.
      cbn [Food.food Food.heap Food.set_tasks Food.set_food Food.set_heap].
      rewrite lookup_insert_eq, <- Hlen, list_lookup_middle by reflexivity.
      reflexivity.
    + repeat split; reflexivity.
  - intros st s t Hc Ha Ht Hal. rewrite Hc, Ha.
    unfold Food.suspend_at, create_task.
    cbn [fst Food.tasks Food.set_tasks Food.set_food Food.set_heap].
    unfold Food.cancel_food_timer.
    assert (Hh : Food.heap w !! st = Some s).
    { unfold Food.current in Hc. destruct (Food.food w !! gid); [| discriminate].
      destruct (Food.heap w !! n) eqn:E; [| discriminate]. now injection Hc as -> ->. }
    rewrite Hh, Ht. cbn [Food.tasks Food.set_tasks Food.upd Food.set_heap].
    now apply cancel_not_alive.
Qed.

Lemma battle_start_replaces (ctx : Ctx) (gid : Z) (action : option string)
    (n seconds : option Z) (shuffled : list (string * string)) (w : Battle.World) :
  ctx_guild ctx = Some gid ->
  PyStr.strip (PyStr.lower (default EmptyString action)) = "start"%string ->
  exists s',
    Battle.current gid (fst (Battle.battle_cmd ctx action n seconds shuffled w))
    = Some (length (Battle.heap w), s') /\
    Battle.active s' = true /\ Battle.current_q s' = None /\
    Battle.accepting s' = false.
Proof.
  intros Hg Hact. unfold Battle.battle_cmd. rewrite Hg, Hact. cbn [String.eqb Ascii.eqb Bool.eqb andb fst].
  eexists. split.
  - unfold Battle.current, Battle.suspend_at.
    cbn [Battle.battle Battle.heap Battle.set_tasks Battle.set_battle Battle.set_heap].
    rewrite lookup_insert_eq, list_lookup_middle by reflexivity. reflexivity.
  - repeat split; reflexivity.
Qed.

Lemma duel_refused (ctx : Ctx) (gid : Z) (now : Q) (opponent : option Member)
    (mode_arg : option string) (w : Duel.World) (st : nat) (s : Duel.DuelState) :
  ctx_guild ctx = Some gid ->
  dict_get gid (Duel.duels w) = Some st -> Duel.heap w !! st = Some s ->
  Duel.active s = true \/ Duel.duel_expired now s = false ->
  fst (Duel.duel ctx opponent mode_arg now w) = w /\
  snd (Duel.duel ctx opponent mode_arg now w) <> Duel.RChallenge.
Proof.
  intros Hg Hd Hh Hlive. unfold Duel.duel. rewrite Hg.
  destruct opponent as [opp|]; [| now split].
  destruct (member_bot opp); [now split |].
  destruct (member_id opp =? ctx_author ctx); [now split |].
  assert (Hway : Duel.duel_in_the_way gid now w = true).
  { unfold Duel.duel_in_the_way. rewrite Hd, Hh.
    destruct Hlive as [-> | ->]; [reflexivity | apply orb_true_r]. }
  rewrite Hway. now split.
Qed.

(** C2, amended.  Of the three start commands only [duel] refuses a second
    session: invoked in a guild whose registered duel is active, or was
    created no more than 120 seconds ago, it is rejected and changes
    nothing.  [foodgame] is never rejected: it cancels the timer of the
    live round and registers a new first round in its place.  [battle
    start] is never rejected either: it registers a new battle in place of
    whatever was registered.  Each registry is keyed by guild, so none
    ever holds two sessions of its kind for one guild ([self.food] and
    [self.battle] are finite maps; for [self.duels] the keys stay distinct
    along every run of the event loop). *)
Theorem only_duel_start_is_exclusive (ctx : Ctx) (gid : Z) (now : Q) :
  ctx_guild ctx = Some gid ->
  (forall opponent mode_arg w st s,
      dict_get gid (Duel.duels w) = Some st -> Duel.heap w !! st = Some s ->
      Duel.active s = true \/ Duel.duel_expired now s = false ->
      fst (Duel.duel ctx opponent mode_arg now w) = w /\
      snd (Duel.duel ctx opponent mode_arg now w) <> Duel.RChallenge)
  /\
  (forall rounds rnd w,
      let w' := fst (Food.foodgame ctx rounds now rnd w) in
      (exists s',
          Food.current gid w' = Some (length (Food.heap w), s') /\
          Food.active s' = true /\ Food.round_index s' = 1 /\
          Food.hints_used s' = 0 /\ Food.started_at s' = now) /\
      (forall st s t,
          Food.current gid w = Some (st, s) -> Food.active s = true ->
          Food.timer_task s = Some t -> alive (Food.tasks w) t = true ->
          alive (Food.tasks w') t = false))
  /\
  (forall action n seconds shuffled w,
      PyStr.strip (PyStr.lower (default EmptyString action)) = "start"%string ->
      exists s',
        Battle.current gid (fst (Battle.battle_cmd ctx action n seconds shuffled w))
        = Some (length (Battle.heap w), s') /\
        Battle.active s' = true /\ Battle.current_q s' = None /\
        Battle.accepting s' = false)
  /\
  (forall sched, NoDup (Duel.duels (Duel.run sched Duel.empty_world)).*1).
Proof.
  intros Hg. split; [| split; [| split]].
  - intros opponent mode_arg w st s. now apply duel_refused.
  - intros rounds rnd w. now apply foodgame_replaces.
  - intros action n seconds shuffled w. now apply battle_start_replaces.
  - intros sched. apply DuelFacts.run_one_duel_per_guild. constructor.
Qed.

(** In guild 1: a second challenge during the first round of the running
    duel; a second [foodgame] five seconds into a round. *)
Lemma only_duel_start_is_exclusive_witness :
  let w := Duel.run (DuelTerms.opening None) Duel.empty_world in
  let other := Some {| member_id := 30; member_bot := false |} in
  ctx_guild guild1 = Some 1 /\
  dict_get 1 (Duel.duels w) = Some 0%nat /\
  Duel.duel guild1 other None 5%Q w = (w, Duel.RAlreadyPending) /\
  alive (Food.tasks food_running) 1 = true /\
  alive (Food.tasks (fst (Food.foodgame guild1 None 5%Q 1%nat food_running))) 1 = false.
Proof.
  intros w other.
  pose proof (only_duel_start_is_exclusive guild1 1 5%Q eq_refl) as (Hd & Hf & _ & _).
  split; [reflexivity |]. split; [vm_compute; reflexivity |].
  assert (Hs : exists s, Duel.heap w !! 0%nat = Some s /\ Duel.active s = true).
  { eexists. split; vm_compute; reflexivity. }
  destruct Hs as (s & Hs & Ha).
  assert (Hget : dict_get 1 (Duel.duels w) = Some 0%nat) by (vm_compute; reflexivity).
  destruct (Hd other None w 0%nat s Hget Hs (or_introl Ha)) as [H1 H2].
  split.
  - assert (Hr : snd (Duel.duel guild1 other None 5%Q w) = Duel.RAlreadyPending)
      by (vm_compute; reflexivity).
    apply injective_projections; [exact H1 | exact Hr].
  - split; [vm_compute; reflexivity |].
    destruct (Hf None 1%nat food_running) as [_ Hcancel].
    assert (Hc : exists s', Food.current 1 food_running = Some (0%nat, s')
                            /\ Food.active s' = true /\ Food.timer_task s' = Some 1%nat).
    { eexists. repeat split; vm_compute; reflexivity. }
    destruct Hc as (s' & Hc & Ha' & Ht').
    apply (Hcancel 0%nat s' 1%nat Hc Ha' Ht'). vm_compute. reflexivity.
Defined.

End RegistryFacts.

(** ** Rank titles *)

Module RankFacts.

Import Ranks RankTerms.

Local Open Scope Z_scope.

(** X1.  [rank_title] gives the title of the highest threshold that the
    points reach: the threshold of the title returned is at most the
    points, and no threshold of the table lies strictly between it and the
    points.  Below the lowest threshold (negative points) the lowest title
    is returned. *)
Theorem rank_title_highest_reached (points : Z) :
  exists threshold name,
    In (threshold, name) RANKS /\ rank_title points = name /\
    (points < 0 -> threshold = 0) /\
    (0 <= points ->
       threshold <= points /\
       forall threshold' name',
         In (threshold', name') RANKS -> threshold' <= points -> threshold' <= threshold).
Proof.
  unfold rank_title. cbn [RANKS rank_scan].
  repeat match goal with
         | |- context [(?a <=? points)%Z] => destruct (Z.leb_spec a points)
         end;
    (eexists _, _; (split; [| split; [reflexivity |]]);
     [cbn; eauto 10
     | split; [intros; lia |]; intros Hp; split; [lia |];
       intros th' name' Hin Hle; cbn in Hin;
       repeat (destruct Hin as [[= <- <-] | Hin]; [lia |]); destruct Hin]).
Qed.

(** X2.  More points never give a lower tier. *)
Theorem rank_title_monotone (p q : Z) :
  p <= q -> (tier (rank_title p) <= tier (rank_title q))%nat.
Proof.
  intros Hpq. unfold rank_title. cbn [RANKS rank_scan].
  repeat match goal with
         | |- context [(?a <=? p)%Z] => destruct (Z.leb_spec a p)
         end;
    repeat match goal with
           | |- context [(?a <=? q)%Z] => destruct (Z.leb_spec a q)
           end;
    try lia; vm_compute; lia.
Qed.

Lemma rank_title_monotone_witness :
  9 <= 10 /\ (tier (rank_title 9) <= tier (rank_title 10))%nat /\
  tier (rank_title 9) = 0%nat /\ tier (rank_title 10) = 1%nat.
Proof.
  split; [lia |]. split; [apply (rank_title_monotone 9 10); lia |].
  split; reflexivity.
Defined.

End RankFacts.

(** ** The ledger, continued *)

Module LedgerFacts.

Import Scores.

Local Open Scope Z_scope.

(** X3.  [add_points] changes the score of exactly one user in exactly one
    guild, by exactly the points given; a user without an entry counts as
    having 0.  Every other score, in that guild and in every other guild,
    reads as before. *)
Theorem add_points_touches_one_score (g u pts g' u' : Z) (lb : gmap (Z * Z) Z) :
  get_points g' u' (add_points g u pts lb)
  = if decide ((g', u') = (g, u)) then get_points g u lb + pts
    else get_points g' u' lb.
Proof.
  unfold get_points, add_points. destruct (decide ((g', u') = (g, u))) as [[= -> ->] | Hne].
  - now rewrite lookup_insert_eq.
  - rewrite lookup_insert_ne by congruence. reflexivity.
Qed.


End LedgerFacts.

(** ** The leaderboard query *)

Module LeaderboardFacts.

Import Leaderboard LeaderboardTerms.

Local Open Scope Z_scope.

Lemma insert_desc_perm (x : Z * Z) (l : list (Z * Z)) :
  Permutation (x :: l) (insert_desc x l).
Proof.
  induction l as [| y r IH]; cbn [insert_desc]; [reflexivity |].
  destruct (snd y <=? snd x); [reflexivity |].
  rewrite perm_swap. now constructor.
Qed.

Lemma sort_desc_perm (l : list (Z * Z)) : Permutation l (sort_desc l).
Proof.
  induction l as [| x r IH]; cbn [sort_desc]; [reflexivity |].
  rewrite <- insert_desc_perm. now constructor.
Qed.

Lemma insert_desc_HdRel (a x : Z * Z) (l : list (Z * Z)) :
  HdRel score_ge a l -> score_ge a x -> HdRel score_ge a (insert_desc x l).
Proof.
  intros Hl Hx. destruct l as [| y r]; cbn [insert_desc]; [now constructor |].
  destruct (snd y <=? snd x); constructor; [exact Hx |].
  now inversion Hl.
Qed.

Lemma insert_desc_sorted (x : Z * Z) (l : list (Z * Z)) :
  Sorted score_ge l -> Sorted score_ge (insert_desc x l).
Proof.
  induction 1 as [| y r Hr IH Hhd]; cbn [insert_desc]; [repeat constructor |].
  destruct (Z.leb_spec (snd y) (snd x)) as [Hle | Hgt].
  - constructor; [now constructor |]. constructor. exact Hle.
  - constructor; [exact IH |]. apply insert_desc_HdRel; [exact Hhd |].
    unfold score_ge. lia.
Qed.

Lemma sort_desc_sorted (l : list (Z * Z)) : Sorted score_ge (sort_desc l).
Proof.
  induction l as [| x r IH]; cbn [sort_desc]; [constructor |].
  now apply insert_desc_sorted.
Qed.

Lemma score_ge_trans : Relations_1.Transitive score_ge.
Proof. intros a b c. unfold score_ge. lia. Qed.

Lemma strongly_sorted_app (a b : list (Z * Z)) :
  StronglySorted score_ge (a ++ b) ->
  StronglySorted score_ge a /\
  forall x y, In x a -> In y b -> score_ge x y.
Proof.
  induction a as [| h a IH]; cbn [app]; intros H.
  - split; [constructor | intros x y []].
  - inversion H as [| ? ? Hs Hall]; subst. destruct (IH Hs) as [IH1 IH2].
    rewrite Forall_app in Hall. destruct Hall as [Ha Hb].
    split; [now constructor |].
    intros x y [<- | Hx] Hy; [| now apply IH2].
    rewrite Forall_forall in Hb. apply Hb. now apply list_elem_of_In.
Qed.

Lemma insert_desc_with_score (k : Z) (x : Z * Z) (l : list (Z * Z)) :
  with_score k (insert_desc x l) = with_score k (x :: l).
Proof.
  induction l as [| y r IH]; cbn [insert_desc]; [reflexivity |].
  destruct (Z.leb_spec (snd y) (snd x)) as [Hle | Hgt]; [reflexivity |].
  unfold with_score in *. cbn [List.filter] in *. rewrite IH.
  destruct (Z.eqb_spec (snd x) k), (Z.eqb_spec (snd y) k); try reflexivity. lia.
Qed.

Lemma sort_desc_with_score (k : Z) (l : list (Z * Z)) :
  with_score k (sort_desc l) = with_score k l.
Proof.
  induction l as [| x r IH]; cbn [sort_desc]; [reflexivity |].
  rewrite insert_desc_with_score. unfold with_score in *. cbn [List.filter].
  now rewrite IH.
Qed.

Lemma top_points_prefix (items : list (Z * Z)) (limit : Z) :
  0 <= limit ->
  top_points items limit = firstn (Z.to_nat limit) (sort_desc items).
Proof.
  intros H. unfold top_points, py_prefix.
  destruct (Z.leb_spec 0 limit); [reflexivity | lia].
Qed.

(** X5.  For a limit that is not negative, [top_points] returns the
    highest scores first: the result holds min(limit, number of entries)
    entries of the guild, in descending order of score, and none of the
    entries left out scores higher than one that is listed. *)
Theorem top_points_highest_first (items : list (Z * Z)) (limit : Z) :
  0 <= limit ->
  let top := top_points items limit in
  length top = Nat.min (Z.to_nat limit) (length items) /\
  Sorted score_ge top /\
  exists rest,
    Permutation items (top ++ rest) /\
    forall x y, In x top -> In y rest -> snd y <= snd x.
Proof.
  intros Hl top. subst top. rewrite (top_points_prefix items limit Hl).
  set (n := Z.to_nat limit).
  pose proof (sort_desc_sorted items) as Hs.
  apply (Sorted_StronglySorted score_ge_trans) in Hs.
  rewrite <- (firstn_skipn n (sort_desc items)) in Hs.
  destruct (strongly_sorted_app _ _ Hs) as [Hs1 Htop].
  split; [| split].
  - rewrite length_firstn. now rewrite <- (Permutation_length (sort_desc_perm items)).
  - now apply StronglySorted_Sorted.
  - exists (skipn n (sort_desc items)). split; [| exact Htop].
    rewrite firstn_skipn. apply sort_desc_perm.
Qed.

Lemma top_points_highest_first_witness :
  let items := [(7, 3); (8, 12); (9, 3); (4, 20)] in
  0 <= 3 /\
  top_points items 3 = [(4, 20); (8, 12); (7, 3)] /\
  length (top_points items 3) = Nat.min 3 (length items) /\
  Sorted score_ge (top_points items 3).
Proof.
  intros items. split; [lia |]. split; [reflexivity |].
  pose proof (top_points_highest_first items 3 ltac:(lia)) as (H1 & H2 & _).
  split; [exact H1 | exact H2].
Defined.

(** X6.  Users with equal scores are listed in the order in which the
    file holds them: for every score, the listed entries with that score
    are the first ones, in file order, of the guild's entries with that
    score. *)
Theorem top_points_ties_in_file_order (items : list (Z * Z)) (limit k : Z) :
  0 <= limit ->
  exists rest,
    with_score k items = with_score k (top_points items limit) ++ rest.
Proof.
  intros Hl. rewrite (top_points_prefix items limit Hl).
  exists (with_score k (skipn (Z.to_nat limit) (sort_desc items))).
  unfold with_score. rewrite <- List.filter_app, firstn_skipn.
  symmetry. apply sort_desc_with_score.
Qed.

Lemma top_points_ties_in_file_order_witness :
  let items := [(7, 3); (8, 12); (9, 3); (4, 20)] in
  0 <= 3 /\
  with_score 3 (top_points items 3) = [(7, 3)] /\
  exists rest, with_score 3 items = with_score 3 (top_points items 3) ++ rest.
Proof.
  intros items. split; [lia |]. split; [reflexivity |].
  apply (top_points_ties_in_file_order items 3 3). lia.
Defined.

End LeaderboardFacts.

(** ** Answer normalization *)

Module NormFacts.

Import PyStr StringTerms Battle.

Lemma lower_char_not_upper (c : ascii) : is_upper (lower_char c) = false.
Proof. destruct c as [[] [] [] [] [] [] [] []]; reflexivity. Qed.

Lemma lower_or_digit_spec (c : ascii) :
  lower_or_digit c = isalnum c && negb (is_upper c).
Proof. destruct c as [[] [] [] [] [] [] [] []]; reflexivity. Qed.

Lemma lower_or_digit_not_space (c : ascii) : lower_or_digit c = true -> is_space c = false.
Proof. destruct c as [[] [] [] [] [] [] [] []]; intros H; try reflexivity; discriminate H. Qed.

Lemma lower_or_digit_fixed (c : ascii) : lower_or_digit c = true -> lower_char c = c.
Proof. destruct c as [[] [] [] [] [] [] [] []]; intros H; try reflexivity; discriminate H. Qed.

Lemma lower_or_digit_alnum (c : ascii) : lower_or_digit c = true -> isalnum c = true.
Proof. destruct c as [[] [] [] [] [] [] [] []]; intros H; try reflexivity; discriminate H. Qed.

Lemma filter_lower_clean (s : string) :
  str_forall lower_or_digit (filter_chars isalnum (lower s)) = true.
Proof.
  induction s as [| c r IH]; [reflexivity |]. cbn [lower filter_chars].
  destruct (isalnum (lower_char c)) eqn:E; [| exact IH].
  cbn [str_forall]. rewrite IH, lower_or_digit_spec, E, lower_char_not_upper. reflexivity.
Qed.

Lemma clean_lstrip (s : string) : str_forall lower_or_digit s = true -> lstrip s = s.
Proof.
  destruct s as [| c r]; [reflexivity |]. cbn [str_forall lstrip].
  intros H. apply andb_true_iff in H as [Hc _].
  now rewrite (lower_or_digit_not_space c Hc).
Qed.

Lemma clean_rstrip (s : string) : str_forall lower_or_digit s = true -> rstrip s = s.
Proof.
  induction s as [| c r IH]; [reflexivity |]. cbn [str_forall rstrip].
  intros H. apply andb_true_iff in H as [Hc Hr]. rewrite (IH Hr).
  destruct r; [| reflexivity]. now rewrite (lower_or_digit_not_space c Hc).
Qed.

Lemma clean_lower (s : string) : str_forall lower_or_digit s = true -> lower s = s.
Proof.
  induction s as [| c r IH]; [reflexivity |]. cbn [str_forall lower].
  intros H. apply andb_true_iff in H as [Hc Hr].
  now rewrite (IH Hr), (lower_or_digit_fixed c Hc).
Qed.

Lemma clean_filter (s : string) :
  str_forall lower_or_digit s = true -> filter_chars isalnum s = s.
Proof.
  induction s as [| c r IH]; [reflexivity |]. cbn [str_forall filter_chars].
  intros H. apply andb_true_iff in H as [Hc Hr].
  now rewrite (IH Hr), (lower_or_digit_alnum c Hc).
Qed.

Lemma is_ascii_lstrip (s : string) : is_ascii s = true -> is_ascii (lstrip s) = true.
Proof.
  induction s as [| c r IH]; [reflexivity |]. cbn [is_ascii lstrip].
  intros H. destruct (is_space c); [| exact H].
  apply andb_true_iff in H as [_ Hr]. now apply IH.
Qed.

Lemma is_ascii_rstrip (s : string) : is_ascii s = true -> is_ascii (rstrip s) = true.
Proof.
  induction s as [| c r IH]; [reflexivity |]. cbn [is_ascii rstrip].
  intros H. apply andb_true_iff in H as [Hc Hr]. specialize (IH Hr).
  destruct (rstrip r) as [| d r'].
  - destruct (is_space c); [reflexivity |]. cbn [is_ascii]. now rewrite Hc.
  - cbn [is_ascii] in *. now rewrite Hc, IH.
Qed.

Lemma is_ascii_lower_char (c : ascii) :
  (code c <? 128)%nat = true -> (code (lower_char c) <? 128)%nat = true.
Proof. destruct c as [[] [] [] [] [] [] [] []]; intros H; try reflexivity; discriminate H. Qed.

Lemma is_ascii_lower (s : string) : is_ascii s = true -> is_ascii (lower s) = true.
Proof.
  induction s as [| c r IH]; [reflexivity |]. cbn [is_ascii lower].
  intros H. apply andb_true_iff in H as [Hc Hr].
  now rewrite (is_ascii_lower_char c Hc), (IH Hr).
Qed.

Lemma lower_or_digit_ascii (c : ascii) : lower_or_digit c = true -> (code c <? 128)%nat = true.
Proof. destruct c as [[] [] [] [] [] [] [] []]; intros H; try reflexivity; discriminate H. Qed.

Lemma clean_ascii (s : string) : str_forall lower_or_digit s = true -> is_ascii s = true.
Proof.
  induction s as [| c r IH]; [reflexivity |]. cbn [str_forall is_ascii].
  intros H. apply andb_true_iff in H as [Hc Hr].
  now rewrite (lower_or_digit_ascii c Hc), (IH Hr).
Qed.

Section Norm.

Context {U : UnicodeData}.

(** On ASCII text the Unicode database is not consulted. *)
Lemma norm_ascii (s : string) :
  is_ascii s = true -> norm s = filter_chars isalnum (lower (strip s)).
Proof.
  intros H. unfold norm, str_strip, str_lower, str_alnum. rewrite H.
  assert (H1 : is_ascii (strip s) = true) by (now apply is_ascii_rstrip, is_ascii_lstrip).
  rewrite H1. now rewrite (is_ascii_lower _ H1).
Qed.

(** X7.  On ASCII text [_norm] is the same in every interpreter: it
    strips, lowercases and keeps letters and digits by the ASCII
    character classes.  Its result holds lowercase letters and digits
    only, and normalizing it again changes nothing: an answer that is
    already normalized, like the expected answers of the question bank,
    is compared as it stands. *)
Theorem norm_ascii_idempotent (s : string) :
  is_ascii s = true ->
  norm s = filter_chars isalnum (lower (strip s)) /\
  str_forall lower_or_digit (norm s) = true /\
  norm (norm s) = norm s.
Proof.
  intros Hs. rewrite (norm_ascii s Hs).
  assert (H : str_forall lower_or_digit (filter_chars isalnum (lower (strip s))) = true)
    by apply filter_lower_clean.
  split; [reflexivity |]. split; [exact H |].
  rewrite (norm_ascii _ (clean_ascii _ H)).
  set (x := filter_chars isalnum (lower (strip s))) in *. unfold strip.
  now rewrite (clean_lstrip _ H), (clean_rstrip _ H), (clean_lower _ H), (clean_filter _ H).
Qed.

End Norm.

Lemma norm_ascii_idempotent_witness :
  let U := ascii_text in
  is_ascii "  To-Kyo! " = true /\ norm "  To-Kyo! " = "tokyo"%string /\
  norm (norm "  To-Kyo! ") = norm "  To-Kyo! ".
Proof.
  intros U.
  destruct (norm_ascii_idempotent (U := U) "  To-Kyo! " eq_refl) as (H1 & _ & H3).
  split; [reflexivity |]. split; [exact H1 | exact H3].
Defined.

End NormFacts.

(** ** The life of a duel object *)

Module DuelLifecycle.

Import PyDict Discord Clock Asyncio Duel DuelTerms LifecycleTerms.

Local Open Scope Z_scope.
Local Open Scope string_scope.

Section Evolution.

Variable R : DuelState -> DuelState -> Prop.

Hypothesis R_refl : forall s, R s s.
Hypothesis R_trans : forall a b c, R a b -> R b c -> R a c.
Hypothesis R_round_task : forall s v, R s (set_round_task v s).
Hypothesis R_clear_moves : forall s, R s (clear_moves s).
Hypothesis R_round_started_at : forall s v, R s (set_round_started_at v s).
Hypothesis R_forfeit : forall s cm, R s (apply_forfeit cm s).
Hypothesis R_outcome : forall s o, R s (apply_outcome o s).
Hypothesis R_ch_move : forall s m, is_move m = true -> R s (set_ch_move (Some m) s).
Hypothesis R_op_move : forall s m, is_move m = true -> R s (set_op_move (Some m) s).

Lemma alters_refl (h : list DuelState) : alters R h h.
Proof. split; [reflexivity | eauto]. Qed.

Lemma alters_trans (h1 h2 h3 : list DuelState) :
  alters R h1 h2 -> alters R h2 h3 -> alters R h1 h3.
Proof.
  intros [L1 H1] [L2 H2]. split; [congruence |].
  intros st s Hs. destruct (H1 st s Hs) as (s' & Hs' & HR).
  destruct (H2 st s' Hs') as (s'' & Hs'' & HR'). eauto.
Qed.

Lemma alters_alter (f : DuelState -> DuelState) (st : nat) (h : list DuelState) :
  (forall s, R s (f s)) -> alters R h (alter f st h).
Proof.
  intros Hf. split; [apply length_alter |].
  intros st' s Hs. destruct (decide (st = st')) as [-> | Hne].
  - exists (f s). now rewrite list_lookup_alter_eq, Hs.
  - exists s. now rewrite list_lookup_alter_ne.
Qed.

Lemma alters_upd (st : nat) (f : DuelState -> DuelState) (w : World) :
  (forall s, R s (f s)) -> alters R (heap w) (heap (upd st f w)).
Proof. intros Hf. unfold upd. cbn. now apply alters_alter. Qed.

Lemma alters_cancel_round_timer (st : nat) (w : World) :
  alters R (heap w) (heap (cancel_round_timer st w)).
Proof.
  unfold cancel_round_timer. destruct (heap w !! st); [| apply alters_refl].
  cbn. now apply alters_alter.
Qed.

Lemma alters_start_round_begin (gid : Z) (st : nat) (now : Q) (w : World) :
  alters R (heap w) (heap (fst (start_round_begin gid st now w))).
Proof.
  cbn [start_round_begin fst]. apply alters_upd. intros s.
  eapply R_trans; [apply R_clear_moves | apply R_round_started_at].
Qed.

Lemma alters_start_round_finish (gid : Z) (st : nat) (w : World) :
  alters R (heap w) (heap (start_round_finish gid st w)).
Proof.
  unfold start_round_finish, create_task.
  eapply alters_trans; [apply alters_cancel_round_timer |].
  cbn. now apply alters_alter.
Qed.

Lemma alters_check_duel_end (gid : Z) (st : nat) (w : World) :
  alters R (heap w) (heap (fst (check_duel_end gid st w))).
Proof.
  unfold check_duel_end. destruct (heap w !! st) as [s|]; [| apply alters_refl].
  destruct (winner_loser s) as [[wi lo]|]; [| apply alters_refl].
  cbn [fst]. apply (alters_cancel_round_timer st (set_duels (dict_pop gid (duels w)) w)).
Qed.

Lemma alters_end_or_next_round (gid : Z) (st : nat) (now : Q) (w : World) :
  alters R (heap w) (heap (fst (end_or_next_round gid st now w))).
Proof.
  unfold end_or_next_round. pose proof (alters_check_duel_end gid st w) as H.
  destruct (check_duel_end gid st w) as [w1 [|]]; cbn [fst] in *; [exact H |].
  eapply alters_trans; [exact H | apply alters_start_round_begin].
Qed.

Lemma alters_resolve_round_begin (gid : Z) (st : nat) (forced : bool) (w : World) :
  alters R (heap w) (heap (fst (resolve_round_begin gid st forced w))).
Proof.
  rewrite (proj1 (DuelFacts.resolve_round_begin_shape gid st forced w)).
  apply alters_cancel_round_timer.
Qed.

Lemma alters_exec (k : cont) (now : Q) (w : World) :
  alters R (heap w) (heap (fst (exec k now w))).
Proof.
  destruct k as [gid st | gid st | gid st | gid st | gid st cm | gid st o | | gid st | gid st e];
    cbn [exec].
  - apply alters_start_round_begin.
  - apply alters_start_round_finish.
  - destruct (both_moves st w); [apply alters_resolve_round_begin | apply alters_refl].
  - apply alters_start_round_begin.
  - eapply alters_trans; [| apply alters_end_or_next_round].
    apply alters_upd. intros s. eapply R_trans; [apply R_forfeit | apply R_clear_moves].
  - eapply alters_trans; [| apply alters_end_or_next_round].
    apply alters_upd. intros s. eapply R_trans; [apply R_outcome | apply R_clear_moves].
  - apply alters_refl.
  - destruct (heap w !! st); apply alters_refl.
  - destruct (both_moves st w); [apply alters_resolve_round_begin |].
    destruct (Qle_bool 30 e); [apply alters_resolve_round_begin | apply alters_refl].
Qed.

Lemma alters_run_task (t : nat) (now : Q) (w : World) :
  alters R (heap w) (heap (run_task t now w)).
Proof.
  unfold run_task. destruct (tasks w !! t) as [[k | | |]|]; try apply alters_refl.
  pose proof (alters_exec k now (set_tasks (<[t := TRunning]> (tasks w)) w)) as H.
  destruct (exec k now _) as [w1 r]. cbn [fst] in H.
  destruct r as [k'|]; [destruct (tasks w1 !! t) as [[]|] |]; exact H.
Qed.

(** What one step of the event loop does to the duel objects. *)
Lemma step_heap (now : Q) (e : event) (w : World) : heap_step R now e w (step now e w).
Proof.
  destruct e as [m | ctx opp md | ctx | ctx | ctx | t]; cbn [step].
  - apply heap_altered. unfold on_message.
    destruct (msg_author_bot m); [apply alters_refl |].
    destruct (negb (is_none (msg_guild m))); [apply alters_refl |].
    destruct (raw_move (msg_content m)) as [raw|]; [| apply alters_refl].
    destruct (is_move (strip_move raw)) eqn:Hm; [| apply alters_refl]. cbn [negb].
    destruct (find_duel _ _ _) as [[gid st]|]; [| apply alters_refl].
    destruct (heap w !! st) as [s|]; [| apply alters_refl].
    destruct (msg_author m =? challenger_id s)%Z;
      [destruct (negb (is_none (ch_move s))) | destruct (negb (is_none (op_move s)))];
      try apply alters_refl; cbn [fst]; apply alters_upd; intros s0;
      [now apply R_ch_move | now apply R_op_move].
  - unfold duel.
    destruct (ctx_guild ctx) as [gid|] eqn:Hg; [| apply heap_altered, alters_refl].
    destruct opp as [opp|]; [| apply heap_altered, alters_refl].
    destruct (member_bot opp); [apply heap_altered, alters_refl |].
    destruct (Z.eqb_spec (member_id opp) (ctx_author ctx)) as [| Hne];
      [apply heap_altered, alters_refl |].
    destruct (duel_in_the_way gid now w) eqn:Hway; [apply heap_altered, alters_refl |].
    cbn [fst].
    eapply (heap_challenged R now _ w _ ctx opp md gid); try reflexivity; try assumption.
    destruct (String.eqb _ "bo3"); [now right | now left].
  - unfold duelaccept.
    destruct (ctx_guild ctx) as [gid|] eqn:Hg; [| apply heap_altered, alters_refl].
    destruct (dict_get gid (duels w)) as [st|] eqn:Hd; [| apply heap_altered, alters_refl].
    destruct (heap w !! st) as [s|] eqn:Hs; [| apply heap_altered, alters_refl].
    destruct (active s) eqn:Ha; [apply heap_altered, alters_refl |].
    destruct (duel_expired now s) eqn:He; [apply heap_altered, alters_refl |].
    destruct (Z.eqb_spec (ctx_author ctx) (opponent_id s)) as [Heq | Hne]; cbn [negb fst];
      [| apply heap_altered, alters_refl].
    now apply (heap_accepted R now _ w _ ctx gid st s).
  - apply heap_altered. unfold dueldecline.
    destruct (ctx_guild ctx) as [gid|]; [| apply alters_refl].
    destruct (dict_get gid (duels w)) as [st|]; [| apply alters_refl].
    destruct (heap w !! st) as [s|]; [| apply alters_refl].
    destruct (negb (ctx_author ctx =? opponent_id s)%Z); apply alters_refl.
  - apply heap_altered. unfold duelcancel.
    destruct (ctx_guild ctx) as [gid|]; [| apply alters_refl].
    destruct (dict_get gid (duels w)) as [st|]; [| apply alters_refl].
    destruct (heap w !! st) as [s|]; [| apply alters_refl].
    destruct (negb _); [apply alters_refl |]. cbn [fst].
    apply (alters_cancel_round_timer st (set_duels (dict_pop gid (duels w)) w)).
  - apply heap_altered, alters_run_task.
Qed.

End Evolution.

Lemma same_identity_refl (s : DuelState) : same_identity s s.
Proof. repeat split. Qed.

Lemma same_identity_trans (a b c : DuelState) :
  same_identity a b -> same_identity b c -> same_identity a c.
Proof. unfold same_identity. intuition congruence. Qed.

Lemma same_identity_forfeit (s : DuelState) (cm : bool) : same_identity s (apply_forfeit cm s).
Proof. unfold apply_forfeit. destruct cm, (String.eqb (mode s) "bo3"); repeat split. Qed.

Lemma same_identity_outcome (s : DuelState) (o : Z) : same_identity s (apply_outcome o s).
Proof.
  unfold apply_outcome.
  destruct (o =? 0)%Z, (o =? 1)%Z, (String.eqb (mode s) "bo3"); repeat split.
Qed.

Lemma step_identity (now : Q) (e : event) (w : World) (st : nat) (s : DuelState) :
  heap w !! st = Some s ->
  exists s', heap (step now e w) !! st = Some s' /\ same_identity s s'.
Proof.
  intros Hs.
  destruct (step_heap same_identity same_identity_refl same_identity_trans
              ltac:(repeat split) ltac:(repeat split) ltac:(repeat split)
              same_identity_forfeit same_identity_outcome
              ltac:(repeat split) ltac:(repeat split) now e w)
    as [[_ H] | ctx opp md gid dm _ _ _ _ _ Hh | ctx gid st0 s0 _ _ _ _ _ _ _ Hh].
  - now apply H.
  - exists s. rewrite Hh. split; [now apply lookup_app_l_Some | apply same_identity_refl].
  - rewrite Hh. destruct (decide (st0 = st)) as [-> | Hne].
    + exists (accept_reset s). rewrite list_lookup_alter_eq, Hs. now repeat split.
    + exists s. rewrite list_lookup_alter_ne by exact Hne.
      split; [exact Hs | apply same_identity_refl].
Qed.

(** X8.  Once a duel object exists, no run of the event loop changes who
    duels whom in it, in which channel, in which mode, to how many round
    wins, or when the challenge was made; and the object itself never
    goes away (only the registry may drop its reference). *)
Theorem duel_identity_is_fixed (sched : list (Q * event)) (w : World) (st : nat)
    (s : DuelState) :
  heap w !! st = Some s ->
  exists s', heap (run sched w) !! st = Some s' /\ same_identity s s'.
Proof.
  revert w s. induction sched as [| [now e] sched IH]; intros w s Hs.
  - exists s. split; [exact Hs | apply same_identity_refl].
  - cbn [run]. destruct (step_identity now e w st s Hs) as (s1 & Hs1 & H1).
    destruct (IH _ _ Hs1) as (s2 & Hs2 & H2).
    exists s2. split; [exact Hs2 | now apply (same_identity_trans s s1 s2)].
Qed.

Lemma duel_identity_is_fixed_witness :
  let w := run [(0%Q, EDuel challenger_ctx
                        (Some {| member_id := 20; member_bot := false |}) (Some "BO3"))]
             empty_world in
  exists s s',
    heap w !! 0%nat = Some s /\
    heap (run (List.tl (opening None) ++ both_move ++ both_resolve) w) !! 0%nat = Some s' /\
    mode s = "bo3" /\ same_identity s s'.
Proof.
  intros w. eexists _, _.
  split; [vm_compute; reflexivity |]. split; [vm_compute; reflexivity |].
  split; [reflexivity |].
  destruct (duel_identity_is_fixed (List.tl (opening None) ++ both_move ++ both_resolve)
              w 0%nat _ ltac:(vm_compute; reflexivity)) as (s' & Hs' & Hid).
  vm_compute in Hs'. injection Hs' as <-. exact Hid.
Defined.

(** X9.  A duel becomes active in one way only: by a [duelaccept] issued
    in its guild by the opponent it names, no later than 120 seconds after
    the challenge.  No other command, message or timer, and no accept by
    the challenger or by a third user, activates it. *)
Theorem duel_activated_only_by_opponent (now : Q) (e : event) (w : World) (st : nat)
    (s s' : DuelState) :
  heap w !! st = Some s ->
  heap (step now e w) !! st = Some s' ->
  active s = false -> active s' = true ->
  exists ctx gid,
    e = EAccept ctx /\ ctx_guild ctx = Some gid /\
    dict_get gid (duels w) = Some st /\
    ctx_author ctx = opponent_id s /\
    duel_expired now s = false.
Proof.
  intros Hs Hs' Ha Ha'.
  assert (Hf : forall s cm, active (apply_forfeit cm s) = active s).
  { intros s0 cm. unfold apply_forfeit.
    destruct cm, (String.eqb (mode s0) "bo3"); reflexivity. }
  assert (Ho : forall s o, active (apply_outcome o s) = active s).
  { intros s0 o. unfold apply_outcome.
    destruct (o =? 0)%Z, (o =? 1)%Z, (String.eqb (mode s0) "bo3"); reflexivity. }
  destruct (step_heap (fun a b => active b = active a)
              ltac:(reflexivity) ltac:(intros; congruence)
              ltac:(reflexivity) ltac:(reflexivity) ltac:(reflexivity)
              Hf Ho ltac:(reflexivity) ltac:(reflexivity) now e w)
    as [[_ H] | ctx opp md gid dm _ _ _ _ _ Hh | ctx gid st0 s0 He Hg Hd Hs0 _ Hexp Hau Hh].
  - destruct (H st s Hs) as (s1 & Hs1 & Hact). congruence.
  - rewrite Hh, (lookup_app_l_Some _ _ _ _ Hs) in Hs'. congruence.
  - rewrite Hh in Hs'. destruct (decide (st0 = st)) as [-> | Hne].
    + assert (s0 = s) by congruence. subst s0. exists ctx, gid. now repeat split.
    + rewrite list_lookup_alter_ne in Hs' by exact Hne. congruence.
Qed.

Lemma duel_activated_only_by_opponent_witness :
  let w := run [(0%Q, EDuel challenger_ctx
                        (Some {| member_id := 20; member_bot := false |}) None)]
             empty_world in
  exists s s',
    heap w !! 0%nat = Some s /\ heap (step 1 (EAccept opponent_ctx) w) !! 0%nat = Some s' /\
    active s = false /\ active s' = true /\
    ctx_author opponent_ctx = opponent_id s /\
    heap (step 1 (EAccept challenger_ctx) w) = heap w.
Proof.
  intros w. eexists _, _.
  split; [vm_compute; reflexivity |]. split; [vm_compute; reflexivity |].
  split; [reflexivity |]. split; [reflexivity |]. split; [| reflexivity].
  destruct (duel_activated_only_by_opponent 1 (EAccept opponent_ctx) w 0%nat _ _
              ltac:(vm_compute; reflexivity) ltac:(vm_compute; reflexivity)
              eq_refl eq_refl) as (ctx & gid & He & _ & _ & Hau & _).
  injection He as <-. exact Hau.
Defined.

Lemma well_formed_forfeit (s : DuelState) (cm : bool) :
  well_formed s -> well_formed (apply_forfeit cm s).
Proof.
  unfold well_formed, apply_forfeit.
  destruct cm, (String.eqb (mode s) "bo3"); cbn; intuition lia.
Qed.

Lemma well_formed_outcome (s : DuelState) (o : Z) :
  well_formed s -> well_formed (apply_outcome o s).
Proof.
  unfold well_formed, apply_outcome.
  destruct (o =? 0)%Z, (o =? 1)%Z, (String.eqb (mode s) "bo3"); cbn; intuition lia.
Qed.

Lemma well_formed_clear (s : DuelState) : well_formed s -> well_formed (clear_moves s).
Proof. unfold well_formed, slot_valid. cbn. intuition discriminate. Qed.

Lemma well_formed_ch_move (s : DuelState) (m : string) :
  is_move m = true -> well_formed s -> well_formed (set_ch_move (Some m) s).
Proof. unfold well_formed, slot_valid. cbn. intuition congruence. Qed.

Lemma well_formed_op_move (s : DuelState) (m : string) :
  is_move m = true -> well_formed s -> well_formed (set_op_move (Some m) s).
Proof. unfold well_formed, slot_valid. cbn. intuition congruence. Qed.

Lemma well_formed_accept (s : DuelState) : well_formed s -> well_formed (accept_reset s).
Proof. unfold well_formed, slot_valid. cbn. intuition (try discriminate; try lia). Qed.

Lemma well_formed_new (a b c : Z) (md : string) (now : Q) :
  b <> a -> md = "hp" \/ md = "bo3" -> well_formed (new_duel a b c md now).
Proof. unfold well_formed, slot_valid. cbn. intuition (try discriminate; try lia). Qed.

Lemma step_well_formed (now : Q) (e : event) (w : World) :
  (forall st s, heap w !! st = Some s -> well_formed s) ->
  forall st s, heap (step now e w) !! st = Some s -> well_formed s.
Proof.
  intros Hw st s' Hs'.
  destruct (step_heap (fun a b => well_formed a -> well_formed b)
              (fun s0 H => H) (fun a b c H1 H2 H => H2 (H1 H))
              (fun s0 v H => H) well_formed_clear
              (fun s0 v H => H)
              well_formed_forfeit well_formed_outcome
              well_formed_ch_move well_formed_op_move now e w)
    as [[Hlen H] | ctx opp md gid dm _ _ Hne _ Hdm Hh | ctx gid st0 s0 _ _ _ Hs0 _ _ _ Hh].
  - assert (Hlt : (st < length (heap w))%nat)
      by (rewrite <- Hlen; now apply lookup_lt_Some in Hs').
    apply lookup_lt_is_Some in Hlt as [s Hs].
    destruct (H st s Hs) as (s1 & Hs1 & Himp).
    assert (s1 = s') by congruence. subst s1. apply Himp, (Hw st s Hs).
  - rewrite Hh in Hs'. apply lookup_app_Some in Hs' as [Hs' | [_ Hs']].
    + exact (Hw st s' Hs').
    + apply list_lookup_singleton_Some in Hs' as [_ <-]. now apply well_formed_new.
  - rewrite Hh in Hs'. destruct (decide (st0 = st)) as [-> | Hne].
    + rewrite list_lookup_alter_eq, Hs0 in Hs'. injection Hs' as <-.
      apply well_formed_accept, (Hw st s0 Hs0).
    + rewrite list_lookup_alter_ne in Hs' by exact Hne. exact (Hw st s' Hs').
Qed.

Lemma run_well_formed (sched : list (Q * event)) (w : World) :
  (forall st s, heap w !! st = Some s -> well_formed s) ->
  forall st s, heap (run sched w) !! st = Some s -> well_formed s.
Proof.
  revert w. induction sched as [| [now e] sched IH]; intros w Hw; [exact Hw |].
  cbn [run]. apply IH. now apply step_well_formed.
Qed.

(** X10.  Every duel object the cog ever holds, in any state the event
    loop can reach, opposes two different users, is in mode hp or bo3 with
    a target of 2 round wins, has in each move slot nothing or one of the
    three moves, and has health of at most 3 and round wins of at least 0
    on both sides. *)
Theorem reachable_duels_well_formed (sched : list (Q * event)) (st : nat) (s : DuelState) :
  heap (run sched empty_world) !! st = Some s -> well_formed s.
Proof.
  apply run_well_formed. intros st' s' H. discriminate H.
Qed.

Lemma reachable_duels_well_formed_witness :
  exists s,
    heap (run (opening None ++ both_move ++ both_resolve) empty_world) !! 0%nat = Some s /\
    well_formed s.
Proof.
  eexists. split; [vm_compute; reflexivity |].
  apply (reachable_duels_well_formed (opening None ++ both_move ++ both_resolve) 0%nat).
  vm_compute. reflexivity.
Defined.

(** X11.  [_resolve_round] never fails in [duel_resolve]: whenever both
    slots of a duel the event loop has reached are filled, [duel_resolve]
    on them returns 0, 1 or 2 (the [KeyError] of its table lookup cannot
    occur). *)
Theorem resolve_never_fails (sched : list (Q * event)) (st : nat) (s : DuelState)
    (a b : string) :
  heap (run sched empty_world) !! st = Some s ->
  ch_move s = Some a -> op_move s = Some b ->
  exists outcome,
    duel_resolve a b = Some outcome /\ (outcome = 0 \/ outcome = 1 \/ outcome = 2).
Proof.
  intros Hs Ha Hb.
  pose proof (run_well_formed sched empty_world
                ltac:(intros st' s' H; discriminate H) st s Hs)
    as (_ & _ & _ & Hva & Hvb & _).
  specialize (Hva a Ha). specialize (Hvb b Hb).
  apply DuelRules.is_move_In in Hva, Hvb. cbn in Hva, Hvb.
  destruct Hva as [<- | [<- | [<- | []]]], Hvb as [<- | [<- | [<- | []]]];
    eexists; (split; [vm_compute; reflexivity | tauto]).
Qed.

Lemma resolve_never_fails_witness :
  exists s,
    heap (run (opening None ++ both_move) empty_world) !! 0%nat = Some s /\
    ch_move s = Some "strike" /\ op_move s = Some "feint" /\
    exists outcome,
      duel_resolve "strike" "feint" = Some outcome /\
      (outcome = 0 \/ outcome = 1 \/ outcome = 2).
Proof.
  eexists. split; [vm_compute; reflexivity |].
  split; [reflexivity |]. split; [reflexivity |].
  refine (resolve_never_fails (opening None ++ both_move) 0%nat _ _ _ _ _ _);
    vm_compute; reflexivity.
Defined.

End DuelLifecycle.

(** ** The duel commands *)

Module DuelCommands.

Import PyDict Discord Clock Asyncio Duel DuelTerms LifecycleTerms CommandTerms.

Local Open Scope Z_scope.
Local Open Scope string_scope.

Lemma dict_get_set_eq {V : Type} (k : Z) (v : V) (d : list (Z * V)) :
  dict_get k (dict_set k v d) = Some v.
Proof.
  induction d as [| [k' v'] d IH]; cbn [dict_set dict_get].
  - now destruct (decide (k = k)).
  - destruct (decide (k = k')) as [-> | Hne]; cbn [dict_get].
    + now destruct (decide (k' = k')).
    + now destruct (decide (k = k')).
Qed.

Lemma dict_get_set_ne {V : Type} (k g : Z) (v : V) (d : list (Z * V)) :
  g <> k -> dict_get g (dict_set k v d) = dict_get g d.
Proof.
  intros Hne. induction d as [| [k' v'] d IH]; cbn [dict_set dict_get].
  - now destruct (decide (g = k)).
  - destruct (decide (k = k')) as [-> | Hne']; cbn [dict_get].
    + now destruct (decide (g = k')).
    + destruct (decide (g = k')); [reflexivity | exact IH].
Qed.



Lemma dict_get_pop_ne {V : Type} (k g : Z) (d : list (Z * V)) :
  g <> k -> dict_get g (dict_pop k d) = dict_get g d.
Proof.
  intros Hne. induction d as [| [k' v'] d IH]; [reflexivity |].
  cbn [dict_pop dict_get]. destruct (decide (k = k')) as [-> | Hne'].
  - now destruct (decide (g = k')).
  - cbn [dict_get]. destruct (decide (g = k')); [reflexivity | exact IH].
Qed.

Lemma duel_expired_iff (now : Q) (s : DuelState) :
  duel_expired now s = true <-> (120 < now - created_at s)%Q.
Proof.
  unfold duel_expired, Qltb. rewrite negb_true_iff.
  split.
  - intros H. apply Qnot_le_lt. intros Hle. apply Qle_bool_iff in Hle. congruence.
  - intros H. destruct (Qle_bool (now - created_at s) 120) eqn:E; [| reflexivity].
    apply Qle_bool_iff in E. exfalso. exact (Qlt_not_le _ _ H E).
Qed.

(** X12.  A challenge is registered when nothing stands in its way: the
    guild has no duel, or its duel is not active and was created more than
    120 seconds ago.  The new duel is pending (not active, not accepted),
    with full health, no wins and empty slots; its mode is bo3 exactly
    when the mode argument, trimmed and lowercased, is "bo3", and hp for
    any other or no argument (the argument being ASCII text).  Nothing
    else changes: other guilds keep their entries, existing objects,
    tasks and the ledger are untouched, and the replaced duel, if any, is
    only dropped from the registry. *)
Theorem challenge_registers_pending_duel (ctx : Ctx) (gid : Z) (opp : Member)
    (md : option string) (now : Q) (w : World) :
  ctx_guild ctx = Some gid ->
  member_bot opp = false ->
  member_id opp <> ctx_author ctx ->
  PyStr.is_ascii (default "" md) = true ->
  (dict_get gid (duels w) = None \/
   exists st s, dict_get gid (duels w) = Some st /\ heap w !! st = Some s /\
                active s = false /\ (120 < now - created_at s)%Q) ->
  let w' := fst (duel ctx (Some opp) md now w) in
  let duel_mode :=
    if String.eqb (PyStr.lower (PyStr.strip (default "" md))) "bo3" then "bo3" else "hp" in
  snd (duel ctx (Some opp) md now w) = RChallenge /\
  dict_get gid (duels w') = Some (length (heap w)) /\
  (exists s', heap w' !! length (heap w) = Some s' /\
              pending_challenge (ctx_author ctx) (member_id opp) (ctx_channel ctx)
                duel_mode now s') /\
  (forall g, g <> gid -> dict_get g (duels w') = dict_get g (duels w)) /\
  (forall st s, heap w !! st = Some s -> heap w' !! st = Some s) /\
  tasks w' = tasks w /\ ledger w' = ledger w.
Proof.
  intros Hg Hbot Hne _ Hfree w' duel_mode. subst w' duel_mode.
  assert (Hway : duel_in_the_way gid now w = false).
  { unfold duel_in_the_way. destruct Hfree as [-> | (st & s & -> & -> & -> & Hexp)];
      [reflexivity |].
    apply duel_expired_iff in Hexp. now rewrite Hexp. }
  unfold duel. rewrite Hg, Hbot, Hway.
  destruct (Z.eqb_spec (member_id opp) (ctx_author ctx)) as [| _]; [contradiction |].
  cbn [fst snd duels heap tasks ledger set_duels set_heap].
  split; [reflexivity |]. split; [apply dict_get_set_eq |].
  split; [eexists; split; [now apply list_lookup_middle | repeat split] |].
  split; [intros g Hgne; now apply dict_get_set_ne |].
  split; [intros st s Hs; now apply lookup_app_l_Some | now split].
Qed.

Lemma challenge_registers_pending_duel_witness :
  let w := run [(0%Q, EDuel challenger_ctx
                        (Some {| member_id := 20; member_bot := false |}) None)]
             empty_world in
  let ctx := {| ctx_guild := Some 1; ctx_author := 30; ctx_channel := 100 |} in
  let opp := {| member_id := 10; member_bot := false |} in
  exists s,
    dict_get 1 (duels w) = Some 0%nat /\ heap w !! 0%nat = Some s /\
    active s = false /\ (120 < 121 - created_at s)%Q /\
    snd (duel ctx (Some opp) (Some " BO3 ") 121 w) = RChallenge /\
    dict_get 1 (duels (fst (duel ctx (Some opp) (Some " BO3 ") 121 w))) = Some 1%nat /\
    exists s', heap (fst (duel ctx (Some opp) (Some " BO3 ") 121 w)) !! 1%nat = Some s' /\
               pending_challenge 30 10 100 "bo3" 121 s'.
Proof.
  intros w ctx opp. eexists.
  split; [reflexivity |]. split; [vm_compute; reflexivity |].
  split; [reflexivity |]. split; [reflexivity |].
  refine (let H := challenge_registers_pending_duel ctx 1 opp (Some " BO3 ") 121 w
                     eq_refl eq_refl _ eq_refl _ in
          conj (proj1 H) (conj (proj1 (proj2 H)) (proj1 (proj2 (proj2 H))))).
  - discriminate.
  - right. eexists _, _. split; [reflexivity |]. split; [vm_compute; reflexivity |].
    split; reflexivity.
Defined.



End DuelCommands.
